(** * Pure Gouache: colour mathematics, paper texture, bristles, strokes, history

    A shallow embedding of the painting core of the Pure Gouache studio
    ([src/utils/color.ts], [src/utils/canvasUtils.ts] and
    [src/hooks/useGouacheEngine.ts]) together with the properties its
    specification states about it.

    Conventions.
    - JavaScript numbers that the code only ever uses as integers (colour
      bytes, canvas dimensions, array indices) are [Z].
    - The colour mixer of [color.ts] and the pixel loop of the paper
      texture are evaluated on IEEE binary64 numbers, the very numbers
      JavaScript computes with ([PrimFloat]); [Math.pow], whose precision is
      up to the engine, is a parameter there.
    - The stroke, bristle and pattern code is embedded over exact rationals
      [Q], an idealisation that leaves out the rounding of binary64; what
      leaves the rationals ([Math.hypot], [Math.sin], ...) or the program
      ([Math.random], the 2D canvas rasteriser) is a parameter of the
      definitions that use it. *)

From Stdlib Require Import ZArith QArith Qabs Qround Qminmax Floats Lia Lqa Ascii String.
From stdpp Require Import gmap strings list.

Local Open Scope Z_scope.

(** ** Colour mathematics ([src/utils/color.ts]) *)

Module Color.

Local Open Scope float_scope.

(** [{ r, g, b }] with JavaScript number fields. *)
Record RGB := mkRGB { r : float; g : float; b : float }.

(** [{ c, m, y, k }] as returned by [rgbToCmyk]. *)
Record CMYK := mkCMYK { c : float; m : float; y : float; k : float }.

(** [Math.min] of two numbers: NaN is contagious and [-0] is below [+0]. *)
Definition Math_min (x y : float) : float :=
  if is_nan x then x
  else if is_nan y then y
  else if x <? y then x
  else if y <? x then y
  else if get_sign x then x else y.

(** The integer [n] as a number; exact for [|n| < 2^53]. *)
Definition float_of_Z (n : Z) : float :=
  if (n <? 0)%Z then - of_uint63 (Uint63.of_Z (- n)) else of_uint63 (Uint63.of_Z n).

(** [Math.round]: the integer nearest to [x], ties towards +infinity.
    A finite [x] is [±m·2^e]; when [e < 0] the result is
    [floor (x + 1/2) = floor ((±2m + 2^-e) / 2^(1-e))]. NaN, the infinities,
    the zeros and the numbers that already are integers are returned as
    they are; a negative [x] that rounds to zero gives [-0]. *)
Definition Math_round (x : float) : float :=
  match Prim2SF x with
  | S754_finite s mant e =>
      if (0 <=? e)%Z then x
      else
        let v := if s then Z.neg mant else Z.pos mant in
        let n := ((2 * v + 2 ^ (- e)) / 2 ^ (1 - e))%Z in
        if (n =? 0)%Z then (if s then PrimFloat.neg_zero else PrimFloat.zero) else float_of_Z n
  | _ => x
  end.

(** [rgbToCmyk]. *)
Definition rgbToCmyk (r g b : float) : CMYK :=
  let c := 1 - (r / 255) in
  let m := 1 - (g / 255) in
  let y := 1 - (b / 255) in
  let k := Math_min c (Math_min m y) in
  if k =? 1 then mkCMYK 0 0 0 1
  else mkCMYK ((c - k) / (1 - k)) ((m - k) / (1 - k)) ((y - k) / (1 - k)) k.

(** [cmykToRgb]. *)
Definition cmykToRgb (c m y k : float) : RGB :=
  let r := 255 * (1 - c) * (1 - k) in
  let g := 255 * (1 - m) * (1 - k) in
  let b := 255 * (1 - y) * (1 - k) in
  mkRGB r g b.

(** [mixPigments]. *)
Definition mixPigments (c1 c2 : RGB) (t : float) : RGB :=
  let color1 := rgbToCmyk (r c1) (g c1) (b c1) in
  let color2 := rgbToCmyk (r c2) (g c2) (b c2) in
  let c := c color1 + (c color2 - c color1) * t in
  let m := m color1 + (m color2 - m color1) * t in
  let y := y color1 + (y color2 - y color1) * t in
  let k := k color1 + (k color2 - k color1) * t in
  let result := cmykToRgb c m y k in
  mkRGB (Math_round (r result)) (Math_round (g result)) (Math_round (b result)).

(** [mixPigmentsFloat]: the same without the final rounding. *)
Definition mixPigmentsFloat (c1 c2 : RGB) (t : float) : RGB :=
  let color1 := rgbToCmyk (r c1) (g c1) (b c1) in
  let color2 := rgbToCmyk (r c2) (g c2) (b c2) in
  let c := c color1 + (c color2 - c color1) * t in
  let m := m color1 + (m color2 - m color1) * t in
  let y := y color1 + (y color2 - y color1) * t in
  let k := k color1 + (k color2 - k color1) * t in
  let result := cmykToRgb c m y k in
  mkRGB (r result) (g result) (b result).

(** [lerpColor], the additive interpolation the pigment mixer is set
    against. *)
Definition lerpColor (c1 c2 : RGB) (t : float) : RGB :=
  mkRGB (Math_round (r c1 + (r c2 - r c1) * t))
        (Math_round (g c1 + (g c2 - g c1) * t))
        (Math_round (b c1 + (b c2 - b c1) * t)).

(** The mixer as the specification words it: convert both colours to CMYK,
    interpolate each channel linearly by [t], convert back (and round). *)
Definition lerp (a b t : float) : float := a + (b - a) * t.

Definition lerpCmyk (p q : CMYK) (t : float) : CMYK :=
  mkCMYK (lerp (c p) (c q) t) (lerp (m p) (m q) t)
         (lerp (y p) (y q) t) (lerp (k p) (k q) t).

Definition spec_mixPigments (c1 c2 : RGB) (t : float) : RGB :=
  let p := lerpCmyk (rgbToCmyk (r c1) (g c1) (b c1))
                    (rgbToCmyk (r c2) (g c2) (b c2)) t in
  let back := cmykToRgb (c p) (m p) (y p) (k p) in
  mkRGB (Math_round (r back)) (Math_round (g back)) (Math_round (b back)).

Definition cyan : RGB := mkRGB 0 255 255.
Definition yellow : RGB := mkRGB 255 255 0.

End Color.

(** ** Hex strings ([hexToRgb], [rgbToHex] of [src/utils/color.ts]) *)

Module Hex.

Local Open Scope Z_scope.

(** [{ r, g, b }] whose fields hold integers. *)
Record RGB := mkRGB { r : Z; g : Z; b : Z }.

(** ToInt32 and the left shift [a << n] of 32-bit integers. *)
Definition toInt32 (z : Z) : Z := (z + 2 ^ 31) mod 2 ^ 32 - 2 ^ 31.

Definition shl (a n : Z) : Z := toInt32 (Z.shiftl (toInt32 a) (n mod 32)).

(** The digit characters [Number.prototype.toString(16)] prints. *)
Definition hexDigit (d : Z) : ascii :=
  match d with
  | 0 => "0" | 1 => "1" | 2 => "2" | 3 => "3" | 4 => "4" | 5 => "5"
  | 6 => "6" | 7 => "7" | 8 => "8" | 9 => "9" | 10 => "a" | 11 => "b"
  | 12 => "c" | 13 => "d" | 14 => "e" | _ => "f"
  end%char.

(** Base-16 digits of a non-negative integer, most significant first. The
    fuel bounds the number of digits. *)
Fixpoint hexDigits (fuel : nat) (n : Z) : list ascii :=
  match fuel with
  | O => []
  | S fuel' =>
      if n <? 16 then [hexDigit n]
      else hexDigits fuel' (n / 16) ++ [hexDigit (n mod 16)]
  end.

(** [n.toString(16)] for an integer [n]; [S (log2 |n|)] digits always
    suffice. *)
Definition toString16 (n : Z) : string :=
  let digits := hexDigits (S (Z.to_nat (Z.log2 (Z.abs n)))) (Z.abs n) in
  string_of_list_ascii (if n <? 0 then "-"%char :: digits else digits).

(** [s.slice(1)]. *)
Definition slice1 (s : string) : string :=
  match s with
  | EmptyString => EmptyString
  | String _ rest => rest
  end.

(** [rgbToHex]. *)
Definition rgbToHex (r g b : Z) : string :=
  String "#" (slice1 (toString16 (shl 1 24 + shl r 16 + shl g 8 + b))).

(** The character class [[a-f\d]] under the [i] flag. *)
Definition isHexDigit (ch : ascii) : bool :=
  let n := Z.of_N (N_of_ascii ch) in
  ((48 <=? n) && (n <=? 57)) || ((97 <=? n) && (n <=? 102)) || ((65 <=? n) && (n <=? 70)).

(** Value of one digit for [parseInt(_, 16)]. *)
Definition hexVal (ch : ascii) : Z :=
  let n := Z.of_N (N_of_ascii ch) in
  if (48 <=? n) && (n <=? 57) then n - 48
  else if (97 <=? n) && (n <=? 102) then n - 87
  else n - 55.

(** [parseInt(s, 16)] on a string of hex digits. *)
Definition parseInt16 (s : list ascii) : Z :=
  fold_left (fun acc ch => 16 * acc + hexVal ch) s 0.

(** [/^#?([a-f\d]{2})([a-f\d]{2})([a-f\d]{2})$/i.exec(hex)]: the three
    captured groups, or [None] when the string does not match. *)
Definition hexRegexExec (hex : string) : option (list ascii * list ascii * list ascii) :=
  let body :=
    match hex with
    | String "#" rest => rest
    | _ => hex
    end in
  match list_ascii_of_string body with
  | [c1; c2; c3; c4; c5; c6] =>
      if forallb isHexDigit [c1; c2; c3; c4; c5; c6]
      then Some ([c1; c2], [c3; c4], [c5; c6])
      else None
  | _ => None
  end.

(** [hexToRgb]. *)
Definition hexToRgb (hex : string) : RGB :=
  match hexRegexExec hex with
  | Some (g1, g2, g3) => mkRGB (parseInt16 g1) (parseInt16 g2) (parseInt16 g3)
  | None => mkRGB 0 0 0
  end.

End Hex.

(** ** Rasters: [ImageData] and the backing store of a canvas *)

Module Canvas.

Local Open Scope Z_scope.

(** An [ImageData], and equally the pixels of a [<canvas>]: [width × height]
    pixels, four bytes (R, G, B, A) each, row after row. *)
Record ImageData := mkImageData { width : Z; height : Z; data : list Z }.

(** What the browser guarantees of every [ImageData]:
    [data.length = 4 · width · height]. *)
Definition wellFormed (c : ImageData) : Prop :=
  0 <= width c /\ 0 <= height c /\ Z.of_nat (length (data c)) = 4 * width c * height c.

(** [data[k]], reading [0] past the end. *)
Definition byteAt (d : list Z) (k : Z) : Z := nth (Z.to_nat k) d 0.

(** The four bytes of pixel [(x, y)]; transparent black outside the raster. *)
Definition pixelAt (c : ImageData) (x y : Z) : list Z :=
  if (0 <=? x) && (x <? width c) && (0 <=? y) && (y <? height c) then
    let k := 4 * (y * width c + x) in
    [byteAt (data c) k; byteAt (data c) (k + 1); byteAt (data c) (k + 2); byteAt (data c) (k + 3)]
  else [0; 0; 0; 0].

(** [ctx.getImageData(0, 0, w, h)] on the canvas [c]. *)
Definition getImageData (c : ImageData) (w h : Z) : ImageData :=
  mkImageData w h (flat_map (fun i => pixelAt c (i mod w) (i / w)) (seqZ 0 (w * h))).

(** [ctx.putImageData(img, 0, 0)] on the canvas [c]: the pixels that [img]
    covers are replaced, the others stay. *)
Definition putImageData (img c : ImageData) : ImageData :=
  mkImageData (width c) (height c)
    (flat_map
       (fun i =>
          let x := i mod width c in
          let y := i / width c in
          if (x <? width img) && (y <? height img) then pixelAt img x y else pixelAt c x y)
       (seqZ 0 (width c * height c))).

(** A canvas right after its [width]/[height] were assigned: all pixels
    transparent black. *)
Definition blank (w h : Z) : ImageData :=
  mkImageData w h (repeat 0 (Z.to_nat (4 * w * h))).

(** Any drawing on a canvas: the dimensions stay, byte [i] becomes
    [paint i old]. *)
Definition redraw (paint : nat -> list Z -> Z) (c : ImageData) : ImageData :=
  mkImageData (width c) (height c)
    (map (fun i => paint i (data c)) (seq 0 (length (data c)))).

(** [clearCanvas]: [ctx.clearRect(0, 0, canvas.width, canvas.height)]. *)
Definition clearCanvas (c : ImageData) : ImageData :=
  redraw (fun _ _ => 0) c.

End Canvas.

(** ** The engine: layers, mask and the undo history
    ([src/hooks/useGouacheEngine.ts]) *)

Module Engine.
Import Canvas.

Local Open Scope Z_scope.

(** [HistoryState]. *)
Record HistoryState := mkHistoryState {
  layerId : string;
  painting : ImageData;
  mask : ImageData
}.

Definition MAX_HISTORY_BYTES : Z := 150 * 1024 * 1024.

(** The part of the hook's refs and state the history code reads and writes.
    [init] stores a layer's canvas and its 2D context under the same id, and
    the mask canvas together with its context, so one entry stands for both;
    [layerCanvases] holds the pixels each canvas currently shows. *)
Record Engine := mkEngine {
  layerCanvases : gmap string ImageData;
  maskCanvas : option ImageData;
  tempCanvas : option ImageData;
  compositeCanvas : option ImageData;
  patternImage : option ImageData;
  activeLayerId : string;
  history : list HistoryState;
  historyIndex : Z
}.

Definition setHistory (s : Engine) (h : list HistoryState) (i : Z) : Engine :=
  mkEngine (layerCanvases s) (maskCanvas s) (tempCanvas s) (compositeCanvas s)
           (patternImage s) (activeLayerId s) h i.

Definition setLayers (s : Engine) (l : gmap string ImageData) : Engine :=
  mkEngine l (maskCanvas s) (tempCanvas s) (compositeCanvas s)
           (patternImage s) (activeLayerId s) (history s) (historyIndex s).

Definition setMask (s : Engine) (m : option ImageData) : Engine :=
  mkEngine (layerCanvases s) m (tempCanvas s) (compositeCanvas s)
           (patternImage s) (activeLayerId s) (history s) (historyIndex s).

Definition setActiveLayerId (id : string) (s : Engine) : Engine :=
  mkEngine (layerCanvases s) (maskCanvas s) (tempCanvas s) (compositeCanvas s)
           (patternImage s) id (history s) (historyIndex s).

(** [h.painting.data.length + h.mask.data.length]. *)
Definition entryBytes (h : HistoryState) : Z :=
  Z.of_nat (length (data (painting h))) + Z.of_nat (length (data (mask h))).

(** [history.reduce((acc, h) => acc + ..., 0)]. *)
Definition historyBytes (l : list HistoryState) : Z :=
  fold_left (fun acc h => acc + entryBytes h) l 0.

(** [history.splice(start)]: what stays in the array. A negative [start]
    counts from the end. *)
Definition spliceFrom (start : Z) (l : list HistoryState) : list HistoryState :=
  let len := Z.of_nat (length l) in
  let k := if start <? 0 then Z.max (len + start) 0 else Z.min start len in
  take (Z.to_nat k) l.

(** [history[i]]. *)
Definition entryAt (l : list HistoryState) (i : Z) : option HistoryState :=
  if i <? 0 then None else l !! Z.to_nat i.

(** The [while] loop of [commitHistory]: drop the oldest entry as long as
    the history is not empty and the byte count exceeds the budget. *)
Fixpoint evictBytes (hist : list HistoryState) (idx usage : Z) : list HistoryState * Z :=
  match hist with
  | [] => ([], idx)
  | removed :: rest =>
      if MAX_HISTORY_BYTES <? usage
      then evictBytes rest (idx - 1) (usage - entryBytes removed)
      else (hist, idx)
  end.

(** [commitHistory]. *)
Definition commitHistory (s : Engine) : Engine :=
  match layerCanvases s !! activeLayerId s, maskCanvas s with
  | Some activeCanvas, Some maskC =>
      let w := width activeCanvas in
      let h := height activeCanvas in
      if (w <=? 0) || (h <=? 0) then s
      else
        let hist1 :=
          if historyIndex s <? Z.of_nat (length (history s)) - 1
          then spliceFrom (historyIndex s + 1) (history s)
          else history s in
        let hist2 :=
          hist1 ++ [mkHistoryState (activeLayerId s)
                      (getImageData activeCanvas w h) (getImageData maskC w h)] in
        let idx2 := historyIndex s + 1 in
        let '(hist3, idx3) := evictBytes hist2 idx2 (historyBytes hist2) in
        if (20 <? length hist3)%nat
        then setHistory s (tail hist3) (idx3 - 1)
        else setHistory s hist3 idx3
  | _, _ => s
  end.

(** The entry [commitHistory] appends, when it gets past its guards. *)
Definition snapshot (s : Engine) : option HistoryState :=
  match layerCanvases s !! activeLayerId s, maskCanvas s with
  | Some activeCanvas, Some maskC =>
      let w := width activeCanvas in
      let h := height activeCanvas in
      if (w <=? 0) || (h <=? 0) then None
      else Some (mkHistoryState (activeLayerId s)
                   (getImageData activeCanvas w h) (getImageData maskC w h))
  | _, _ => None
  end.

(** What [undo] and [redo] do with the entry they moved to: write its
    painting into its layer (when that layer still has a context) and its
    mask into the mask canvas. *)
Definition restore (entry : option HistoryState) (s : Engine) : Engine :=
  match entry with
  | Some e =>
      let layers :=
        match layerCanvases s !! layerId e with
        | Some c => <[layerId e := putImageData (painting e) c]> (layerCanvases s)
        | None => layerCanvases s
        end in
      setMask (setLayers s layers) (putImageData (mask e) <$> maskCanvas s)
  | None => s
  end.

(** [undo]. *)
Definition undo (s : Engine) : Engine :=
  if (historyIndex s <=? 0) || negb (bool_decide (is_Some (maskCanvas s))) then s
  else
    let idx := historyIndex s - 1 in
    restore (entryAt (history s) idx) (setHistory s (history s) idx).

(** [redo]. *)
Definition redo (s : Engine) : Engine :=
  if (Z.of_nat (length (history s)) - 1 <=? historyIndex s)
     || negb (bool_decide (is_Some (maskCanvas s))) then s
  else
    let idx := historyIndex s + 1 in
    restore (entryAt (history s) idx) (setHistory s (history s) idx).

(** [safeResize] inside [updateSize]: the resized canvas and whether it was
    resized. Assigning [width]/[height] clears the canvas; the old pixels
    are then drawn back at the origin with the identity transform, which on
    a cleared canvas copies them. *)
Definition safeResize (newWidth newHeight : Z) (c : ImageData) : ImageData * bool :=
  if (width c =? newWidth) && (height c =? newHeight) then (c, false)
  else
    let cleared := blank newWidth newHeight in
    (if (0 <? width c) && (0 <? height c) then putImageData c cleared else cleared, true).

(** [updateSize]. *)
Definition updateSize (width height pixelRatio : Z) (s : Engine) : Engine :=
  let newWidth := width * pixelRatio in
  let newHeight := height * pixelRatio in
  if (newWidth <=? 0) || (newHeight <=? 0) then s
  else
    let maskR := safeResize newWidth newHeight <$> maskCanvas s in
    let tempR := safeResize newWidth newHeight <$> tempCanvas s in
    let compositeR := safeResize newWidth newHeight <$> compositeCanvas s in
    let layersR := safeResize newWidth newHeight <$> layerCanvases s in
    let anyResized :=
      from_option snd false maskR || existsb (fun kv => snd (snd kv)) (map_to_list layersR) in
    let s1 :=
      mkEngine (fst <$> layersR) (fst <$> maskR) (fst <$> tempR) (fst <$> compositeR)
               (patternImage s) (activeLayerId s) (history s) (historyIndex s) in
    if anyResized then commitHistory (setHistory s1 [] (-1))
    else if (length (history s1) =? 0)%nat then commitHistory s1
    else s1.

(** The hook before [init]: no canvases, an empty history. *)
Definition initialEngine : Engine :=
  mkEngine ∅ None None None None "layer-1" [] (-1).

(** [init]: register the layer canvases the provider returns, the mask and
    the scratch canvases (created at the default 300 × 150 when missing),
    then [updateSize]. *)
Definition init (canvases : list (string * ImageData)) (maskC : ImageData)
    (logicalWidth logicalHeight pixelRatio : Z) (s : Engine) : Engine :=
  let layers := fold_left (fun m kv => <[fst kv := snd kv]> m) canvases (layerCanvases s) in
  let temp := match tempCanvas s with Some t => t | None => blank 300 150 end in
  let composite := match compositeCanvas s with Some t => t | None => blank 300 150 end in
  updateSize logicalWidth logicalHeight pixelRatio
    (mkEngine layers (Some maskC) (Some temp) (Some composite)
              (patternImage s) (activeLayerId s) (history s) (historyIndex s)).

(** Clamped store into a [Uint8ClampedArray] (of an integer). *)
Definition clampByte (v : Z) : Z := Z.max 0 (Z.min 255 v).

(** The loop of [invertMask] over [imageData.data], four bytes per turn. *)
Fixpoint invertPixels (d : list Z) : list Z :=
  match d with
  | _ :: _ :: _ :: a :: rest => 43 :: 108 :: 176 :: clampByte (255 - a) :: invertPixels rest
  | [_; _; _] => [43; 108; 176]
  | [_; _] => [43; 108]
  | [_] => [43]
  | [] => []
  end.

(** [invertMask]. *)
Definition invertMask (s : Engine) : Engine :=
  match maskCanvas s with
  | Some m =>
      let w := width m in
      let h := height m in
      if (w <=? 0) || (h <=? 0) then s
      else
        let imageData := getImageData m w h in
        let inverted := mkImageData w h (invertPixels (data imageData)) in
        commitHistory (setMask s (Some (putImageData inverted m)))
  | None => s
  end.

(** The alpha bytes of a pixel array. *)
Fixpoint alphaChannel (d : list Z) : list Z :=
  match d with
  | _ :: _ :: _ :: a :: rest => a :: alphaChannel rest
  | _ => []
  end.

(** The paint operations that end in [commitHistory] (a stroke closed by
    [endStroke], the fills, the gradient, [clear]): they draw on the active
    layer when it has a context. *)
Definition paintActiveLayer (paint : nat -> list Z -> Z) (s : Engine) : Engine :=
  match layerCanvases s !! activeLayerId s with
  | Some c => commitHistory (setLayers s (<[activeLayerId s := redraw paint c]> (layerCanvases s)))
  | None => s
  end.

(** The mask operations that end in [commitHistory] ([drawLasso],
    [drawTape], [clearMask]). *)
Definition paintMask (paint : nat -> list Z -> Z) (s : Engine) : Engine :=
  match maskCanvas s with
  | Some m => commitHistory (setMask s (Some (redraw paint m)))
  | None => s
  end.

(** The operations of the engine that touch the rasters or the history. *)
Inductive Op :=
| OpSetActiveLayer (id : string)
| OpPaint (paint : nat -> list Z -> Z)
| OpMask (paint : nat -> list Z -> Z)
| OpInvertMask
| OpUndo
| OpRedo
| OpResize (width height pixelRatio : Z)
| OpInit (canvases : list (string * ImageData)) (maskC : ImageData)
         (logicalWidth logicalHeight pixelRatio : Z).

Definition step (s : Engine) (o : Op) : Engine :=
  match o with
  | OpSetActiveLayer id => setActiveLayerId id s
  | OpPaint paint => paintActiveLayer paint s
  | OpMask paint => paintMask paint s
  | OpInvertMask => invertMask s
  | OpUndo => undo s
  | OpRedo => redo s
  | OpResize w h dpr => updateSize w h dpr s
  | OpInit canvases maskC w h dpr => init canvases maskC w h dpr s
  end.

Definition run (ops : list Op) (s : Engine) : Engine := fold_left step ops s.

End Engine.

(** ** Paper texture ([src/utils/canvasUtils.ts]) *)

Module PaperTexture.
Import Canvas Color.

Local Open Scope float_scope.
#[local] Set Warnings "-inexact-float".

(** [Math.max] of two numbers: NaN is contagious and [+0] is above [-0]. *)
Definition Math_max (x y : float) : float :=
  if is_nan x then x
  else if is_nan y then y
  else if x <? y then y
  else if y <? x then x
  else if get_sign x then y else x.

(** [Math.floor]: the greatest integer not above [x]. A finite [x] is
    [±m·2^e]; when [e < 0] the result is [floor (±m / 2^-e)]. NaN, the
    infinities, the zeros and the numbers that already are integers are
    returned as they are. *)
Definition Math_floor (x : float) : float :=
  match Prim2SF x with
  | S754_finite s mant e =>
      if (0 <=? e)%Z then x
      else
        let v := if s then Z.neg mant else Z.pos mant in
        let n := (v / 2 ^ (- e))%Z in
        if (n =? 0)%Z then PrimFloat.zero else float_of_Z n
  | _ => x
  end.

(** Storing a number in a [Uint8ClampedArray]: NaN becomes 0, the others
    are clamped to [0, 255] and rounded to the nearest integer, ties to the
    even one. *)
Definition toUint8Clamp (x : float) : Z :=
  match Prim2SF x with
  | S754_finite false mant e =>
      let n :=
        if (0 <=? e)%Z then (Z.pos mant * 2 ^ e)%Z
        else
          let floor := (Z.pos mant / 2 ^ (- e))%Z in
          let twice := (2 * (Z.pos mant mod 2 ^ (- e)))%Z in
          if (twice <? 2 ^ (- e))%Z then floor
          else if (2 ^ (- e) <? twice)%Z then (floor + 1)%Z
          else if Z.even floor then floor else (floor + 1)%Z in
      Z.min n 255
  | S754_infinity false => 255%Z
  | _ => 0%Z
  end.

(** [{ visual, heightMap }]. *)
Record Texture := mkTexture { visual : ImageData; heightMap : ImageData }.

Section Sources.

(** [Math.pow], which an engine may compute to any precision it likes. *)
Variable Math_pow : float -> float -> float.

(** The body of the pixel loop of [processPaperTexture]: the number
    [physicsAlpha] from the bytes [r], [g], [b] of the visual pixel, in the
    binary64 arithmetic of the code. *)
Definition physicsAlpha (r g b : Z) : float :=
  let r := float_of_Z r in
  let g := float_of_Z g in
  let b := float_of_Z b in
  let lum := (0.299 * r + 0.587 * g + 0.114 * b) / 255 in
  let rejection := 1.0 - lum in
  let rejection :=
    if rejection <? 0.02 then 0
    else Math_pow rejection 3 * 64.0 in
  let rejection := Math_min 1 (Math_max 0 rejection) in
  Math_floor (rejection * 255).

(** [for (let i = 0; i < length; i += 4)]: the new [vData] and [hData];
    [hData[i + 3] = physicsAlpha] stores into a [Uint8ClampedArray].
    ([ImageData] arrays hold whole pixels, so no bytes are left over.) *)
Fixpoint pixelLoop (vData : list Z) : list Z * list Z :=
  match vData with
  | r :: g :: b :: _ :: rest =>
      let '(vRest, hRest) := pixelLoop rest in
      (r :: g :: b :: 255%Z :: vRest,
       0%Z :: 0%Z :: 0%Z :: toUint8Clamp (physicsAlpha r g b) :: hRest)
  | leftover => (leftover, map (fun _ => 0%Z) leftover)
  end.

(** The visual canvas after [fillRect] in white and [drawImage (img, 0, 0,
    width, height)]: the image scaled to the tile by the browser. *)
Variable drawScaledOnWhite : ImageData -> Z -> Z -> ImageData.

(** The image [createNoiseTexture] paints from [Math.random] (clumps,
    fine tooth, fibres, blur) and loads back from its data URL. *)
Variable proceduralImage : Z -> Z -> ImageData.

(** [processPaperTexture]. *)
Definition processPaperTexture (img : ImageData) (width height : Z) : Texture :=
  if ((width <=? 0) || (height <=? 0))%Z then mkTexture (blank 1 1) (blank 1 1)
  else
    let visualCanvas := drawScaledOnWhite img width height in
    let heightCanvas := blank width height in
    let vImg := getImageData visualCanvas width height in
    let '(vData, hData) := pixelLoop (data vImg) in
    mkTexture (putImageData (mkImageData width height vData) visualCanvas)
              (putImageData (mkImageData width height hData) heightCanvas).

(** [createNoiseTexture] (the value its promise resolves to). *)
Definition createNoiseTexture (width height : Z) : Texture :=
  if ((width <=? 0) || (height <=? 0))%Z then mkTexture (blank 1 1) (blank 1 1)
  else processPaperTexture (proceduralImage width height) width height.

(** The derivation as the specification words it, on the numbers of the
    program: luminance [L = (0.299 R + 0.587 G + 0.114 B) / 255],
    [rejection = 1 - L], zero below 0.02, else cubed and multiplied by 64,
    clamped to [0, 1], scaled to the alpha byte. *)
Definition spec_luminance (R G B : Z) : float :=
  (0.299 * float_of_Z R + 0.587 * float_of_Z G + 0.114 * float_of_Z B) / 255.

Definition spec_clamp01 (x : float) : float := Math_min 1 (Math_max 0 x).

Definition spec_rejection (R G B : Z) : float :=
  let rejection := 1 - spec_luminance R G B in
  let amplified := if rejection <? 0.02 then 0 else Math_pow rejection 3 * 64 in
  spec_clamp01 amplified.

Definition spec_heightPixel (R G B : Z) : list Z :=
  [0; 0; 0; toUint8Clamp (Math_floor (spec_rejection R G B * 255))]%Z.

End Sources.

(** Stand-ins for the examples: the cube by two multiplications, and a
    2 × 1 tile with one white and one mid-grey pixel. *)
Definition cubeByProducts (x _ : float) : float := x * x * x.

Definition demoScaled (_ : ImageData) (w h : Z) : ImageData :=
  mkImageData w h [255; 255; 255; 255; 128; 128; 128; 77]%Z.

Definition demoProcedural (w h : Z) : ImageData := blank w h.

End PaperTexture.

(** ** Brush settings ([src/types.ts]) *)

Module Settings.

Inductive BrushType :=
| flat | hog | round | fan | fan2 | fan3 | chisel | pastel | pastel2.

Definition BrushType_eqb (a b : BrushType) : bool :=
  match a, b with
  | flat, flat | hog, hog | round, round | fan, fan | fan2, fan2
  | fan3, fan3 | chisel, chisel | pastel, pastel | pastel2, pastel2 => true
  | _, _ => false
  end.

(** The fields of [BrushSettings] the embedded code reads. *)
Record BrushSettings := mkBrushSettings {
  brushType : BrushType;
  size : Q;
  opacity : Q;
  color : string;
  wetMode : bool;
  pressureSensitivity : bool;
  autoClean : bool;
  patternScale : Q
}.

(** [a < b] and [a > b] on numbers. *)
Definition Qltb (a b : Q) : bool := negb (Qle_bool b a).

End Settings.

(** ** Pattern stamping ([drawPatternLasso], [drawPatternLine]) *)

Module PatternTools.
Import Canvas Engine Settings.

Local Open Scope Q_scope.

(** [{ x, y }]. *)
Record Point2 := mkPoint2 { px : Q; py : Q }.

(** The bounding box computed by [points.forEach], started at [points[0]]. *)
Record Bounds := mkBounds { minX : Q; maxX : Q; minY : Q; maxY : Q }.

Definition boundsOf (p0 : Point2) (points : list Point2) : Bounds :=
  fold_left
    (fun b p => mkBounds (Qmin (minX b) (px p)) (Qmax (maxX b) (px p))
                         (Qmin (minY b) (py p)) (Qmax (maxY b) (py p)))
    points (mkBounds (px p0) (px p0) (py p0) (py p0)).

(** [cols * rows] of [drawPatternLasso]: the number of tiles the padded
    bounding box asks for. *)
Definition lassoTileCount (settings : BrushSettings) (p0 : Point2) (points : list Point2) : Q :=
  let b := boundsOf p0 points in
  let padding := Qmax 20 (50 * patternScale settings) in
  let minX := minX b - padding in
  let maxX := maxX b + padding in
  let minY := minY b - padding in
  let maxY := maxY b + padding in
  let baseVisualSize := Qmax 15 (50 * patternScale settings) in
  let stepX := baseVisualSize * 0.8 in
  let stepY := baseVisualSize * 0.8 in
  let cols := (maxX - minX) / stepX in
  let rows := (maxY - minY) / stepY in
  cols * rows.

(** [for (let g = start; g < stop; g += step)]: the values [g] takes, at
    most [fuel] of them. *)
Fixpoint gridValues (fuel : nat) (g stop step : Q) : list Q :=
  match fuel with
  | O => []
  | S fuel' => if Qltb g stop then g :: gridValues fuel' (g + step) stop step else []
  end.

(** Turns enough for a loop from [start] to [stop] in steps of [step]. *)
Definition gridFuel (start stop step : Q) : nat :=
  S (Z.to_nat (Qceiling ((stop - start) / step))).

(** The two nested loops of [drawPatternLasso]: where each instance of the
    pattern is stamped ([ctx.translate (gx + stepX / 2, gy + stepY / 2)]),
    in the order of the stamps. *)
Definition lassoStamps (settings : BrushSettings) (p0 : Point2) (points : list Point2)
    : list (Q * Q) :=
  let b := boundsOf p0 points in
  let padding := Qmax 20 (50 * patternScale settings) in
  let minX := minX b - padding in
  let maxX := maxX b + padding in
  let minY := minY b - padding in
  let maxY := maxY b + padding in
  let baseVisualSize := Qmax 15 (50 * patternScale settings) in
  let stepX := baseVisualSize * 0.8 in
  let stepY := baseVisualSize * 0.8 in
  let startGridX := inject_Z (Qfloor (minX / stepX)) * stepX in
  let startGridY := inject_Z (Qfloor (minY / stepY)) * stepY in
  flat_map
    (fun gy =>
       map (fun gx => (gx + stepX / 2, gy + stepY / 2))
           (gridValues (gridFuel startGridX maxX stepX) startGridX maxX stepX))
    (gridValues (gridFuel startGridY maxY stepY) startGridY maxY stepY).

(** [steps] of [drawPatternLine] for a line of the given length. *)
Definition lineSteps (settings : BrushSettings) (length : Q) : Z :=
  let baseVisualSize := Qmax 15 (50 * patternScale settings) in
  let spacing := Qmax 5 (baseVisualSize * 0.5) in
  Qceiling (length / spacing).

Section Rasteriser.

(** [Math.hypot], and what the 2D context leaves on the layer after all the
    stamps of a lasso or of a line were drawn (clipping, jitter, filters,
    texture and mask erasure included): the byte at each index, from the old
    bytes. *)
Variable Math_hypot : Q -> Q -> Q.
Variable stampLasso :
  BrushSettings -> list Point2 -> ImageData -> option ImageData -> nat -> list Z -> Z.
Variable stampLine :
  BrushSettings -> Q -> Q -> Q -> Q -> ImageData -> nat -> list Z -> Z.

(** [drawPatternLasso]. *)
Definition drawPatternLasso (settings : BrushSettings) (points : list Point2)
    (s : Engine) : Engine :=
  match layerCanvases s !! activeLayerId s, patternImage s with
  | Some canvas, Some patternImg =>
      match points with
      | p0 :: _ :: _ :: _ =>
          if Qltb 5000 (lassoTileCount settings p0 points) then s
          else
            commitHistory
              (setLayers s
                 (<[activeLayerId s :=
                      redraw (stampLasso settings points patternImg (maskCanvas s)) canvas]>
                    (layerCanvases s)))
      | _ => s
      end
  | _, _ => s
  end.

(** [drawPatternLine]. *)
Definition drawPatternLine (settings : BrushSettings) (x1 y1 x2 y2 : Q)
    (s : Engine) : Engine :=
  match layerCanvases s !! activeLayerId s, patternImage s with
  | Some canvas, Some patternImg =>
      let dx := x2 - x1 in
      let dy := y2 - y1 in
      let length := Math_hypot dx dy in
      if Qltb length 1 then s
      else
        let steps := lineSteps settings length in
        if (2000 <? steps)%Z then s
        else
          commitHistory
            (setLayers s
               (<[activeLayerId s :=
                    redraw (stampLine settings x1 y1 x2 y2 patternImg) canvas]>
                  (layerCanvases s)))
  | _, _ => s
  end.

End Rasteriser.

(** The pattern image, once loaded. *)
Definition setPatternImage (img : option ImageData) (s : Engine) : Engine :=
  mkEngine (layerCanvases s) (maskCanvas s) (tempCanvas s) (compositeCanvas s)
           img (activeLayerId s) (history s) (historyIndex s).

(** A square root that is exact on the squares of rationals, for the
    examples: [hypotExact 3 4 = 5]. *)
Definition sqrtExact (q : Q) : Q :=
  Z.sqrt (Qnum q * Z.pos (Qden q)) # Qden q.

Definition hypotExact (dx dy : Q) : Q := sqrtExact (Qred (dx * dx + dy * dy)).

Definition demoSettings : BrushSettings :=
  mkBrushSettings round 40 0.9 "#CC3333" false true true 1.

(** A pattern scaled to 0.3, and a lasso whose padded box is 848 × 848. *)
Definition fineSettings : BrushSettings :=
  mkBrushSettings round 40 0.9 "#CC3333" false true true 0.3.

Definition wideLasso : list Point2 :=
  [mkPoint2 20 20; mkPoint2 828 20; mkPoint2 20 828].

Definition demoStampLasso (_ : BrushSettings) (_ : list Point2) (_ : ImageData)
    (_ : option ImageData) (i : nat) (old : list Z) : Z := 77%Z.

Definition demoStampLine (_ : BrushSettings) (_ _ _ _ : Q) (_ : ImageData)
    (i : nat) (old : list Z) : Z := 88%Z.

End PatternTools.

(** ** Bristles and strokes ([updateBristles], [startStroke],
    [drawSegment], [endStroke]) *)

Module Stroke.
Import Settings.

Local Open Scope Q_scope.

(** [ColorRGB]. *)
Record ColorRGB := mkColorRGB { r : Q; g : Q; b : Q }.

(** [Bristle]. *)
Record Bristle := mkBristle {
  dx : Q;
  dy : Q;
  length : Q;
  thickness : Q;
  tempBias : Q;
  hueBias : Q;
  feather : Q;
  drySensitivity : Q;
  color : ColorRGB;
  hasPaint : bool
}.

(** [Point] (the tilt only enters the geometry of the stamps). *)
Record Point := mkPoint { x : Q; y : Q; pressure : Q }.

(** The stroke part of [state.current]. *)
Record StrokeState := mkStrokeState {
  isDrawing : bool;
  lastPoint : Point;
  hasMoved : bool;
  paintLoad : Q;
  bristles : list Bristle
}.

Definition initialStroke : StrokeState :=
  mkStrokeState false (mkPoint 0 0 0.5) false 1 [].

(** [hexToRgb(settings.color)] as a [ColorRGB]. *)
Definition colorOfHex (hex : string) : ColorRGB :=
  let c := Hex.hexToRgb hex in
  mkColorRGB (inject_Z (Hex.r c)) (inject_Z (Hex.g c)) (inject_Z (Hex.b c)).

(** [mixPigmentsFloatInPlace(target, source, t)]: the new value of
    [target], in exact arithmetic (the code's binary64 channels differ from
    these by rounding errors). *)
Definition mixPigmentsFloatInPlace (target source : ColorRGB) (t : Q) : ColorRGB :=
  let c1 := 1 - r target / 255 in
  let m1 := 1 - g target / 255 in
  let y1 := 1 - b target / 255 in
  let k1 := Qmin c1 (Qmin m1 y1) in
  let '(c1, m1, y1) :=
    if Qltb k1 1 then ((c1 - k1) / (1 - k1), (m1 - k1) / (1 - k1), (y1 - k1) / (1 - k1))
    else (0, 0, 0) in
  let c2 := 1 - r source / 255 in
  let m2 := 1 - g source / 255 in
  let y2 := 1 - b source / 255 in
  let k2 := Qmin c2 (Qmin m2 y2) in
  let '(c2, m2, y2) :=
    if Qltb k2 1 then ((c2 - k2) / (1 - k2), (m2 - k2) / (1 - k2), (y2 - k2) / (1 - k2))
    else (0, 0, 0) in
  let c := c1 + (c2 - c1) * t in
  let m := m1 + (m2 - m1) * t in
  let y := y1 + (y2 - y1) * t in
  let k := k1 + (k2 - k1) * t in
  mkColorRGB (255 * (1 - c) * (1 - k)) (255 * (1 - m) * (1 - k)) (255 * (1 - y) * (1 - k)).

(** [startStroke]. *)
Definition startStroke (settings : BrushSettings) (px py ppressure : Q)
    (st : StrokeState) : StrokeState :=
  if autoClean settings then
    let freshColor := colorOfHex (Settings.color settings) in
    let cleaned :=
      map (fun br =>
             if wetMode settings
             then mkBristle (dx br) (dy br) (length br) (thickness br) (tempBias br)
                            (hueBias br) (feather br) (drySensitivity br) (color br) false
             else mkBristle (dx br) (dy br) (length br) (thickness br) (tempBias br)
                            (hueBias br) (feather br) (drySensitivity br) freshColor true)
          (bristles st) in
    mkStrokeState true (mkPoint px py ppressure) false 1 cleaned
  else
    mkStrokeState true (mkPoint px py ppressure) false (Qmax (paintLoad st) 0.5)
                  (bristles st).

(** [endStroke] on the stroke state (its [commitHistory] is the engine's). *)
Definition endStroke (st : StrokeState) : StrokeState :=
  if isDrawing st
  then mkStrokeState false (lastPoint st) (hasMoved st) (paintLoad st) (bristles st)
  else st.

(** What the geometry of one stamp gives to the paint bookkeeping: the
    positional noise [(sin (curX * 0.2) + cos (curY * 0.2)) * 0.1] of the
    dryness test, and the RGBA bytes of the wet-buffer pixel the bristle
    lands on ([None] without a wet buffer or outside of it). *)
Record Sample := mkSample { noise : Q; wetPixel : option (Z * Z * Z * Z) }.

Definition isPastelType (t : BrushType) : bool :=
  match t with pastel | pastel2 => true | _ => false end.

(** One turn of the loop over the bristles, as far as [paintLoad] and the
    bristle's pigment go. *)
Definition stampBristle (settings : BrushSettings) (speedFactor : Q) (smp : Sample)
    (load : Q) (br : Bristle) : Q * Bristle :=
  let dryThreshold := (1 - load) * 0.5 + speedFactor * 0.3 in
  if negb (isPastelType (brushType settings))
     && Qltb (drySensitivity br) (dryThreshold + noise smp)
  then (load, br)
  else
    match wetPixel smp with
    | Some (er, eg, eb, ea) =>
        if wetMode settings && (20 <? ea)%Z then
          let existingColor := mkColorRGB (inject_Z er) (inject_Z eg) (inject_Z eb) in
          if negb (hasPaint br) then
            (Qmax load 0.5,
             mkBristle (dx br) (dy br) (length br) (thickness br) (tempBias br)
                       (hueBias br) (feather br) (drySensitivity br) existingColor true)
          else
            (Qmin 1 (load + 0.05),
             mkBristle (dx br) (dy br) (length br) (thickness br) (tempBias br)
                       (hueBias br) (feather br) (drySensitivity br)
                       (mixPigmentsFloatInPlace (color br) existingColor 0.1) (hasPaint br))
        else (load, br)
    | None => (load, br)
    end.

(** [for (let b = 0; b < bristles.length; b++)]. *)
Fixpoint bristleLoop (settings : BrushSettings) (speedFactor : Q)
    (samples : nat -> Sample) (bIndex : nat) (load : Q) (bs : list Bristle)
    : Q * list Bristle :=
  match bs with
  | [] => (load, [])
  | br :: rest =>
      let '(load1, br1) := stampBristle settings speedFactor (samples bIndex) load br in
      let '(load2, rest') := bristleLoop settings speedFactor samples (S bIndex) load1 rest in
      (load2, br1 :: rest')
  end.

(** [for (let c = 0; c < instanceCount; c++)]. *)
Fixpoint instanceLoop (settings : BrushSettings) (speedFactor : Q)
    (samples : nat -> nat -> Sample) (count cIndex : nat) (load : Q) (bs : list Bristle)
    : Q * list Bristle :=
  match count with
  | O => (load, bs)
  | S count' =>
      let '(load1, bs1) := bristleLoop settings speedFactor (samples cIndex) 0 load bs in
      instanceLoop settings speedFactor samples count' (S cIndex) load1 bs1
  end.

(** The depletion of one interpolation step. *)
Definition depletion (settings : BrushSettings) (speedFactor stepSize load : Q) : Q :=
  let depletionRate := if wetMode settings then 0.0001 else 0.0003 in
  let depletionRate :=
    if wetMode settings && Qltb load 0.5 then 0.00005 else depletionRate in
  let depletionRate :=
    if isPastelType (brushType settings) && negb (wetMode settings) then 0
    else depletionRate in
  depletionRate * (1 + speedFactor * 3) * stepSize.

(** [for (let i = 0; i <= steps; i++)]. *)
Fixpoint stepLoop (settings : BrushSettings) (speedFactor stepSize : Q)
    (samples : nat -> nat -> nat -> Sample) (count iIndex : nat)
    (load : Q) (bs : list Bristle) : Q * list Bristle :=
  match count with
  | O => (load, bs)
  | S count' =>
      let load1 := Qmax 0 (load - depletion settings speedFactor stepSize load) in
      let instanceCount := if isPastelType (brushType settings) then 2%nat else 1%nat in
      let '(load2, bs2) :=
        instanceLoop settings speedFactor (samples iIndex) instanceCount 0 load1 bs in
      stepLoop settings speedFactor stepSize samples count' (S iIndex) load2 bs2
  end.

(** [stepSize] of [drawSegment]. *)
Definition stepSizeOf (settings : BrushSettings) (lastPressure ppressure : Q) : Q :=
  let baseSize := size settings in
  let spacingFactor := 0.08 in
  let spacingFactor :=
    if pressureSensitivity settings
    then spacingFactor * Qmax 0.15 (Qmin lastPressure ppressure)
    else spacingFactor in
  let stepSize := Qmax 1.5 (baseSize * spacingFactor) in
  let stepSize :=
    if BrushType_eqb (brushType settings) pastel then Qmax 1.5 (baseSize * 0.22)
    else stepSize in
  if BrushType_eqb (brushType settings) pastel2 then Qmax 1.5 (baseSize * 0.25)
  else stepSize.

Section Geometry.

Variable Math_hypot : Q -> Q -> Q.

(** [drawSegment], as far as the stroke state goes. [hasContexts] says that
    the active layer and the scratch canvas have their contexts; [samples]
    is what the stamps of this segment meet (step, instance, bristle). *)
Definition drawSegment (settings : BrushSettings) (hasContexts : bool)
    (samples : nat -> nat -> nat -> Sample) (px py ppressure : Q)
    (st : StrokeState) : StrokeState :=
  if negb (isDrawing st) || negb hasContexts then st
  else
    let dist := Math_hypot (px - x (lastPoint st)) (py - y (lastPoint st)) in
    let stepSize := stepSizeOf settings (pressure (lastPoint st)) ppressure in
    if Qltb dist stepSize && hasMoved st then st
    else
      let steps := Qceiling (dist / stepSize) in
      let moved := if Qltb 4 dist then true else hasMoved st in
      let speed := dist in
      let speedFactor := Qmin (speed / 15) 1 in
      let '(load, bs) :=
        stepLoop settings speedFactor stepSize samples (Z.to_nat (steps + 1)) 0
                 (paintLoad st) (bristles st) in
      mkStrokeState (isDrawing st) (mkPoint px py ppressure) moved load bs.

(** The operations on the stroke state. *)
Inductive StrokeOp :=
| OpStartStroke (settings : BrushSettings) (px py ppressure : Q)
| OpDrawSegment (settings : BrushSettings) (hasContexts : bool)
                (samples : nat -> nat -> nat -> Sample) (px py ppressure : Q)
| OpEndStroke
| OpSetBristles (bs : list Bristle).

Definition strokeStep (st : StrokeState) (o : StrokeOp) : StrokeState :=
  match o with
  | OpStartStroke settings px py pp => startStroke settings px py pp st
  | OpDrawSegment settings ctx samples px py pp =>
      drawSegment settings ctx samples px py pp st
  | OpEndStroke => endStroke st
  | OpSetBristles bs =>
      mkStrokeState (isDrawing st) (lastPoint st) (hasMoved st) (paintLoad st) bs
  end.

Definition runStroke (ops : list StrokeOp) (st : StrokeState) : StrokeState :=
  fold_left strokeStep ops st.

End Geometry.

End Stroke.

(** ** Bristle generation ([updateBristles]) *)

Module Bristles.
Import Settings Stroke.

Local Open Scope Q_scope.

(** Computations that call [Math.random()]: the state is the number of
    calls made so far. *)
Definition Rand (A : Type) : Type := nat -> A * nat.

Definition ret {A} (a : A) : Rand A := fun n => (a, n).

Definition bind {A B} (c : Rand A) (k : A -> Rand B) : Rand B :=
  fun n => let '(a, n') := c n in k a n'.

Notation "'roll' x '<-' c ';;' k" := (bind c (fun x => k))
  (at level 10, x name, c at level 99, k at level 200).

(** [Math.sign]. *)
Definition Math_sign (v : Q) : Q :=
  if Qltb 0 v then 1 else if Qltb v 0 then -1 else 0.

(** [newBristles.sort((a, b) => a.dy - b.dy)]: ascending in [dy], stable. *)
Fixpoint insertByDy (br : Bristle) (sorted : list Bristle) : list Bristle :=
  match sorted with
  | [] => [br]
  | hd :: tl => if Qltb (dy br) (dy hd) then br :: sorted else hd :: insertByDy br tl
  end.

Definition sortByDy (bs : list Bristle) : list Bristle :=
  fold_left (fun sorted br => insertByDy br sorted) bs [].

(** The per-type multiplier of the particle count. *)
Definition countMultiplier (type : BrushType) : Q :=
  match type with fan3 => 3.5 | _ => 1.5 end.

Section Generator.

(** The generator draws from [Math.random] and uses [Math.cos], [Math.sin],
    [Math.pow], [Math.sqrt], [Math.hypot] and [Math.PI]; the pastel types
    end with a sort under a random comparator, whose outcome is up to the
    JavaScript engine. *)
Variable Math_random : nat -> Q.
Variables Math_cos Math_sin Math_sqrt : Q -> Q.
Variables Math_pow Math_hypot : Q -> Q -> Q.
Variable Math_PI : Q.
Variable randomSort : list Bristle -> Rand (list Bristle).

Definition random : Rand Q := fun n => (Math_random n, S n).

(** The geometry [dx, dy, length, thickness] of candidate [i], or [None]
    where the loop body hits [continue]. *)
Definition candidate (type : BrushType) (i bristleCount : Z)
    : Rand (option (Q * Q * Q * Q)) :=
  match type with
  | round =>
      roll u <- random ;;
      let r := Math_pow u 0.5 * 0.5 in
      roll v <- random ;;
      let theta := v * Math_PI * 2 in
      ret (Some (r * Math_cos theta, r * Math_sin theta * 0.5, 1, 1 - r))
  | fan =>
      roll u <- random ;; roll v <- random ;; roll w <- random ;;
      ret (Some ((u - 0.5) * 1.2, (v - 0.5) * 0.1, 0.8 + w * 0.4, 1))
  | fan2 =>
      roll u <- random ;;
      let t := (u - 0.5) * 2.5 in
      roll culled <- (if Qltb 0.2 (Qabs t)
                 then (roll c <- random ;; ret (Qltb c 0.4))
                 else ret false) ;;
      if (culled : bool) then ret None
      else
        roll v <- random ;; roll w <- random ;; roll z <- random ;;
        ret (Some (t, (v - 0.5) * 0.1, 0.7 + w * 0.5, 0.5 + z * 0.8))
  | fan3 =>
      roll u0 <- random ;;
      let u := (u0 - 0.5) * 2 in
      let t := Math_sign u * Math_pow (Qabs u) 3 in
      roll v <- random ;; roll w <- random ;; roll z <- random ;;
      ret (Some (t * 1.1, (v - 0.5) * 0.2, 0.6 + w * 0.6, 0.4 + z * 0.6))
  | hog =>
      roll u <- random ;; roll v <- random ;; roll w <- random ;;
      ret (Some ((u - 0.5) * 0.8, (v - 0.5) * 0.4, 0.5 + w * 1.0, 1))
  | chisel =>
      ret (Some (inject_Z i / inject_Z bristleCount - 0.5, 0, 1, 1.5))
  | _ =>
      roll v <- random ;;
      ret (Some (inject_Z i / inject_Z bristleCount - 0.5, (v - 0.5) * 0.1, 1, 1))
  end.

(** [newBristles.push({ ... })] of the non-pastel branch. *)
Definition pushBristle (baseColor : ColorRGB) (startWithPaint : bool)
    (geometry : Q * Q * Q * Q) : Rand Bristle :=
  let '(dx, dy, length, thickness) := geometry in
  roll a <- random ;; roll b <- random ;; roll c <- random ;; roll d <- random ;;
  roll e <- random ;; roll f <- random ;; roll g <- random ;;
  ret (mkBristle dx dy (length * (0.9 + a * 0.2)) (thickness * (0.8 + b * 0.4))
                 ((c - 0.5) + (d - 0.5)) ((e - 0.5) * 2) ((f - 0.5) * 0.5) g
                 baseColor startWithPaint).

(** [for (let i = 0; i < bristleCount; i++)]: [todo] turns are left, the
    next candidate is [i]. *)
Fixpoint bristleCandidates (type : BrushType) (baseColor : ColorRGB)
    (startWithPaint : bool) (bristleCount : Z) (todo : nat) (i : Z)
    : Rand (list Bristle) :=
  match todo with
  | O => ret []
  | S todo' =>
      roll geometry <- candidate type i bristleCount ;;
      match geometry with
      | Some geo =>
          roll br <- pushBristle baseColor startWithPaint geo ;;
          roll rest <- bristleCandidates type baseColor startWithPaint bristleCount todo' (i + 1) ;;
          ret (br :: rest)
      | None =>
          bristleCandidates type baseColor startWithPaint bristleCount todo' (i + 1)
      end
  end.

(** The voids of the pastel branch. *)
Fixpoint pastelVoids (todo : nat) : Rand (list (Q * Q * Q)) :=
  match todo with
  | O => ret []
  | S todo' =>
      roll u <- random ;; roll v <- random ;; roll w <- random ;;
      roll rest <- pastelVoids todo' ;;
      ret (((u - 0.5) * 1.0, (v - 0.5) * 1.0, 0.15 + w * 0.25) :: rest)
  end.

(** The particles of the pastel branch. *)
Fixpoint pastelParticles (baseColor : ColorRGB) (voids : list (Q * Q * Q)) (todo : nat)
    : Rand (list Bristle) :=
  match todo with
  | O => ret []
  | S todo' =>
      roll u <- random ;;
      let theta := u * Math_PI * 2 in
      roll v <- random ;;
      let r := Math_sqrt v in
      let px := r * Math_cos theta in
      let py := r * Math_sin theta in
      if existsb (fun vd => let '(vx, vy, vr) := vd in Qltb (Math_hypot (px - vx) (py - vy)) vr)
                 voids
      then pastelParticles baseColor voids todo'
      else
        roll a <- random ;; roll b <- random ;; roll c <- random ;; roll d <- random ;;
        roll rest <- pastelParticles baseColor voids todo' ;;
        ret (mkBristle px py 0.1 (0.5 + a * 2.5) ((b - 0.5) * 1.0) ((c - 0.5) * 1.5)
                       0 d baseColor true :: rest)
  end.

(** [updateBristles(type, size)]: the new [state.current.bristles]. *)
Definition updateBristles (settings : BrushSettings) (type : BrushType) (size : Q)
    : Rand (list Bristle) :=
  let baseColor := colorOfHex (Settings.color settings) in
  let startWithPaint := negb (wetMode settings) in
  if isPastelType type then
    roll u <- random ;;
    let numVoids := (3 + Qfloor (u * 3))%Z in
    roll voids <- pastelVoids (Z.to_nat numVoids) ;;
    roll newBristles <- pastelParticles baseColor voids 60 ;;
    randomSort newBristles
  else
    let bristleCount := Qfloor (size * countMultiplier type) in
    roll newBristles <- bristleCandidates type baseColor startWithPaint bristleCount
                     (Z.to_nat bristleCount) 0 ;;
    ret (sortByDy newBristles).

End Generator.

(** Stand-ins for the examples: constant draws, crude [cos], [sin]. *)
Definition constRandom (v : Q) (_ : nat) : Q := v.
Definition demoCos (_ : Q) : Q := 1.
Definition demoSin (_ : Q) : Q := 0.
Definition demoPow (v e : Q) : Q := if Qeq_bool e 3 then v * v * v else v.
Definition demoSort (bs : list Bristle) : Rand (list Bristle) := ret bs.

Definition demoBristlesOf (draw : Q) (type : BrushType) (size : Q) : list Bristle :=
  fst (updateBristles (constRandom draw) demoCos demoSin (fun v => v) demoPow
         PatternTools.hypotExact (355 # 113) demoSort
         (mkBrushSettings type size 0.9 "#CC3333" false true true 1) type size 0%nat).

End Bristles.

(** ** The stroke of the end-to-end scenario *)

Module StrokeDemo.
Import Settings Stroke.

Local Open Scope Q_scope.

Definition demoBristles : list Bristle :=
  [mkBristle (-0.2) 0 1 1 0 0 0 0.9 (mkColorRGB 204 51 51) true;
   mkBristle 0.1 0.05 1 0.8 0.1 0 0 0.4 (mkColorRGB 204 51 51) true].

(** No wet buffer, no positional noise. *)
Definition drySamples (_ _ _ : nat) : Sample := mkSample 0 None.

(** The first bristle of the first stamp lands on an opaque blue pixel. *)
Definition wetSamples (i c b : nat) : Sample :=
  match i, c, b with
  | O, O, O => mkSample 0 (Some (0, 0, 255, 255)%Z)
  | _, _, _ => mkSample 0 None
  end.

Definition drySettings : BrushSettings :=
  mkBrushSettings round 40 0.9 "#CC3333" false true true 1.

Definition wetSettings : BrushSettings :=
  mkBrushSettings round 40 0.9 "#CC3333" true true false 1.

(** A horizontal stroke from (50, 256) to (450, 256). *)
Definition demoStrokeOps : list (StrokeOp) :=
  [OpSetBristles demoBristles;
   OpStartStroke drySettings 50 256 0.5;
   OpDrawSegment drySettings true drySamples 450 256 0.5;
   OpEndStroke].

End StrokeDemo.

(** ** Invariants of the engine state *)

Module Invariants.
Import Canvas Engine.

Local Open Scope Z_scope.

(** The state of the history that every operation keeps: the index is on an
    entry (or is [-1] on an empty history), at most 20 entries, at most
    [MAX_HISTORY_BYTES] bytes. *)
Definition historyInvariant (s : Engine) : Prop :=
  -1 <= historyIndex s <= Z.of_nat (length (history s)) - 1 /\
  (length (history s) <= 20)%nat /\
  historyBytes (history s) <= MAX_HISTORY_BYTES.

(** A raster of the common pixel size [W × H]. *)
Definition sized (W H : Z) (c : ImageData) : Prop :=
  wellFormed c /\ width c = W /\ height c = H.

(** All canvases and all snapshots have the common size, the active layer
    has a canvas, and the index is on the newest entry. *)
Definition sizedState (W H : Z) (s : Engine) : Prop :=
  (forall id c, layerCanvases s !! id = Some c -> sized W H c) /\
  (exists m, maskCanvas s = Some m /\ sized W H m) /\
  is_Some (layerCanvases s !! activeLayerId s) /\
  Forall (fun e => sized W H (painting e) /\ sized W H (mask e)) (history s) /\
  historyIndex s = Z.of_nat (length (history s)) - 1.

(** The newest entry and the one before it. *)
Definition newest (l : list HistoryState) : option HistoryState :=
  entryAt l (Z.of_nat (length l) - 1).

Definition previous (l : list HistoryState) : option HistoryState :=
  entryAt l (Z.of_nat (length l) - 2).

(** The newest entry records what the canvases show. *)
Definition newestRecorded (s : Engine) : Prop :=
  forall top, newest (history s) = Some top ->
    layerCanvases s !! layerId top = Some (painting top) /\
    maskCanvas s = Some (mask top).

(** The layer of the entry before the newest still shows what that entry
    recorded, unless it is the layer of the newest entry. *)
Definition previousKept (s : Engine) : Prop :=
  forall prev top,
    previous (history s) = Some prev -> newest (history s) = Some top ->
    layerId prev = layerId top \/
    layerCanvases s !! layerId prev = Some (painting prev).

(** Between a drawing and its [commitHistory]: the layer of the newest
    entry is the active one or is untouched. *)
Definition newestKept (s : Engine) : Prop :=
  forall top, newest (history s) = Some top ->
    layerId top = activeLayerId s \/
    layerCanvases s !! layerId top = Some (painting top).

(** Every drawing has been committed. *)
Definition committed (W H : Z) (s : Engine) : Prop :=
  sizedState W H s /\ newestRecorded s /\ previousKept s.

(** The operations that commit what they draw, and the switch to a layer
    that has a canvas. *)
Definition isCommitOp (ids : list string) (o : Op) : bool :=
  match o with
  | OpSetActiveLayer id => existsb (String.eqb id) ids
  | OpPaint _ | OpMask _ | OpInvertMask => true
  | OpUndo | OpRedo | OpResize _ _ _ | OpInit _ _ _ _ _ => false
  end.

(** The engine after the canvases were resized by [updateSize], before the
    history is dealt with. *)
Definition resizedEngine (newWidth newHeight : Z) (s : Engine) : Engine :=
  mkEngine (fst <$> (safeResize newWidth newHeight <$> layerCanvases s))
           (fst <$> (safeResize newWidth newHeight <$> maskCanvas s))
           (fst <$> (safeResize newWidth newHeight <$> tempCanvas s))
           (fst <$> (safeResize newWidth newHeight <$> compositeCanvas s))
           (patternImage s) (activeLayerId s) (history s) (historyIndex s).

(** A resize to [newWidth × newHeight] changes the pixel dimensions of the
    mask canvas or of some layer canvas. *)
Definition hasSize (newWidth newHeight : Z) (c : ImageData) : bool :=
  (width c =? newWidth) && (height c =? newHeight).

Definition changesSize (newWidth newHeight : Z) (s : Engine) : bool :=
  from_option (fun m => negb (hasSize newWidth newHeight m)) false (maskCanvas s)
  || existsb (fun kv => negb (hasSize newWidth newHeight (snd kv)))
             (map_to_list (layerCanvases s)).

(** The same, said without the traversal. *)
Definition someCanvasDiffers (newWidth newHeight : Z) (s : Engine) : Prop :=
  (exists m, maskCanvas s = Some m /\ (width m <> newWidth \/ height m <> newHeight)) \/
  (exists id c, layerCanvases s !! id = Some c /\
                (width c <> newWidth \/ height c <> newHeight)).

(** A 2 × 2 engine right after [init]. *)
Definition smallEngine : Engine :=
  init [("layer-1"%string, blank 3 2)] (blank 3 2) 2 2 1 initialEngine.

(** The 2 × 2 engine with a pattern image loaded. *)
Definition patternEngine : Engine :=
  PatternTools.setPatternImage (Some (blank 1 1)) smallEngine.

(** A small session: two layers of 3 × 2 pixels handed to [init], resized
    to 2 × 2, then strokes on both layers and mask edits. *)
Definition demoCanvases : list (string * ImageData) :=
  [("layer-1"%string, blank 3 2); ("layer-2"%string, blank 3 2)].

Definition demoMask : ImageData := blank 3 2.

Definition demoOps : list Op :=
  [OpPaint (fun i _ => Z.of_nat i);
   OpSetActiveLayer "layer-2";
   OpPaint (fun i d => nth i d 0 + 200);
   OpMask (fun i _ => if (i mod 4 =? 3)%nat then 255 else 0);
   OpInvertMask;
   OpSetActiveLayer "layer-1";
   OpPaint (fun _ _ => 9)].

Definition demoEngine : Engine :=
  run demoOps (init demoCanvases demoMask 2 2 1 initialEngine).

End Invariants.

(** ** Numbers as text: [rgbToString] of [src/utils/color.ts] and the
    [parseColor] that reads it back in the canvas component *)

Module Text.
Import Hex.

Local Open Scope Z_scope.

(** The digit characters of a decimal numeral. *)
Definition decDigit (d : Z) : ascii :=
  match d with
  | 0 => "0" | 1 => "1" | 2 => "2" | 3 => "3" | 4 => "4"
  | 5 => "5" | 6 => "6" | 7 => "7" | 8 => "8" | _ => "9"
  end%char.

(** Base-10 digits of a non-negative integer, most significant first. The
    fuel bounds the number of digits. *)
Fixpoint decDigits (fuel : nat) (n : Z) : list ascii :=
  match fuel with
  | O => []
  | S fuel' =>
      if n <? 10 then [decDigit n]
      else decDigits fuel' (n / 10) ++ [decDigit (n mod 10)]
  end.

(** [`${n}`] for an integer [n] (below [10^21] in absolute value, where
    JavaScript prints all the digits); [S (log2 |n|)] digits always
    suffice. *)
Definition toString10 (n : Z) : string :=
  let digits := decDigits (S (Z.to_nat (Z.log2 (Z.abs n)))) (Z.abs n) in
  string_of_list_ascii (if n <? 0 then "-"%char :: digits else digits).

(** [rgbToString]: [`rgb(${c.r}, ${c.g}, ${c.b})`]. *)
Definition rgbToString (c : RGB) : string :=
  String.append "rgb("
    (String.append (toString10 (r c))
       (String.append ", "
          (String.append (toString10 (g c))
             (String.append ", " (String.append (toString10 (b c)) ")"))))).

(** The character class [\d]. *)
Definition isDigit (ch : ascii) : bool :=
  let n := Z.of_N (N_of_ascii ch) in (48 <=? n) && (n <=? 57).

(** [str.match(/\d+/g)]: the maximal runs of digits, from left to right;
    [cur] is the run being read. ([match] gives [null] where this gives the
    empty list; the caller treats both alike.) *)
Fixpoint digitRuns (cur : list ascii) (s : list ascii) : list (list ascii) :=
  match s with
  | [] => match cur with [] => [] | _ => [cur] end
  | ch :: rest =>
      if isDigit ch then digitRuns (cur ++ [ch]) rest
      else
        match cur with
        | [] => digitRuns [] rest
        | _ => cur :: digitRuns [] rest
        end
  end.

(** [Number(m)] on a run of digits (exact below [2^53]). *)
Definition Number10 (digits : list ascii) : Z :=
  fold_left (fun acc ch => 10 * acc + (Z.of_N (N_of_ascii ch) - 48)) digits 0.

(** [parseColor] of the canvas component. *)
Definition parseColor (str : string) : RGB :=
  match str with
  | EmptyString => mkRGB 0 0 0
  | String "#" _ => hexToRgb str
  | _ =>
      match digitRuns [] (list_ascii_of_string str) with
      | m0 :: m1 :: m2 :: _ => mkRGB (Number10 m0) (Number10 m1) (Number10 m2)
      | _ => mkRGB 0 0 0
      end
  end.

(** [ch.toLowerCase()] on an ASCII character, to say what [rgbToHex]
    prints for the digits [hexToRgb] has read. *)
Definition toLowerCase (ch : ascii) : ascii :=
  let n := Z.of_N (N_of_ascii ch) in
  if (65 <=? n) && (n <=? 90) then ascii_of_N (Z.to_N (n + 32)) else ch.

End Text.

(** A stand-in for the scaled image on the visual canvas: every byte 200,
    transparent or not, on a canvas of the size asked for. *)
Module PaperDemo.
Import Canvas.

Definition demoScaledGrey (_ : ImageData) (w h : Z) : ImageData :=
  mkImageData w h (repeat 200 (Z.to_nat (4 * w * h))).

End PaperDemo.

(** ** The layer list, [clear], [clearMask] and [pickColor]
    ([src/hooks/useGouacheEngine.ts]) *)

Module Layers.
Import Canvas Engine.

Local Open Scope Z_scope.

(** [Layer] of [src/types.ts]. *)
Record Layer := mkLayer {
  id : string;
  name : string;
  visible : bool;
  ignoreGlow : bool
}.

(** The React state [layers] beside the engine. The engine's
    [activeLayerId] stands for the state [activeLayerId] and for
    [activeLayerIdRef], which an effect sets to the state after each
    render. *)
Record Hook := mkHook { layers : list Layer; engine : Engine }.

Definition initialHook : Hook :=
  mkHook [mkLayer "layer-1" "Layer 1" true false] initialEngine.

Definition layerIds (h : Hook) : list string := map id (layers h).

(** [addLayer]; [now] is what [Date.now()] returns. *)
Definition addLayer (now : Z) (h : Hook) : Hook :=
  let newId := String.append "layer-" (Text.toString10 now) in
  let newName :=
    String.append "Layer " (Text.toString10 (Z.of_nat (length (layers h)) + 1)) in
  mkHook (layers h ++ [mkLayer newId newName true false])
         (setActiveLayerId newId (engine h)).

(** [removeLayer]: the list keeps its last layer; the canvas and the
    context registered under [id] are deleted in any case. *)
Definition removeLayer (rid : string) (h : Hook) : Hook :=
  let prev := layers h in
  let active := activeLayerId (engine h) in
  let unregistered := setLayers (engine h) (delete rid (layerCanvases (engine h))) in
  if (length prev <=? 1)%nat then mkHook prev unregistered
  else
    let newLayers := List.filter (fun l => negb (String.eqb (id l) rid)) prev in
    let active' :=
      if String.eqb active rid then
        match last newLayers with
        | Some l => id l
        | None => active
        end
      else active in
    mkHook newLayers (setActiveLayerId active' unregistered).

(** The effect that follows [layers] and [activeLayerId]: an active id that
    names no layer is replaced by the id of the last layer. *)
Definition ensureActiveLayer (h : Hook) : Hook :=
  if existsb (fun l => String.eqb (id l) (activeLayerId (engine h))) (layers h) then h
  else
    match last (layers h) with
    | Some l => mkHook (layers h) (setActiveLayerId (id l) (engine h))
    | None => h
    end.

(** [toggleLayerVisibility] and [toggleLayerGlow]. *)
Definition toggleLayerVisibility (tid : string) (h : Hook) : Hook :=
  mkHook
    (map (fun l => if String.eqb (id l) tid
                   then mkLayer (id l) (name l) (negb (visible l)) (ignoreGlow l)
                   else l) (layers h))
    (engine h).

Definition toggleLayerGlow (tid : string) (h : Hook) : Hook :=
  mkHook
    (map (fun l => if String.eqb (id l) tid
                   then mkLayer (id l) (name l) (visible l) (negb (ignoreGlow l))
                   else l) (layers h))
    (engine h).

(** [clear]: [clearCanvas] on the active canvas, then [commitHistory]. *)
Definition clear (s : Engine) : Engine :=
  match layerCanvases s !! activeLayerId s with
  | Some activeCanvas =>
      commitHistory
        (setLayers s (<[activeLayerId s := clearCanvas activeCanvas]> (layerCanvases s)))
  | None => s
  end.

(** [clearMask]. *)
Definition clearMask (s : Engine) : Engine :=
  match maskCanvas s with
  | Some m => commitHistory (setMask s (Some (clearCanvas m)))
  | None => s
  end.

(** The loop of [pickColor] over the layers, topmost first: [None] when it
    runs to its end, [Some result] when it returns [result] ([null] for a
    canvas of width 0). The pixel is read with
    [getImageData (floor (x * dpr), floor (y * dpr), 1, 1)], which gives
    transparent black outside the canvas. *)
Fixpoint pickLayer (topDown : list Layer) (px py : Z) (s : Engine)
    : option (option string) :=
  match topDown with
  | [] => None
  | layer :: below =>
      if negb (visible layer) then pickLayer below px py s
      else
        match layerCanvases s !! id layer with
        | Some c =>
            if width c =? 0 then Some None
            else
              match pixelAt c px py with
              | [r; g; b; a] =>
                  if 0 <? a then Some (Some (Hex.rgbToHex r g b))
                  else pickLayer below px py s
              | _ => pickLayer below px py s
              end
        | None => pickLayer below px py s
        end
  end.

(** [pickColor]; [sampleSkyRGB] is the colour of the procedural sky at the
    point, when there is one. *)
Definition pickColor (skyEnabled : bool) (sampleSkyRGB : Q -> Q -> option Hex.RGB)
    (canvasColor : string) (pixelRatio : Z) (x y : Q) (h : Hook) : option string :=
  match pickLayer (rev (layers h))
          (Qfloor (x * inject_Z pixelRatio)) (Qfloor (y * inject_Z pixelRatio))
          (engine h) with
  | Some result => result
  | None =>
      if skyEnabled then
        match sampleSkyRGB x y with
        | Some skyRgb => Some (Hex.rgbToHex (Hex.r skyRgb) (Hex.g skyRgb) (Hex.b skyRgb))
        | None => Some canvasColor
        end
      else Some canvasColor
  end.

(** What the layer operations keep: some layer is listed, no id is listed
    twice, and the active id names a listed layer. *)
Definition layersInvariant (h : Hook) : Prop :=
  layers h <> [] /\ NoDup (layerIds h) /\ In (activeLayerId (engine h)) (layerIds h).

(** A layer through which [pickColor] looks at pixel [(px, py)]: it is
    hidden, or has no canvas registered, or its canvas (of non-zero width)
    is fully transparent there. *)
Definition seenThrough (px py : Z) (s : Engine) (layer : Layer) : Prop :=
  visible layer = false \/
  layerCanvases s !! id layer = None \/
  exists c, layerCanvases s !! id layer = Some c /\ width c <> 0 /\
            nth 3 (pixelAt c px py) 0 <= 0.

(** The engine operations other than [init]. *)
Definition isNotInit (o : Op) : bool :=
  match o with
  | OpInit _ _ _ _ _ => false
  | _ => true
  end.

(** A two-layer hook for the examples: [demoEngine] with its two layers
    listed, the upper one hidden or shown. *)
Definition demoHook (upperVisible : bool) : Hook :=
  mkHook [mkLayer "layer-1" "Layer 1" true false;
          mkLayer "layer-2" "Layer 2" upperVisible false]
         Invariants.demoEngine.

(** The two newest entries of the history of [demoEngine]: the inverted
    mask committed with layer 2 active, then the stroke on layer 1. *)
Definition demoMaskData : list Z :=
  flat_map (fun _ => [43; 108; 176; 0]) (seq 0 4).

Definition demoPrevious : HistoryState :=
  mkHistoryState "layer-2" (mkImageData 2 2 (repeat 200 16)) (mkImageData 2 2 demoMaskData).

Definition demoNewest : HistoryState :=
  mkHistoryState "layer-1" (mkImageData 2 2 (repeat 9 16)) (mkImageData 2 2 demoMaskData).

End Layers.

(** ** Mask and fill tools ([drawLasso], [drawTape], [drawLassoFill],
    [drawRectLassoFill], [drawGradBlendLasso], [drawStippleLasso]) *)

Module SelectionTools.
Import Canvas Engine Settings PatternTools.

Local Open Scope Q_scope.

Section Rasteriser.

(** [Math.hypot], and what the 2D context leaves on the mask or on the
    active layer once a tool has drawn (path filling, dithering, wet
    blending, texture and mask erasure, compositing of the scratch canvas):
    the byte at each index, from the old bytes. The engine is handed to the
    fills because they read the mask, the texture and the other layers. *)
Variable Math_hypot : Q -> Q -> Q.
Variable maskLasso : BrushSettings -> list Point2 -> nat -> list Z -> Z.
Variable maskTape : BrushSettings -> Q -> Q -> Q -> Q -> nat -> list Z -> Z.
Variable fillLasso : BrushSettings -> list Point2 -> Engine -> nat -> list Z -> Z.
Variable fillRect : BrushSettings -> Point2 -> Point2 -> Engine -> nat -> list Z -> Z.
Variable fillGradBlend : BrushSettings -> list Point2 -> Engine -> nat -> list Z -> Z.
Variable fillStipple : BrushSettings -> list Point2 -> Engine -> nat -> list Z -> Z.

(** [drawLasso]: fills the lasso on the mask. *)
Definition drawLasso (settings : BrushSettings) (points : list Point2) (s : Engine) : Engine :=
  match maskCanvas s, points with
  | Some _, _ :: _ :: _ :: _ => paintMask (maskLasso settings points) s
  | _, _ => s
  end.

(** [drawTape]: a strip of masking tape from [(x1, y1)] to [(x2, y2)]. *)
Definition drawTape (settings : BrushSettings) (x1 y1 x2 y2 : Q) (s : Engine) : Engine :=
  match maskCanvas s with
  | Some _ =>
      let dx := x2 - x1 in
      let dy := y2 - y1 in
      let len := Math_hypot dx dy in
      if Qltb len 1 then s
      else paintMask (maskTape settings x1 y1 x2 y2) s
  | None => s
  end.

(** [drawLassoFill]. *)
Definition drawLassoFill (settings : BrushSettings) (pixelRatio : Z)
    (points : list Point2) (s : Engine) : Engine :=
  match layerCanvases s !! activeLayerId s, tempCanvas s, points with
  | Some _, Some _, p0 :: _ :: _ :: _ =>
      let dpr := inject_Z pixelRatio in
      let b := boundsOf p0 points in
      let boundsW := (maxX b - minX b) * dpr in
      let boundsH := (maxY b - minY b) * dpr in
      if Qltb boundsW 1 || Qltb boundsH 1 then s
      else paintActiveLayer (fillLasso settings points s) s
  | _, _, _ => s
  end.

(** [drawRectLassoFill]. *)
Definition drawRectLassoFill (settings : BrushSettings) (p1 p2 : Point2) (s : Engine)
    : Engine :=
  match layerCanvases s !! activeLayerId s, tempCanvas s with
  | Some _, Some _ =>
      let w := Qabs (px p2 - px p1) in
      let h := Qabs (py p2 - py p1) in
      if Qltb w 1 || Qltb h 1 then s
      else paintActiveLayer (fillRect settings p1 p2 s) s
  | _, _ => s
  end.

(** [drawGradBlendLasso]. *)
Definition drawGradBlendLasso (settings : BrushSettings) (pixelRatio : Z)
    (points : list Point2) (s : Engine) : Engine :=
  match layerCanvases s !! activeLayerId s, tempCanvas s, points with
  | Some _, Some _, p0 :: _ :: _ :: _ =>
      let dpr := inject_Z pixelRatio in
      let b := boundsOf p0 points in
      let w := (maxX b - minX b) * dpr in
      let h := (maxY b - minY b) * dpr in
      if Qltb w 1 || Qltb h 1 then s
      else
        let bw := Qceiling ((maxX b - minX b) * dpr) in
        let bh := Qceiling ((maxY b - minY b) * dpr) in
        if ((bw <=? 0) || (bh <=? 0))%Z then s
        else paintActiveLayer (fillGradBlend settings points s) s
  | _, _, _ => s
  end.

(** [drawStippleLasso]: no test on the extent of the lasso. *)
Definition drawStippleLasso (settings : BrushSettings) (points : list Point2) (s : Engine)
    : Engine :=
  match layerCanvases s !! activeLayerId s, tempCanvas s, points with
  | Some _, Some _, _ :: _ :: _ :: _ => paintActiveLayer (fillStipple settings points s) s
  | _, _, _ => s
  end.

End Rasteriser.

(** Stand-ins for the examples. *)
Definition demoMaskLasso (_ : BrushSettings) (_ : list Point2) (i : nat) (old : list Z) : Z :=
  if (i mod 4 =? 3)%nat then 255%Z else nth i old 0%Z.

Definition demoMaskTape (_ : BrushSettings) (_ _ _ _ : Q) (i : nat) (old : list Z) : Z :=
  if (i mod 4 =? 3)%nat then 255%Z else nth i old 0%Z.

Definition demoFill (_ : BrushSettings) (_ : list Point2) (_ : Engine) (i : nat)
    (old : list Z) : Z := 120%Z.

Definition demoFillRect (_ : BrushSettings) (_ _ : Point2) (_ : Engine) (i : nat)
    (old : list Z) : Z := 130%Z.

End SelectionTools.

(** ** What a stroke keeps of its bristles *)

Module StrokeInvariants.
Import Settings Stroke.

Local Open Scope Q_scope.

(** A colour whose channels are within the range of a byte. *)
Definition inGamut (c : ColorRGB) : Prop :=
  0 <= r c <= 255 /\ 0 <= g c <= 255 /\ 0 <= b c <= 255.

(** Two bristles of the same geometry and temperament. *)
Definition sameShape (a b : Bristle) : Prop :=
  dx a = dx b /\ dy a = dy b /\ length a = length b /\ thickness a = thickness b /\
  tempBias a = tempBias b /\ hueBias a = hueBias b /\ feather a = feather b /\
  drySensitivity a = drySensitivity b.

(** The wet buffer is the [data] of an [ImageData]: its entries are bytes. *)
Definition byteSample (smp : Sample) : Prop :=
  match wetPixel smp with
  | Some (er, eg, eb, ea) =>
      (0 <= er <= 255)%Z /\ (0 <= eg <= 255)%Z /\ (0 <= eb <= 255)%Z
  | None => True
  end.

(** [new] is what stamping can make of [old]. *)
Definition keepsBristle (old new : Bristle) : Prop :=
  sameShape old new /\
  (inGamut (color old) -> inGamut (color new)) /\
  (hasPaint old = true -> hasPaint new = true).

(** A pastel stick in dry mode and a stroke that is under way. *)
Definition pastelSettings : BrushSettings :=
  mkBrushSettings pastel 40 0.9 "#CC3333" false true true 1.

Definition strokeUnderWay (load : Q) (bs : list Bristle) : StrokeState :=
  mkStrokeState true (mkPoint 50 256 0.5) false load bs.

End StrokeInvariants.

(** ** What [updateBristles] promises of the bristles it makes *)

Module BristleInvariants.
Import Settings Stroke Bristles.

Local Open Scope Q_scope.

(** No bristle lies above (has a smaller [dy] than) an earlier one. *)
Fixpoint ascendingDy (bs : list Bristle) : Prop :=
  match bs with
  | [] => True
  | br :: rest => Forall (fun other => dy br <= dy other) rest /\ ascendingDy rest
  end.

(** A comparator that ignores its arguments: [sort] may leave the bristles
    in any order, here the reversed one. *)
Definition reversingSort (bs : list Bristle) : Rand (list Bristle) :=
  fun n => (rev bs, (n + List.length bs)%nat).

Definition pastelBristlesOf (draw : Q) (size : Q) : list Bristle :=
  fst (updateBristles (constRandom draw) demoCos demoSin (fun v => v) demoPow
         PatternTools.hypotExact (355 # 113) reversingSort
         (mkBrushSettings pastel size 0.9 "#CC3333" true true true 1) pastel size 0%nat).

End BristleInvariants.

(** ** Properties of the colour mixer *)

Module ColorFacts.
Import Color.
Local Open Scope float_scope.

Example Math_round_half_up : Math_round 127.5 = 128 /\ Math_round (-127.5) = -127.
Proof. split; reflexivity. Qed.

Example Math_round_small : Math_round 0.25 = 0 /\ Math_round 2.75 = 3 /\ Math_round 255 = 255.
Proof. repeat split; reflexivity. Qed.

Example rgbToCmyk_black : rgbToCmyk 0 0 0 = mkCMYK 0 0 0 1.
Proof. reflexivity. Qed.

Example rgbToCmyk_cyan : rgbToCmyk 0 255 255 = mkCMYK 1 0 0 0.
Proof. reflexivity. Qed.

Example lerpColor_cyan_yellow : lerpColor cyan yellow 0.5 = mkRGB 128 255 128.
Proof. reflexivity. Qed.

Example mixPigmentsFloat_cyan_yellow :
  mixPigmentsFloat cyan yellow 0.5 = mkRGB 127.5 255 127.5.
Proof. reflexivity. Qed.

(** C1. [mixPigments] is the CMYK interpolation the specification describes,
    and mixing pure cyan with pure yellow at [t = 0.5] gives the colour
    (128, 255, 128): its green channel is strictly above both its red and
    its blue channel. *)
Theorem mixPigments_cyan_yellow_is_green :
  (forall c1 c2 t, mixPigments c1 c2 t = spec_mixPigments c1 c2 t) /\
  mixPigments cyan yellow 0.5 = mkRGB 128 255 128 /\
  (r (mixPigments cyan yellow 0.5) <? g (mixPigments cyan yellow 0.5)) = true /\
  (b (mixPigments cyan yellow 0.5) <? g (mixPigments cyan yellow 0.5)) = true.
Proof.
  split; [intros; reflexivity|].
  repeat split; vm_compute; reflexivity.
Qed.

End ColorFacts.

(** ** The hex round trip *)

Module HexFacts.
Import Hex.
Local Open Scope Z_scope.

Example rgbToHex_orange : rgbToHex 204 51 51 = "#cc3333"%string.
Proof. reflexivity. Qed.

Example hexToRgb_upper : hexToRgb "CC3333" = mkRGB 204 51 51.
Proof. reflexivity. Qed.

Example hexToRgb_malformed : hexToRgb "#12345" = mkRGB 0 0 0.
Proof. reflexivity. Qed.

Lemma shl_small (a n : Z) :
  0 <= a < 256 -> 0 <= n <= 16 -> shl a n = a * 2 ^ n.
Proof.
  intros Ha Hn. unfold shl, toInt32.
  rewrite (Z.mod_small n 32) by lia.
  rewrite (Z.mod_small (a + 2 ^ 31)) by lia.
  replace (a + 2 ^ 31 - 2 ^ 31) with a by lia.
  rewrite Z.shiftl_mul_pow2 by lia.
  assert (0 < 2 ^ n <= 2 ^ 16) by (split; [apply Z.pow_pos_nonneg; lia | apply Z.pow_le_mono_r; lia]).
  rewrite Z.mod_small by nia. lia.
Qed.

Lemma shl_1_24 : shl 1 24 = 16777216.
Proof. reflexivity. Qed.

Lemma hexDigits_snoc (fuel : nat) (n d : Z) :
  0 < n -> 0 <= d < 16 ->
  hexDigits (S fuel) (16 * n + d) = hexDigits fuel n ++ [hexDigit d].
Proof.
  intros Hn Hd. cbn [hexDigits].
  destruct (Z.ltb_spec (16 * n + d) 16) as [Hlt|_]; [lia|].
  replace ((16 * n + d) / 16) with n by (apply Z.div_unique with d; lia).
  replace ((16 * n + d) mod 16) with d by (apply Z.mod_unique with n; lia).
  reflexivity.
Qed.

Lemma hexDigit_is_hex (d : Z) : 0 <= d < 16 -> isHexDigit (hexDigit d) = true.
Proof.
  intros Hd.
  assert (Hc : d = 0 \/ d = 1 \/ d = 2 \/ d = 3 \/ d = 4 \/ d = 5 \/ d = 6 \/ d = 7 \/
               d = 8 \/ d = 9 \/ d = 10 \/ d = 11 \/ d = 12 \/ d = 13 \/ d = 14 \/ d = 15) by lia.
  repeat (destruct Hc as [->|Hc]; [reflexivity|]). subst d. reflexivity.
Qed.

Lemma hexVal_hexDigit (d : Z) : 0 <= d < 16 -> hexVal (hexDigit d) = d.
Proof.
  intros Hd.
  assert (Hc : d = 0 \/ d = 1 \/ d = 2 \/ d = 3 \/ d = 4 \/ d = 5 \/ d = 6 \/ d = 7 \/
               d = 8 \/ d = 9 \/ d = 10 \/ d = 11 \/ d = 12 \/ d = 13 \/ d = 14 \/ d = 15) by lia.
  repeat (destruct Hc as [->|Hc]; [reflexivity|]). subst d. reflexivity.
Qed.

(** The seven digits of [2^24 + r·2^16 + g·2^8 + b]. *)
Lemma toString16_packed (r g b : Z) :
  0 <= r < 256 -> 0 <= g < 256 -> 0 <= b < 256 ->
  toString16 (16777216 + r * 2 ^ 16 + g * 2 ^ 8 + b) =
  string_of_list_ascii
    ["1"%char; hexDigit (r / 16); hexDigit (r mod 16); hexDigit (g / 16);
     hexDigit (g mod 16); hexDigit (b / 16); hexDigit (b mod 16)].
Proof.
  intros Hr Hg Hb.
  pose proof (Z.div_mod r 16 ltac:(lia)) as Er.
  pose proof (Z.div_mod g 16 ltac:(lia)) as Eg.
  pose proof (Z.div_mod b 16 ltac:(lia)) as Eb.
  pose proof (Z.mod_pos_bound r 16 ltac:(lia)).
  pose proof (Z.mod_pos_bound g 16 ltac:(lia)).
  pose proof (Z.mod_pos_bound b 16 ltac:(lia)).
  assert (0 <= r / 16 < 16) by (split; [apply Z.div_pos; lia | apply Z.div_lt_upper_bound; lia]).
  assert (0 <= g / 16 < 16) by (split; [apply Z.div_pos; lia | apply Z.div_lt_upper_bound; lia]).
  assert (0 <= b / 16 < 16) by (split; [apply Z.div_pos; lia | apply Z.div_lt_upper_bound; lia]).
  set (n := 16777216 + r * 2 ^ 16 + g * 2 ^ 8 + b).
  assert (Hn : 2 ^ 24 <= n < 2 ^ 25) by (subst n; lia).
  assert (Hlog : Z.log2 n = 24) by (apply Z.log2_unique; lia).
  unfold toString16.
  rewrite Z.abs_eq by lia. rewrite Hlog.
  destruct (Z.ltb_spec n 0) as [?|_]; [lia|].
  f_equal.
  replace n with
    (16 * (16 * (16 * (16 * (16 * (16 * 1 + r / 16) + r mod 16) + g / 16) + g mod 16)
           + b / 16) + b mod 16) by (subst n; lia).
  change (S (Z.to_nat 24)) with (S (S (S (S (S (S 19)))))).
  repeat (rewrite hexDigits_snoc by lia).
  reflexivity.
Qed.

(** C8. For integer channels in [0, 255], parsing the string [rgbToHex]
    prints gives back exactly the triple that was printed. *)
Theorem hexToRgb_rgbToHex (r g b : Z) :
  0 <= r <= 255 -> 0 <= g <= 255 -> 0 <= b <= 255 ->
  hexToRgb (rgbToHex r g b) = mkRGB r g b.
Proof.
  intros Hr Hg Hb.
  unfold rgbToHex.
  rewrite shl_1_24, !shl_small by lia.
  rewrite toString16_packed by lia.
  pose proof (Z.mod_pos_bound r 16 ltac:(lia)).
  pose proof (Z.mod_pos_bound g 16 ltac:(lia)).
  pose proof (Z.mod_pos_bound b 16 ltac:(lia)).
  assert (0 <= r / 16 < 16) by (split; [apply Z.div_pos; lia | apply Z.div_lt_upper_bound; lia]).
  assert (0 <= g / 16 < 16) by (split; [apply Z.div_pos; lia | apply Z.div_lt_upper_bound; lia]).
  assert (0 <= b / 16 < 16) by (split; [apply Z.div_pos; lia | apply Z.div_lt_upper_bound; lia]).
  cbn [string_of_list_ascii slice1].
  unfold hexToRgb, hexRegexExec.
  cbn [list_ascii_of_string forallb].
  rewrite !hexDigit_is_hex by lia.
  cbn [andb parseInt16 fold_left].
  rewrite !hexVal_hexDigit by lia.
  pose proof (Z.div_mod r 16 ltac:(lia)).
  pose proof (Z.div_mod g 16 ltac:(lia)).
  pose proof (Z.div_mod b 16 ltac:(lia)).
  f_equal; lia.
Qed.

(** The round trip on the brush colour of the end-to-end scenario. *)
Lemma hexToRgb_rgbToHex_witness : hexToRgb (rgbToHex 204 51 51) = mkRGB 204 51 51.
Proof. apply (hexToRgb_rgbToHex 204 51 51); lia. Defined.

End HexFacts.

(** ** Facts about rasters *)

Module CanvasFacts.
Import Canvas.
Local Open Scope Z_scope.

Lemma flat_map_length_const {A B} (f : A -> list B) (n : nat) (l : list A) :
  (forall x, length (f x) = n) -> length (flat_map f l) = (n * length l)%nat.
Proof.
  intros Hf. induction l as [|x l IH]; cbn [flat_map]; [rewrite Nat.mul_0_r; reflexivity|].
  rewrite length_app, IH, Hf. cbn [length]. lia.
Qed.

Lemma flat_map_ext_on {A B} (f g : A -> list B) (l : list A) :
  (forall x, In x l -> f x = g x) -> flat_map f l = flat_map g l.
Proof.
  induction l as [|x l IH]; intros H; cbn [flat_map]; [reflexivity|].
  rewrite (H x) by (left; reflexivity).
  rewrite IH by (intros y Hy; apply H; right; exact Hy). reflexivity.
Qed.

Lemma pixelAt_length (c : ImageData) (x y : Z) : length (pixelAt c x y) = 4%nat.
Proof. unfold pixelAt. destruct (_ && _); reflexivity. Qed.

Lemma getImageData_length (c : ImageData) (w h : Z) :
  0 <= w -> 0 <= h ->
  Z.of_nat (length (data (getImageData c w h))) = 4 * w * h.
Proof.
  intros Hw Hh. cbn [getImageData data].
  rewrite (flat_map_length_const _ 4) by (intros; apply pixelAt_length).
  rewrite length_seqZ. nia.
Qed.

Lemma getImageData_wellFormed (c : ImageData) (w h : Z) :
  0 <= w -> 0 <= h -> wellFormed (getImageData c w h).
Proof.
  intros Hw Hh. repeat split; [exact Hw | exact Hh|].
  apply getImageData_length; assumption.
Qed.

Lemma putImageData_wellFormed (img c : ImageData) :
  0 <= width c -> 0 <= height c -> wellFormed (putImageData img c).
Proof.
  intros Hw Hh. repeat split; [exact Hw | exact Hh|].
  cbn [putImageData data width height].
  rewrite (flat_map_length_const _ 4).
  - rewrite length_seqZ. nia.
  - intros i. cbv zeta. destruct (_ && _); apply pixelAt_length.
Qed.

Lemma blank_wellFormed (w h : Z) : 0 <= w -> 0 <= h -> wellFormed (blank w h).
Proof.
  intros Hw Hh. repeat split; [exact Hw | exact Hh|].
  cbn [blank data width height]. rewrite repeat_length. nia.
Qed.

Lemma redraw_wellFormed (paint : nat -> list Z -> Z) (c : ImageData) :
  wellFormed c -> wellFormed (redraw paint c).
Proof.
  intros (Hw & Hh & Hl). repeat split; [exact Hw | exact Hh|].
  cbn [redraw data width height]. rewrite length_map, length_seq. exact Hl.
Qed.

(** Reading a byte list four at a time gives the list back. *)
Lemma quads_of_data (n : nat) (d : list Z) :
  length d = (4 * n)%nat ->
  flat_map (fun i : nat =>
              [nth (4 * i) d 0; nth (4 * i + 1) d 0; nth (4 * i + 2) d 0; nth (4 * i + 3) d 0])
           (seq 0 n) = d.
Proof.
  revert d. induction n as [|n IH]; intros d Hd.
  - destruct d; [reflexivity | discriminate].
  - destruct d as [|a [|b [|c [|e d']]]]; cbn [length] in Hd; try lia.
    cbn [seq flat_map]. change (4 * 0)%nat with 0%nat. cbn [nth Nat.add app].
    do 4 f_equal.
    rewrite <- seq_shift, flat_map_concat_map, map_map, <- flat_map_concat_map.
    etransitivity; [|apply (IH d'); lia].
    apply flat_map_ext. intros i.
    replace (4 * S i)%nat with (S (S (S (S (4 * i))))) by lia.
    cbn [Nat.add nth]. reflexivity.
Qed.

(** Inside the raster, pixel [i mod w, i / w] is the [i]-th quadruple. *)
Lemma pixelAt_row_major (c : ImageData) (i : nat) :
  0 < width c -> Z.of_nat i < width c * height c ->
  pixelAt c (Z.of_nat i mod width c) (Z.of_nat i / width c) =
  [nth (4 * i) (data c) 0; nth (4 * i + 1) (data c) 0;
   nth (4 * i + 2) (data c) 0; nth (4 * i + 3) (data c) 0].
Proof.
  intros Hw Hi. unfold pixelAt.
  pose proof (Z.mod_pos_bound (Z.of_nat i) (width c) Hw) as Hm.
  pose proof (Z.div_mod (Z.of_nat i) (width c) ltac:(lia)) as Hdm.
  assert (Hd0 : 0 <= Z.of_nat i / width c) by (apply Z.div_pos; lia).
  assert (Hd1 : Z.of_nat i / width c < height c)
    by (apply Z.div_lt_upper_bound; [lia | nia]).
  replace ((0 <=? Z.of_nat i mod width c) && (Z.of_nat i mod width c <? width c) &&
           (0 <=? Z.of_nat i / width c) && (Z.of_nat i / width c <? height c)) with true
    by (symmetry; rewrite !andb_true_iff, !Z.leb_le, !Z.ltb_lt; lia).
  cbv zeta.
  replace (4 * (Z.of_nat i / width c * width c + Z.of_nat i mod width c))
    with (Z.of_nat (4 * i)) by lia.
  unfold byteAt.
  replace (Z.to_nat (Z.of_nat (4 * i) + 1)) with (4 * i + 1)%nat by lia.
  replace (Z.to_nat (Z.of_nat (4 * i) + 2)) with (4 * i + 2)%nat by lia.
  replace (Z.to_nat (Z.of_nat (4 * i) + 3)) with (4 * i + 3)%nat by lia.
  rewrite Nat2Z.id. reflexivity.
Qed.

Lemma flat_map_seqZ {B} (f : Z -> list B) (n : Z) :
  flat_map f (seqZ 0 n) = flat_map (fun i : nat => f (Z.of_nat i)) (seq 0 (Z.to_nat n)).
Proof.
  unfold seqZ. rewrite flat_map_concat_map, map_map, <- flat_map_concat_map.
  apply flat_map_ext. intros i. f_equal. lia.
Qed.

(** Reading the whole canvas returns its pixels. *)
Lemma getImageData_full (c : ImageData) :
  wellFormed c -> getImageData c (width c) (height c) = c.
Proof.
  intros (Hw & Hh & Hl). destruct c as [w h d]; cbn [width height data] in *.
  unfold getImageData. f_equal. cbn [width height data].
  rewrite flat_map_seqZ.
  etransitivity; [|apply (quads_of_data (Z.to_nat (w * h)) d); nia].
  apply flat_map_ext_on. intros i Hi%in_seq.
  assert (0 < w) by nia.
  apply (pixelAt_row_major (mkImageData w h d) i); cbn [width height]; lia.
Qed.

(** Writing an image of the canvas's own size replaces every pixel. *)
Lemma putImageData_same_size (img c : ImageData) :
  wellFormed img -> width img = width c -> height img = height c ->
  putImageData img c = img.
Proof.
  intros (Hw & Hh & Hl) Ew Eh. destruct img as [w h d]; cbn [width height data] in *.
  unfold putImageData. rewrite <- Ew, <- Eh. f_equal. cbn [width height data].
  rewrite flat_map_seqZ.
  etransitivity; [|apply (quads_of_data (Z.to_nat (w * h)) d); nia].
  apply flat_map_ext_on. intros i Hi%in_seq.
  assert (0 < w) by nia.
  pose proof (Z.mod_pos_bound (Z.of_nat i) w ltac:(lia)).
  assert (Z.of_nat i / w < h) by (apply Z.div_lt_upper_bound; [lia | nia]).
  replace ((Z.of_nat i mod w <? w) && (Z.of_nat i / w <? h)) with true
    by (symmetry; rewrite andb_true_iff, !Z.ltb_lt; lia).
  apply (pixelAt_row_major (mkImageData w h d) i); cbn [width height]; lia.
Qed.

End CanvasFacts.

(** ** The undo history *)

Module HistoryFacts.
Import Canvas Engine Invariants CanvasFacts.
Local Open Scope Z_scope.

Lemma entryBytes_nonneg (e : HistoryState) : 0 <= entryBytes e.
Proof. unfold entryBytes. lia. Qed.

Lemma fold_bytes_shift (l : list HistoryState) (a : Z) :
  fold_left (fun acc h => acc + entryBytes h) l a = a + historyBytes l.
Proof.
  unfold historyBytes. revert a.
  induction l as [|e l IH]; intros a; cbn [fold_left]; [lia|].
  rewrite (IH (a + entryBytes e)), (IH (0 + entryBytes e)). lia.
Qed.

Lemma historyBytes_cons (e : HistoryState) (l : list HistoryState) :
  historyBytes (e :: l) = entryBytes e + historyBytes l.
Proof. unfold historyBytes at 1. cbn [fold_left]. rewrite fold_bytes_shift. lia. Qed.

Lemma historyBytes_nonneg (l : list HistoryState) : 0 <= historyBytes l.
Proof.
  induction l as [|e l IH]; [reflexivity|].
  rewrite historyBytes_cons. pose proof (entryBytes_nonneg e). lia.
Qed.

Lemma historyBytes_tail (l : list HistoryState) : historyBytes (tail l) <= historyBytes l.
Proof.
  destruct l as [|e l]; [reflexivity|]. cbn [tail].
  rewrite historyBytes_cons. pose proof (entryBytes_nonneg e). lia.
Qed.

Lemma tail_drop {A} (k : nat) (l : list A) : tail (drop k l) = drop (S k) l.
Proof.
  revert l. induction k as [|k IH]; intros l.
  - destruct l; reflexivity.
  - destruct l as [|x l]; [reflexivity|]. cbn [drop]. apply IH.
Qed.

(** The eviction loop removes a prefix: the oldest entries, in order, and
    stops as soon as the rest fits the budget (or nothing is left). *)
Lemma evictBytes_spec (hist : list HistoryState) (idx : Z) :
  exists k : nat,
    (k <= length hist)%nat /\
    evictBytes hist idx (historyBytes hist) = (drop k hist, idx - Z.of_nat k) /\
    historyBytes (drop k hist) <= MAX_HISTORY_BYTES.
Proof.
  revert idx. induction hist as [|e hist IH]; intros idx.
  - exists 0%nat. cbn. repeat split; [lia | f_equal; lia | discriminate].
  - cbn [evictBytes].
    destruct (Z.ltb_spec MAX_HISTORY_BYTES (historyBytes (e :: hist))) as [Hover|Hfit].
    + rewrite historyBytes_cons.
      replace (entryBytes e + historyBytes hist - entryBytes e) with (historyBytes hist) by lia.
      destruct (IH (idx - 1)) as (k & Hk & Hev & Hb).
      exists (S k). cbn [drop length]. repeat split; [lia | | exact Hb].
      rewrite Hev. f_equal. lia.
    + exists 0%nat. cbn [drop]. repeat split; [lia | f_equal; lia | exact Hfit].
Qed.

Lemma spliceFrom_take (idx : Z) (l : list HistoryState) :
  -1 <= idx ->
  (if idx <? Z.of_nat (length l) - 1 then spliceFrom (idx + 1) l else l)
  = take (Z.to_nat (idx + 1)) l.
Proof.
  intros Hidx. destruct (Z.ltb_spec idx (Z.of_nat (length l) - 1)) as [Hlt|Hge].
  - unfold spliceFrom. destruct (Z.ltb_spec (idx + 1) 0); [lia|].
    f_equal. lia.
  - symmetry. apply take_ge. lia.
Qed.

(** [commitHistory] past its guards: the entries after the index are cut,
    the snapshot is appended, and a prefix of the result is evicted. Whatever
    the state before, the byte budget holds afterwards and the index is on
    the newest entry. *)
Lemma commitHistory_spec (s : Engine) (snap : HistoryState) :
  snapshot s = Some snap ->
  -1 <= historyIndex s ->
  exists k : nat,
    history (commitHistory s) =
      drop k (take (Z.to_nat (historyIndex s + 1)) (history s) ++ [snap]) /\
    historyIndex (commitHistory s) = historyIndex s + 1 - Z.of_nat k /\
    historyBytes (history (commitHistory s)) <= MAX_HISTORY_BYTES /\
    (k <= S (length (take (Z.to_nat (historyIndex s + 1)) (history s))))%nat /\
    ((length (take (Z.to_nat (historyIndex s + 1)) (history s)) <= 20)%nat ->
     (length (history (commitHistory s)) <= 20)%nat) /\
    layerCanvases (commitHistory s) = layerCanvases s /\
    maskCanvas (commitHistory s) = maskCanvas s /\
    activeLayerId (commitHistory s) = activeLayerId s.
Proof.
  unfold snapshot, commitHistory. intros Hsnap Hidx.
  destruct (layerCanvases s !! activeLayerId s) as [c|]; [|discriminate].
  destruct (maskCanvas s) as [m|] eqn:Em; [|discriminate].
  destruct ((width c <=? 0) || (height c <=? 0)); [discriminate|].
  injection Hsnap as <-.
  rewrite spliceFrom_take by exact Hidx.
  set (snap := mkHistoryState _ _ _).
  set (hist2 := take _ _ ++ [snap]).
  destruct (evictBytes_spec hist2 (historyIndex s + 1)) as (k & Hk & Hev & Hb).
  rewrite Hev.
  assert (Hlen2 : length hist2 = S (length (take (Z.to_nat (historyIndex s + 1)) (history s))))
    by (subst hist2; rewrite length_app; cbn [length]; lia).
  destruct (Nat.ltb_spec 20 (length (drop k hist2))) as [Hbig|Hsmall].
  - exists (S k). cbn [history historyIndex setHistory layerCanvases maskCanvas activeLayerId].
    rewrite length_drop in Hbig.
    repeat split; try reflexivity.
    + apply tail_drop.
    + lia.
    + etransitivity; [apply historyBytes_tail | exact Hb].
    + lia.
    + intros Hlt. destruct (drop k hist2) eqn:Ed; cbn [tail length] in *; [lia|].
      assert (length (drop k hist2) = S (length l)) by (rewrite Ed; reflexivity).
      rewrite length_drop in *. lia.
    + exact Em.
  - exists k. cbn [history historyIndex setHistory layerCanvases maskCanvas activeLayerId].
    repeat split; try reflexivity; try assumption; lia.
Qed.

Lemma commitHistory_no_snapshot (s : Engine) :
  snapshot s = None -> commitHistory s = s.
Proof.
  unfold snapshot, commitHistory. intros H.
  destruct (layerCanvases s !! activeLayerId s) as [c|]; [|reflexivity].
  destruct (maskCanvas s) as [m|]; [|reflexivity].
  destruct ((width c <=? 0) || (height c <=? 0)); [reflexivity | discriminate].
Qed.

Lemma historyInvariant_reset (s : Engine) : historyInvariant (setHistory s [] (-1)).
Proof. repeat split; cbn; try lia. discriminate. Qed.

Lemma commitHistory_invariant (s : Engine) :
  historyInvariant s -> historyInvariant (commitHistory s).
Proof.
  intros (Hidx & Hlen & Hbytes).
  destruct (snapshot s) as [snap|] eqn:Esnap.
  - destruct (commitHistory_spec s snap Esnap ltac:(lia))
      as (k & Hh & Hi & Hb & Hk & Hl & _).
    assert (Htake : length (take (Z.to_nat (historyIndex s + 1)) (history s))
                    = Z.to_nat (historyIndex s + 1)) by (rewrite length_take; lia).
    repeat split.
    + rewrite Hi. lia.
    + rewrite Hh, Hi, length_drop, length_app, Htake. cbn [length]. lia.
    + apply Hl. rewrite Htake. lia.
    + exact Hb.
  - rewrite commitHistory_no_snapshot by exact Esnap. repeat split; assumption || lia.
Qed.

Lemma restore_history (e : option HistoryState) (s : Engine) :
  history (restore e s) = history s /\ historyIndex (restore e s) = historyIndex s.
Proof. destruct e; split; reflexivity. Qed.

Lemma undo_invariant (s : Engine) : historyInvariant s -> historyInvariant (undo s).
Proof.
  intros (Hidx & Hlen & Hbytes). unfold undo.
  destruct (Z.leb_spec (historyIndex s) 0); cbn [orb]; [repeat split; assumption || lia|].
  destruct (negb _); [repeat split; assumption || lia|].
  unfold historyInvariant.
  destruct (restore_history (entryAt (history s) (historyIndex s - 1))
              (setHistory s (history s) (historyIndex s - 1))) as [-> ->].
  cbn [history historyIndex setHistory]. repeat split; assumption || lia.
Qed.

Lemma redo_invariant (s : Engine) : historyInvariant s -> historyInvariant (redo s).
Proof.
  intros (Hidx & Hlen & Hbytes). unfold redo.
  destruct (Z.leb_spec (Z.of_nat (length (history s)) - 1) (historyIndex s)); cbn [orb];
    [repeat split; assumption || lia|].
  destruct (negb _); [repeat split; assumption || lia|].
  unfold historyInvariant.
  destruct (restore_history (entryAt (history s) (historyIndex s + 1))
              (setHistory s (history s) (historyIndex s + 1))) as [-> ->].
  cbn [history historyIndex setHistory]. repeat split; assumption || lia.
Qed.

Lemma updateSize_invariant (w h dpr : Z) (s : Engine) :
  historyInvariant s -> historyInvariant (updateSize w h dpr s).
Proof.
  intros Hs. unfold updateSize.
  destruct ((w * dpr <=? 0) || (h * dpr <=? 0)); [exact Hs|].
  cbv zeta.
  destruct (_ || _).
  - apply commitHistory_invariant, historyInvariant_reset.
  - destruct (_ =? _)%nat; [apply commitHistory_invariant|]; exact Hs.
Qed.

Lemma invertMask_invariant (s : Engine) :
  historyInvariant s -> historyInvariant (invertMask s).
Proof.
  intros Hs. unfold invertMask.
  destruct (maskCanvas s) as [m|]; [|exact Hs].
  destruct (_ || _); [exact Hs|].
  apply commitHistory_invariant. exact Hs.
Qed.

Lemma step_invariant (s : Engine) (o : Op) :
  historyInvariant s -> historyInvariant (step s o).
Proof.
  intros Hs. destruct o; cbn [step].
  - exact Hs.
  - unfold paintActiveLayer. destruct (_ !! _); [apply commitHistory_invariant|]; exact Hs.
  - unfold paintMask. destruct (maskCanvas s); [apply commitHistory_invariant|]; exact Hs.
  - apply invertMask_invariant, Hs.
  - apply undo_invariant, Hs.
  - apply redo_invariant, Hs.
  - apply updateSize_invariant, Hs.
  - unfold init. apply updateSize_invariant. exact Hs.
Qed.

Lemma run_invariant (ops : list Op) (s : Engine) :
  historyInvariant s -> historyInvariant (run ops s).
Proof.
  revert s. induction ops as [|o ops IH]; intros s Hs; [exact Hs|].
  apply IH, step_invariant, Hs.
Qed.

Lemma initialEngine_invariant : historyInvariant initialEngine.
Proof. repeat split; cbn; try lia. discriminate. Qed.

Lemma historyBytes_app (l1 l2 : list HistoryState) :
  historyBytes (l1 ++ l2) = historyBytes l1 + historyBytes l2.
Proof.
  induction l1 as [|e l1 IH]; [reflexivity|].
  cbn [app]. rewrite !historyBytes_cons, IH. lia.
Qed.

(** The eviction loop with its stopping rule: it removes the oldest entries
    one by one, each of them only because the entries still held were over
    the budget, and it leaves what then fits. *)
Lemma evictBytes_least (hist : list HistoryState) (idx : Z) :
  exists k : nat,
    (k <= length hist)%nat /\
    evictBytes hist idx (historyBytes hist) = (drop k hist, idx - Z.of_nat k) /\
    historyBytes (drop k hist) <= MAX_HISTORY_BYTES /\
    (forall j, (j < k)%nat -> MAX_HISTORY_BYTES < historyBytes (drop j hist)).
Proof.
  revert idx. induction hist as [|e hist IH]; intros idx.
  - exists 0%nat. cbn. repeat split; [lia | f_equal; lia | discriminate | lia].
  - cbn [evictBytes].
    destruct (Z.ltb_spec MAX_HISTORY_BYTES (historyBytes (e :: hist))) as [Hover|Hfit].
    + rewrite historyBytes_cons.
      replace (entryBytes e + historyBytes hist - entryBytes e) with (historyBytes hist) by lia.
      destruct (IH (idx - 1)) as (k & Hk & Hev & Hb & Hmin).
      exists (S k). cbn [drop length]. repeat split; [lia | | exact Hb |].
      * rewrite Hev. f_equal. lia.
      * intros [|j] Hj; [exact Hover|]. cbn [drop]. apply Hmin. lia.
    + exists 0%nat. cbn [drop]. repeat split; [lia | f_equal; lia | exact Hfit | lia].
Qed.

(** [commitHistory] past its guards, with the number of evicted entries
    pinned down: the entries after the index are cut, the snapshot is
    appended, and the oldest entries are removed one at a time, each one
    because what was still held exceeded the budget or counted more than 20
    entries. *)
Lemma commitHistory_least (s : Engine) (snap : HistoryState) :
  snapshot s = Some snap ->
  -1 <= historyIndex s ->
  let appended := take (Z.to_nat (historyIndex s + 1)) (history s) ++ [snap] in
  exists k : nat,
    (k <= length appended)%nat /\
    history (commitHistory s) = drop k appended /\
    historyIndex (commitHistory s) = historyIndex s + 1 - Z.of_nat k /\
    historyBytes (drop k appended) <= MAX_HISTORY_BYTES /\
    (forall j, (j < k)%nat ->
       MAX_HISTORY_BYTES < historyBytes (drop j appended) \/
       (20 < length (drop j appended))%nat).
Proof.
  unfold snapshot, commitHistory. intros Hsnap Hidx.
  destruct (layerCanvases s !! activeLayerId s) as [c|]; [|discriminate].
  destruct (maskCanvas s) as [m|] eqn:Em; [|discriminate].
  destruct ((width c <=? 0) || (height c <=? 0)); [discriminate|].
  injection Hsnap as <-.
  rewrite spliceFrom_take by exact Hidx.
  set (snap := mkHistoryState _ _ _).
  cbv zeta. set (hist2 := take _ _ ++ [snap]).
  destruct (evictBytes_least hist2 (historyIndex s + 1)) as (k & Hk & Hev & Hb & Hmin).
  rewrite Hev.
  destruct (Nat.ltb_spec 20 (length (drop k hist2))) as [Hbig|Hsmall].
  - exists (S k). cbn [history historyIndex setHistory].
    pose proof Hbig as Hbig'. rewrite length_drop in Hbig'.
    repeat split.
    + lia.
    + apply tail_drop.
    + lia.
    + rewrite <- tail_drop. etransitivity; [apply historyBytes_tail | exact Hb].
    + intros j Hj. destruct (Nat.eq_dec j k) as [->|Hne]; [right; exact Hbig|].
      left. apply Hmin. lia.
  - exists k. cbn [history historyIndex setHistory].
    repeat split; try reflexivity; try assumption.
    intros j Hj. left. apply Hmin, Hj.
Qed.

(** C2. In every state the engine can reach, a call of [commitHistory]
    leaves at most 20 entries and at most [MAX_HISTORY_BYTES] bytes of
    snapshots. When it gets past its guards, the entries after the index are
    cut and the new snapshot is appended; then the oldest entries are
    removed, [k] of them, and no more than needed: before each removal the
    entries still held exceeded the byte budget or counted more than 20, and
    [k] is the least number of removals after which both bounds hold. The
    index ends on the newest entry, which is the new snapshot whenever that
    snapshot alone fits the budget (otherwise the history ends up empty).
    When a guard fires nothing changes. *)
Theorem commitHistory_bounds (ops : list Op) :
  let s := run ops initialEngine in
  (length (history (commitHistory s)) <= 20)%nat /\
  historyBytes (history (commitHistory s)) <= MAX_HISTORY_BYTES /\
  match snapshot s with
  | Some snap =>
      let appended := take (Z.to_nat (historyIndex s + 1)) (history s) ++ [snap] in
      exists k : nat,
        history (commitHistory s) = drop k appended /\
        historyIndex (commitHistory s) = Z.of_nat (length (history (commitHistory s))) - 1 /\
        (forall j, (j < k)%nat ->
           MAX_HISTORY_BYTES < historyBytes (drop j appended) \/
           (20 < length (drop j appended))%nat) /\
        (forall j, historyBytes (drop j appended) <= MAX_HISTORY_BYTES ->
           (length (drop j appended) <= 20)%nat -> (k <= j)%nat) /\
        (entryBytes snap <= MAX_HISTORY_BYTES ->
         last (history (commitHistory s)) = Some snap) /\
        (MAX_HISTORY_BYTES < entryBytes snap -> history (commitHistory s) = [])
  | None => commitHistory s = s
  end.
Proof.
  intros s.
  pose proof (run_invariant ops initialEngine initialEngine_invariant) as Hs.
  fold s in Hs.
  destruct (commitHistory_invariant s Hs) as (_ & Hlen & Hbytes).
  split; [exact Hlen|]. split; [exact Hbytes|].
  destruct (snapshot s) as [snap|] eqn:Esnap;
    [|apply commitHistory_no_snapshot, Esnap].
  destruct Hs as (Hidx & _ & _).
  destruct (commitHistory_least s snap Esnap ltac:(lia)) as (k & Hk & Hh & Hi & Hb & Hmin).
  cbv zeta in *.
  set (kept := take (Z.to_nat (historyIndex s + 1)) (history s)) in *.
  assert (Hkept : length kept = Z.to_nat (historyIndex s + 1))
    by (subst kept; rewrite length_take; lia).
  assert (Happ : length (kept ++ [snap]) = S (length kept))
    by (rewrite length_app; cbn [length]; lia).
  assert (Hone : drop (length kept) (kept ++ [snap]) = [snap])
    by (rewrite drop_app_length; reflexivity).
  exists k. split; [exact Hh|]. split; [|split; [exact Hmin|split; [|split]]].
  - rewrite Hi, Hh, length_drop, Happ. lia.
  - intros j Hjb Hjl.
    destruct (Nat.le_gt_cases k j) as [Hle|Hgt]; [exact Hle|].
    destruct (Hmin j Hgt) as [Hover|Hmany]; lia.
  - intros Hfit.
    assert (Hle : (k <= length kept)%nat).
    { destruct (Nat.le_gt_cases k (length kept)) as [Hle|Hgt]; [exact Hle|].
      destruct (Hmin (length kept) Hgt) as [Hover|Hmany]; rewrite Hone in *.
      - unfold historyBytes in Hover. cbn [fold_left] in Hover. lia.
      - cbn [length] in Hmany. lia. }
    rewrite Hh, drop_app_le by exact Hle. apply last_snoc.
  - intros Hover.
    assert (Hall : (length kept < k)%nat).
    { destruct (Nat.le_gt_cases k (length kept)) as [Hle|Hgt]; [|exact Hgt].
      rewrite drop_app_le, historyBytes_app in Hb by exact Hle.
      pose proof (historyBytes_nonneg (drop k kept)).
      unfold historyBytes at 2 in Hb. cbn [fold_left] in Hb. lia. }
    rewrite Hh. apply drop_ge. lia.
Qed.

End HistoryFacts.

(** ** Undo followed by redo *)

Module UndoRedoFacts.
Import Canvas Engine Invariants CanvasFacts HistoryFacts.
Local Open Scope Z_scope.

(** [undo] at the oldest entry and [redo] at the newest do nothing. *)
Lemma undo_at_oldest (s : Engine) : historyIndex s <= 0 -> undo s = s.
Proof.
  intros H. unfold undo.
  destruct (Z.leb_spec (historyIndex s) 0); [reflexivity | lia].
Qed.

Lemma redo_at_newest (s : Engine) :
  Z.of_nat (length (history s)) - 1 <= historyIndex s -> redo s = s.
Proof.
  intros H. unfold redo.
  destruct (Z.leb_spec (Z.of_nat (length (history s)) - 1) (historyIndex s));
    [reflexivity | lia].
Qed.

Section Sized.

(** The pixel size every canvas of the engine has between two resizes. *)
Variables W H : Z.
Hypothesis W_pos : 0 < W.
Hypothesis H_pos : 0 < H.

Local Abbreviation sized := (sized W H).
Local Abbreviation sizedState := (sizedState W H).
Local Abbreviation committed := (committed W H).

Lemma newest_nil : newest [] = None.
Proof. reflexivity. Qed.

Lemma newest_drop_snoc (k : nat) (h : list HistoryState) (e : HistoryState) :
  (k <= length h)%nat -> newest (drop k (h ++ [e])) = Some e.
Proof.
  intros Hk. unfold newest, entryAt.
  rewrite length_drop, length_app. cbn [length].
  destruct (Z.ltb_spec (Z.of_nat (length h + 1 - k) - 1) 0); [lia|].
  rewrite lookup_drop.
  replace (k + Z.to_nat (Z.of_nat (length h + 1 - k) - 1))%nat with (length h + 0)%nat by lia.
  rewrite lookup_app_r by lia.
  replace (length h + 0 - length h)%nat with 0%nat by lia. reflexivity.
Qed.

Lemma previous_drop_snoc (k : nat) (h : list HistoryState) (e prev : HistoryState) :
  previous (drop k (h ++ [e])) = Some prev -> newest h = Some prev.
Proof.
  unfold previous, newest, entryAt.
  rewrite length_drop, length_app. cbn [length].
  destruct (Z.ltb_spec (Z.of_nat (length h + 1 - k) - 2) 0); [discriminate|].
  destruct (Z.ltb_spec (Z.of_nat (length h) - 1) 0); [lia|].
  rewrite lookup_drop.
  replace (k + Z.to_nat (Z.of_nat (length h + 1 - k) - 2))%nat
    with (Z.to_nat (Z.of_nat (length h) - 1)) by lia.
  rewrite lookup_app_l by lia. trivial.
Qed.

Lemma sized_snapshot (c m : ImageData) :
  sized c -> sized m ->
  getImageData c (width c) (height c) = c /\ getImageData m (width c) (height c) = m.
Proof.
  intros (Hc & Hcw & Hch) (Hm & Hmw & Hmh). split.
  - apply getImageData_full, Hc.
  - rewrite Hcw, Hch, <- Hmw, <- Hmh. apply getImageData_full, Hm.
Qed.

(** [commitHistory] turns a state whose drawing is not yet recorded into a
    committed one. *)
Lemma commitHistory_committed (s : Engine) :
  sizedState s -> newestKept s -> committed (commitHistory s).
Proof.
  intros (Hlayers & (m & Em & Hm) & [c Ec] & Hhist & Hidx) Hkept.
  pose proof (Hlayers _ _ Ec) as Hc.
  destruct (sized_snapshot c m Hc Hm) as [Gc Gm].
  assert (Esnap : snapshot s = Some (mkHistoryState (activeLayerId s) c m)).
  { unfold snapshot. rewrite Ec, Em.
    destruct Hc as (_ & Ew & Eh).
    destruct (Z.leb_spec (width c) 0); [lia|].
    destruct (Z.leb_spec (height c) 0); [lia|].
    cbn [orb]. rewrite Gc, Gm. reflexivity. }
  destruct (commitHistory_spec s _ Esnap ltac:(lia))
    as (k & Hh & Hi & _ & Hk & _ & El & Ema & Ea).
  rewrite take_ge in Hh, Hk by lia.
  assert (Hlen : length (history (commitHistory s)) = (length (history s) + 1 - k)%nat)
    by (rewrite Hh, length_drop, length_app; reflexivity).
  split; [|split].
  - split; [|split; [|split; [|split]]].
    + rewrite El. exact Hlayers.
    + exists m. rewrite Ema. split; assumption.
    + rewrite El, Ea. exists c. exact Ec.
    + rewrite Hh. apply Forall_drop, Forall_app. split; [exact Hhist|].
      constructor; [|constructor]. cbn [painting mask]. split; assumption.
    + rewrite Hi, Hlen, Hidx. lia.
  - intros top Htop. rewrite Hh in Htop.
    destruct (decide (k <= length (history s))%nat) as [Hle|Hgt].
    + rewrite newest_drop_snoc in Htop by exact Hle. injection Htop as <-.
      cbn [layerId painting mask]. rewrite El, Ema. split; assumption.
    + rewrite drop_ge in Htop by (rewrite length_app; cbn [length]; lia).
      discriminate.
  - intros prev top Hprev Htop. rewrite Hh in Hprev, Htop.
    destruct (decide (k <= length (history s))%nat) as [Hle|Hgt].
    + rewrite newest_drop_snoc in Htop by exact Hle. injection Htop as <-.
      apply previous_drop_snoc in Hprev. cbn [layerId]. rewrite El.
      apply Hkept, Hprev.
    + rewrite drop_ge in Htop by (rewrite length_app; cbn [length]; lia).
      discriminate.
Qed.

(** Writing a snapshot of the common size replaces the layer and the mask. *)
Lemma restore_sized (e : HistoryState) (c m : ImageData) (s : Engine) :
  layerCanvases s !! layerId e = Some c -> sized c -> sized (painting e) ->
  maskCanvas s = Some m -> sized m -> sized (mask e) ->
  restore (Some e) s =
  setMask (setLayers s (<[layerId e := painting e]> (layerCanvases s))) (Some (mask e)).
Proof.
  intros Ec (_ & Ecw & Ech) (Hp & Epw & Eph) Em (_ & Emw & Emh) (Hk & Ekw & Ekh).
  unfold restore. rewrite Ec, Em. cbn [fmap option_fmap option_map].
  rewrite (putImageData_same_size (painting e) c) by (assumption || congruence).
  rewrite (putImageData_same_size (mask e) m) by (assumption || congruence).
  reflexivity.
Qed.

(** On a committed state, [undo] then [redo] gives the state back: every
    layer raster, the mask raster and the index. *)
Lemma undo_redo_committed (s : Engine) : committed s -> redo (undo s) = s.
Proof.
  intros ((Hlayers & (m & Em & Hm) & _ & Hhist & Hidx) & Hrec & Hprev).
  destruct (Z.le_gt_cases (historyIndex s) 0) as [Hle|Hgt].
  { rewrite undo_at_oldest by exact Hle. apply redo_at_newest. lia. }
  assert (is_Some (history s !! Z.to_nat (historyIndex s - 1))) as [prev Eprev]
    by (apply lookup_lt_is_Some_2; lia).
  assert (is_Some (history s !! Z.to_nat (historyIndex s))) as [top Etop]
    by (apply lookup_lt_is_Some_2; lia).
  assert (Hnew : newest (history s) = Some top).
  { unfold newest, entryAt. rewrite <- Hidx.
    destruct (Z.ltb_spec (historyIndex s) 0); [lia | exact Etop]. }
  assert (Hprv : previous (history s) = Some prev).
  { unfold previous, entryAt.
    replace (Z.of_nat (length (history s)) - 2) with (historyIndex s - 1) by lia.
    destruct (Z.ltb_spec (historyIndex s - 1) 0); [lia | exact Eprev]. }
  destruct (Hrec top Hnew) as [Htl Htm].
  pose proof (proj1 (Forall_lookup _ _) Hhist _ _ Eprev) as [Hpp Hpm].
  pose proof (proj1 (Forall_lookup _ _) Hhist _ _ Etop) as [Htp Htk].
  assert (exists c, layerCanvases s !! layerId prev = Some c /\ sized c) as (c & Ec & Hc).
  { destruct (Hprev prev top Hprv Hnew) as [E|E].
    - rewrite E. exists (painting top). split; assumption.
    - exists (painting prev). split; assumption. }
  assert (Eundo : undo s =
            setMask (setLayers (setHistory s (history s) (historyIndex s - 1))
                       (<[layerId prev := painting prev]> (layerCanvases s)))
                    (Some (mask prev))).
  { unfold undo. destruct (Z.leb_spec (historyIndex s) 0); [lia|].
    rewrite Em. cbn [orb negb]. rewrite bool_decide_eq_true_2 by eauto. cbn [negb].
    unfold entryAt at 1. destruct (Z.ltb_spec (historyIndex s - 1) 0); [lia|].
    rewrite Eprev.
    rewrite (restore_sized prev c m)
      by (cbn [layerCanvases maskCanvas setHistory]; assumption).
    reflexivity. }
  rewrite Eundo. unfold redo.
  cbn [history historyIndex setMask setLayers setHistory maskCanvas layerCanvases].
  destruct (Z.leb_spec (Z.of_nat (length (history s)) - 1) (historyIndex s - 1)); [lia|].
  rewrite bool_decide_eq_true_2 by eauto. cbn [orb negb].
  replace (historyIndex s - 1 + 1) with (historyIndex s) by lia.
  unfold entryAt. destruct (Z.ltb_spec (historyIndex s) 0); [lia|]. rewrite Etop.
  assert (exists c', <[layerId prev := painting prev]> (layerCanvases s) !! layerId top
                     = Some c' /\ sized c') as (c' & Ec' & Hc').
  { destruct (decide (layerId prev = layerId top)) as [E|E].
    - rewrite E, lookup_insert_eq. eauto.
    - rewrite lookup_insert_ne by exact E. eauto. }
  rewrite (restore_sized top c' (mask prev));
    cbn [layerCanvases maskCanvas setHistory setLayers setMask]; try assumption; try reflexivity.
  destruct s as [layers mk tmp cmp pat act hist idx].
  unfold setMask, setLayers, setHistory.
  cbn [layerCanvases maskCanvas tempCanvas compositeCanvas patternImage activeLayerId
       history historyIndex] in *.
  f_equal; [|congruence].
  destruct (Hprev prev top Hprv Hnew) as [E|E].
  - rewrite E, insert_insert_eq. apply insert_id, Htl.
  - rewrite (insert_id layers (layerId prev)) by exact E. apply insert_id, Htl.
Qed.

Lemma committed_newestKept (s : Engine) : committed s -> newestKept s.
Proof. intros (_ & Hrec & _) top Htop. right. apply Hrec, Htop. Qed.

Lemma setActiveLayerId_committed (id : string) (s : Engine) :
  is_Some (layerCanvases s !! id) -> committed s -> committed (setActiveLayerId id s).
Proof.
  intros Hid ((Hl & Hm & _ & Hh & Hi) & Hrec & Hprev).
  split; [|split]; [|exact Hrec|exact Hprev].
  split; [exact Hl|]. split; [exact Hm|]. split; [exact Hid|]. split; assumption.
Qed.

Lemma redraw_sized (paint : nat -> list Z -> Z) (c : ImageData) :
  sized c -> sized (redraw paint c).
Proof.
  intros (Hc & Ew & Eh). split; [apply redraw_wellFormed, Hc|]. split; assumption.
Qed.

Lemma paintActiveLayer_committed (paint : nat -> list Z -> Z) (s : Engine) :
  committed s -> committed (paintActiveLayer paint s).
Proof.
  intros Hs. unfold paintActiveLayer.
  destruct (layerCanvases s !! activeLayerId s) as [c|] eqn:Ec; [|exact Hs].
  destruct Hs as ((Hl & Hm & _ & Hh & Hi) & Hrec & _).
  apply commitHistory_committed.
  - split; [|split; [exact Hm|split; [|split; assumption]]].
    + intros id c'. cbn [setLayers layerCanvases]. rewrite lookup_insert.
      case_decide as Hid.
      * intros [= <-]. apply redraw_sized, (Hl _ _ Ec).
      * apply Hl.
    + cbn [setLayers layerCanvases activeLayerId]. rewrite lookup_insert_eq. eauto.
  - intros top Htop. cbn [setLayers layerCanvases activeLayerId history] in *.
    destruct (decide (activeLayerId s = layerId top)) as [E|E]; [left; congruence|].
    right. rewrite lookup_insert_ne by exact E. apply Hrec, Htop.
Qed.

Lemma setMask_uncommitted (m' : ImageData) (s : Engine) :
  sized m' -> committed s -> sizedState (setMask s (Some m')) /\ newestKept (setMask s (Some m')).
Proof.
  intros Hm' ((Hl & _ & Ha & Hh & Hi) & Hrec & _). split.
  - split; [exact Hl|]. split; [exists m'; split; [reflexivity | exact Hm']|].
    split; [exact Ha|]. split; assumption.
  - intros top Htop. right. apply Hrec, Htop.
Qed.

Lemma paintMask_committed (paint : nat -> list Z -> Z) (s : Engine) :
  committed s -> committed (paintMask paint s).
Proof.
  intros Hs. unfold paintMask.
  destruct (maskCanvas s) as [m|] eqn:Em; [|exact Hs].
  assert (Hm : sized m).
  { destruct Hs as ((_ & (m0 & E0 & H0) & _) & _). congruence. }
  destruct (setMask_uncommitted (redraw paint m) s (redraw_sized paint m Hm) Hs).
  apply commitHistory_committed; assumption.
Qed.

Lemma invertPixels_length (d : list Z) : length (invertPixels d) = length d.
Proof.
  induction d as [d IH] using (well_founded_induction (well_founded_ltof _ (@length Z))).
  destruct d as [|r [|g [|b [|a rest]]]]; try reflexivity.
  cbn [invertPixels length]. rewrite IH; [reflexivity|].
  unfold ltof. cbn [length]. lia.
Qed.

(** [invertMask] on a mask of the common size writes the inverted pixels
    back and commits. *)
Lemma invertMask_sized (s : Engine) (m : ImageData) :
  maskCanvas s = Some m -> sized m ->
  invertMask s =
  commitHistory (setMask s (Some (mkImageData W H (invertPixels (data m))))) /\
  sized (mkImageData W H (invertPixels (data m))).
Proof.
  intros Em (Hm & Ew & Eh).
  assert (Hinv : sized (mkImageData W H (invertPixels (data m)))).
  { split; [|split; reflexivity]. destruct Hm as (? & ? & Hlen).
    repeat split; cbn [width height data]; try lia.
    rewrite invertPixels_length, Hlen, Ew, Eh. reflexivity. }
  split; [|exact Hinv].
  unfold invertMask. rewrite Em.
  destruct (Z.leb_spec (width m) 0); [lia|].
  destruct (Z.leb_spec (height m) 0); [lia|]. cbn [orb].
  rewrite getImageData_full by exact Hm.
  rewrite putImageData_same_size.
  - rewrite Ew, Eh. reflexivity.
  - rewrite Ew, Eh. apply Hinv.
  - reflexivity.
  - reflexivity.
Qed.

Lemma invertMask_committed (s : Engine) : committed s -> committed (invertMask s).
Proof.
  intros Hs.
  destruct Hs as ((Hl & (m & Em & Hm) & Hrest) & Hrec & Hprev).
  destruct (invertMask_sized s m Em Hm) as [-> Hinv].
  destruct (setMask_uncommitted _ s Hinv) as [? ?].
  { split; [|split; assumption]. split; [exact Hl|]. split; [eauto | exact Hrest]. }
  apply commitHistory_committed; assumption.
Qed.

(** Every committing operation keeps the state committed. *)
Lemma run_committed (ids : list string) (ops : list Op) (s : Engine) :
  (forall id, In id ids -> is_Some (layerCanvases s !! id)) ->
  forallb (isCommitOp ids) ops = true ->
  committed s ->
  committed (run ops s) /\
  (forall id, In id ids -> is_Some (layerCanvases (run ops s) !! id)).
Proof.
  revert s. induction ops as [|o ops IH]; intros s Hids Hops Hs; [split; assumption|].
  cbn [forallb] in Hops. apply andb_true_iff in Hops as [Ho Hops].
  cbn [run fold_left]. change (fold_left step ops (step s o)) with (run ops (step s o)).
  assert (Hdom : forall s', layerCanvases s' = layerCanvases s ->
                   forall id, In id ids -> is_Some (layerCanvases s' !! id))
    by (intros s' -> ; exact Hids).
  destruct o; cbn [isCommitOp] in Ho; try discriminate; cbn [step].
  - apply existsb_exists in Ho as (id' & Hin & ->%String.eqb_eq).
    rename Hin into Ho.
    apply IH; [apply Hdom; reflexivity | exact Hops|].
    apply setActiveLayerId_committed; [apply Hids, Ho | exact Hs].
  - apply IH; [| exact Hops | apply paintActiveLayer_committed, Hs].
    intros id Hid. unfold paintActiveLayer.
    destruct (layerCanvases s !! activeLayerId s) as [c|] eqn:Ec; [|apply Hids, Hid].
    destruct (snapshot (setLayers s (<[activeLayerId s:=redraw paint c]> (layerCanvases s))))
      as [snap|] eqn:Esnap.
    + destruct (commitHistory_spec _ snap Esnap) as (_ & _ & _ & _ & _ & _ & -> & _).
      { destruct Hs as ((_ & _ & _ & _ & Hi) & _). cbn [setLayers historyIndex]. lia. }
      cbn [setLayers layerCanvases]. rewrite lookup_insert. case_decide; [eauto|].
      apply Hids, Hid.
    + rewrite commitHistory_no_snapshot by exact Esnap.
      cbn [setLayers layerCanvases]. rewrite lookup_insert. case_decide; [eauto|].
      apply Hids, Hid.
  - apply IH; [| exact Hops | apply paintMask_committed, Hs].
    intros id Hid. unfold paintMask.
    destruct (maskCanvas s) as [m|]; [|apply Hids, Hid].
    destruct (snapshot (setMask s (Some (redraw paint m)))) as [snap|] eqn:Esnap.
    + destruct (commitHistory_spec _ snap Esnap) as (_ & _ & _ & _ & _ & _ & -> & _).
      { destruct Hs as ((_ & _ & _ & _ & Hi) & _). cbn [setMask historyIndex]. lia. }
      apply Hids, Hid.
    + rewrite commitHistory_no_snapshot by exact Esnap. apply Hids, Hid.
  - apply IH; [| exact Hops | apply invertMask_committed, Hs].
    intros id Hid.
    destruct Hs as ((_ & (m & Em & Hm) & _ & _ & Hi) & _).
    destruct (invertMask_sized s m Em Hm) as [-> _].
    destruct (snapshot (setMask s (Some (mkImageData W H (invertPixels (data m))))))
      as [snap|] eqn:Esnap.
    + destruct (commitHistory_spec _ snap Esnap) as (_ & _ & _ & _ & _ & _ & -> & _).
      { cbn [setMask historyIndex]. lia. }
      apply Hids, Hid.
    + rewrite commitHistory_no_snapshot by exact Esnap. apply Hids, Hid.
Qed.

End Sized.

Lemma fold_insert_lookup (canvases : list (string * ImageData))
    (m0 : gmap string ImageData) (id : string) (c : ImageData) :
  fold_left (fun m kv => <[fst kv := snd kv]> m) canvases m0 !! id = Some c ->
  m0 !! id = Some c \/ In (id, c) canvases.
Proof.
  revert m0. induction canvases as [|[k v] l IH]; intros m0 Hl; [left; exact Hl|].
  cbn [fold_left fst snd] in Hl. destruct (IH _ Hl) as [Hm|Hin].
  - rewrite lookup_insert in Hm. case_decide as Hk.
    + injection Hm as <-. subst k. right. left. reflexivity.
    + left. exact Hm.
  - right. right. exact Hin.
Qed.

Lemma fold_insert_is_Some (canvases : list (string * ImageData))
    (m0 : gmap string ImageData) (id : string) :
  is_Some (m0 !! id) \/ In id (map fst canvases) ->
  is_Some (fold_left (fun m kv => <[fst kv := snd kv]> m) canvases m0 !! id).
Proof.
  revert m0. induction canvases as [|[k v] l IH]; intros m0 Hid.
  - destruct Hid as [?|[]]. assumption.
  - cbn [fold_left fst snd]. apply IH. simpl in Hid.
    destruct (decide (k = id)) as [->|Hne].
    + left. rewrite lookup_insert_eq. eauto.
    + rewrite lookup_insert_ne by exact Hne.
      destruct Hid as [?|[?|?]]; [left; assumption | congruence | right; assumption].
Qed.

Lemma safeResize_sized (W H : Z) (c : ImageData) :
  0 < W -> 0 < H -> wellFormed c -> sized W H (fst (safeResize W H c)).
Proof.
  intros HW HH Hc. unfold safeResize.
  destruct (Z.eqb_spec (width c) W) as [Ew|Ew];
    [destruct (Z.eqb_spec (height c) H) as [Eh|Eh]|]; cbn [andb fst].
  - split; [exact Hc | split; assumption].
  - destruct (_ && _).
    + split; [apply putImageData_wellFormed; cbn [blank width height]; lia|].
      split; reflexivity.
    + split; [apply blank_wellFormed; lia | split; reflexivity].
  - destruct (_ && _).
    + split; [apply putImageData_wellFormed; cbn [blank width height]; lia|].
      split; reflexivity.
    + split; [apply blank_wellFormed; lia | split; reflexivity].
Qed.

(** On a state without history, [updateSize] resizes and commits. *)
Lemma updateSize_fresh (w h dpr : Z) (s : Engine) :
  0 < w * dpr -> 0 < h * dpr -> history s = [] -> historyIndex s = -1 ->
  updateSize w h dpr s =
  commitHistory
    (mkEngine (fst <$> (safeResize (w * dpr) (h * dpr) <$> layerCanvases s))
              (fst <$> (safeResize (w * dpr) (h * dpr) <$> maskCanvas s))
              (fst <$> (safeResize (w * dpr) (h * dpr) <$> tempCanvas s))
              (fst <$> (safeResize (w * dpr) (h * dpr) <$> compositeCanvas s))
              (patternImage s) (activeLayerId s) [] (-1)).
Proof.
  intros Hw Hh Eh Ei. unfold updateSize.
  destruct (Z.leb_spec (w * dpr) 0); [lia|].
  destruct (Z.leb_spec (h * dpr) 0); [lia|]. cbn [orb]. cbv zeta.
  rewrite Eh, Ei. cbn [history length Nat.eqb].
  destruct (_ || _); reflexivity.
Qed.

(** [init] on the hook's initial state leaves a committed engine. *)
Lemma init_committed (canvases : list (string * ImageData)) (maskC : ImageData)
    (lw lh dpr : Z) :
  0 < lw * dpr -> 0 < lh * dpr ->
  Forall (fun kv => wellFormed (snd kv)) canvases -> wellFormed maskC ->
  In "layer-1"%string (map fst canvases) ->
  committed (lw * dpr) (lh * dpr) (init canvases maskC lw lh dpr initialEngine) /\
  (forall id, In id (map fst canvases) ->
     is_Some (layerCanvases (init canvases maskC lw lh dpr initialEngine) !! id)).
Proof.
  intros Hw Hh Hcs Hm Hactive. unfold init.
  rewrite updateSize_fresh by (assumption || reflexivity).
  cbn [layerCanvases maskCanvas tempCanvas compositeCanvas patternImage activeLayerId
       initialEngine fmap option_fmap option_map].
  set (layers0 := fold_left _ canvases ∅).
  set (s1 := mkEngine _ _ _ _ _ _ _ _).
  assert (Hlook : forall id, In id (map fst canvases) -> is_Some (layerCanvases s1 !! id)).
  { intros id Hid. subst s1. cbn [layerCanvases]. rewrite !lookup_fmap.
    destruct (fold_insert_is_Some canvases ∅ id (or_intror Hid)) as [c Ec].
    fold layers0 in Ec. rewrite Ec. cbn. eauto. }
  assert (Hsized : sizedState (lw * dpr) (lh * dpr) s1).
  { split; [|split; [|split; [|split]]].
    - intros id c. subst s1. cbn [layerCanvases]. rewrite !lookup_fmap.
      destruct (layers0 !! id) as [c0|] eqn:E0; [|discriminate].
      cbn. intros [= <-]. apply safeResize_sized; [assumption..|].
      destruct (fold_insert_lookup _ _ _ _ E0) as [Hemp|Hin].
      + rewrite lookup_empty in Hemp. discriminate.
      + apply (proj1 (List.Forall_forall _ _) Hcs (id, c0) Hin).
    - eexists. split; [reflexivity|]. apply safeResize_sized; assumption.
    - apply Hlook, Hactive.
    - constructor.
    - reflexivity. }
  assert (Hkept : newestKept s1) by (intros top Htop; discriminate).
  split; [apply commitHistory_committed; assumption|].
  intros id Hid.
  destruct (snapshot s1) as [snap|] eqn:Esnap.
  - destruct (commitHistory_spec s1 snap Esnap) as (_ & _ & _ & _ & _ & _ & -> & _).
    { subst s1. cbn [historyIndex]. lia. }
    apply Hlook, Hid.
  - rewrite commitHistory_no_snapshot by exact Esnap. apply Hlook, Hid.
Qed.

(** C3. After [init] and any sequence of committed operations (strokes and
    fills on the active layer, mask edits, [invertMask], switches between
    layers that have a canvas), [undo] followed by [redo] gives back the
    very state it started from: every layer raster, the mask raster and the
    index. Moreover [undo] does nothing at the oldest entry and [redo]
    nothing at the newest one. *)
Theorem undo_redo_restores (canvases : list (string * ImageData)) (maskC : ImageData)
    (lw lh dpr : Z) (ops : list Op) :
  0 < lw * dpr -> 0 < lh * dpr ->
  Forall (fun kv => wellFormed (snd kv)) canvases -> wellFormed maskC ->
  In "layer-1"%string (map fst canvases) ->
  forallb (isCommitOp (map fst canvases)) ops = true ->
  let s := run ops (init canvases maskC lw lh dpr initialEngine) in
  redo (undo s) = s /\
  (forall t, historyIndex t <= 0 -> undo t = t) /\
  (forall t, Z.of_nat (length (history t)) - 1 <= historyIndex t -> redo t = t).
Proof.
  intros Hw Hh Hcs Hm Hactive Hops s.
  split; [|split; [exact undo_at_oldest | exact redo_at_newest]].
  destruct (init_committed canvases maskC lw lh dpr Hw Hh Hcs Hm Hactive) as [Hinit Hids].
  destruct (run_committed (lw * dpr) (lh * dpr) Hw Hh (map fst canvases) ops _ Hids Hops Hinit)
    as [Hrun _].
  apply (undo_redo_committed (lw * dpr) (lh * dpr)); assumption.
Qed.

Example twenty_one_commits :
  length (history (run (repeat (OpPaint (fun _ _ => 1)) 21) smallEngine)) = 20%nat.
Proof. vm_compute. reflexivity. Qed.

Example commit_after_two_undos :
  let s := run [OpUndo; OpUndo; OpPaint (fun _ _ => 5)] demoEngine in
  length (history s) = 5%nat /\ historyIndex s = 4.
Proof. vm_compute. split; reflexivity. Qed.

Example demoEngine_history :
  length (history demoEngine) = 6%nat /\ historyIndex demoEngine = 5.
Proof. vm_compute. split; reflexivity. Qed.

Example demoEngine_undo_moves :
  historyIndex (undo demoEngine) = 4 /\
  layerCanvases (undo demoEngine) !! "layer-2"%string =
    Some (mkImageData 2 2 (map (fun i => 200) (seq 0 16))).
Proof. vm_compute. split; reflexivity. Qed.

Lemma undo_redo_restores_witness :
  redo (undo demoEngine) = demoEngine /\
  (forall t, historyIndex t <= 0 -> undo t = t) /\
  (forall t, Z.of_nat (length (history t)) - 1 <= historyIndex t -> redo t = t).
Proof.
  apply (undo_redo_restores demoCanvases demoMask 2 2 1 demoOps).
  - lia.
  - lia.
  - repeat constructor; cbn; lia.
  - repeat constructor; cbn; lia.
  - left. reflexivity.
  - reflexivity.
Defined.

End UndoRedoFacts.

(** ** Inverting the mask *)

Module MaskFacts.
Import Canvas Engine Invariants CanvasFacts HistoryFacts UndoRedoFacts.
Local Open Scope Z_scope.

(** [commitHistory] only touches the history. *)
Lemma commitHistory_rasters (s : Engine) :
  layerCanvases (commitHistory s) = layerCanvases s /\
  maskCanvas (commitHistory s) = maskCanvas s /\
  activeLayerId (commitHistory s) = activeLayerId s.
Proof.
  unfold commitHistory.
  destruct (layerCanvases s !! activeLayerId s); [|repeat split].
  destruct (maskCanvas s) eqn:Em; [|repeat split; assumption].
  destruct (_ || _); [repeat split; assumption|].
  destruct (evictBytes _ _ _) as [hist3 idx3].
  destruct (_ <? _)%nat; repeat split; assumption.
Qed.

Lemma clampByte_invert (a : Z) : 0 <= a <= 255 -> clampByte (255 - a) = 255 - a.
Proof. unfold clampByte. lia. Qed.

Lemma alphaChannel_invertPixels (d : list Z) :
  alphaChannel (invertPixels d) = map (fun a => clampByte (255 - a)) (alphaChannel d).
Proof.
  induction d as [d IH] using (well_founded_induction (well_founded_ltof _ (@length Z))).
  destruct d as [|r [|g [|b [|a rest]]]]; try reflexivity.
  cbn [invertPixels alphaChannel map]. rewrite IH; [reflexivity|].
  unfold ltof. cbn [length]. lia.
Qed.

Lemma alphaChannel_range (d : list Z) :
  Forall (fun v => 0 <= v <= 255) d -> Forall (fun v => 0 <= v <= 255) (alphaChannel d).
Proof.
  induction d as [d IH] using (well_founded_induction (well_founded_ltof _ (@length Z))).
  intros Hd. destruct d as [|r [|g [|b [|a rest]]]]; try constructor.
  - inversion Hd as [|? ? _ Hd1]. inversion Hd1 as [|? ? _ Hd2].
    inversion Hd2 as [|? ? _ Hd3]. inversion Hd3 as [|? ? Ha _]. exact Ha.
  - apply IH; [unfold ltof; cbn [length]; lia|].
    inversion Hd as [|? ? _ Hd1]. inversion Hd1 as [|? ? _ Hd2].
    inversion Hd2 as [|? ? _ Hd3]. inversion Hd3 as [|? ? _ Hd4]. exact Hd4.
Qed.

(** On the bytes of a [Uint8ClampedArray], inverting the alpha channel
    twice gives it back. *)
Lemma alphaChannel_invert_twice (d : list Z) :
  Forall (fun v => 0 <= v <= 255) d ->
  alphaChannel (invertPixels d) = map (fun a => 255 - a) (alphaChannel d) /\
  alphaChannel (invertPixels (invertPixels d)) = alphaChannel d.
Proof.
  intros Hd%alphaChannel_range.
  rewrite !alphaChannel_invertPixels. split.
  - induction Hd as [|a l Ha _ IH]; [reflexivity|].
    cbn [map]. rewrite IH, clampByte_invert by exact Ha. reflexivity.
  - rewrite map_map. induction Hd as [|a l Ha _ IH]; [reflexivity|].
    cbn [map]. rewrite IH. f_equal. unfold clampByte. lia.
Qed.

Lemma invertPixels_nil_data (m : ImageData) :
  wellFormed m -> width m <= 0 \/ height m <= 0 -> data m = [].
Proof.
  intros (Hw & Hh & Hl) Hz.
  assert (Z.of_nat (length (data m)) = 0) by nia.
  destruct (data m); [reflexivity | cbn [length] in *; lia].
Qed.

(** What one call of [invertMask] leaves on the mask canvas. *)
Lemma invertMask_mask (s : Engine) (m : ImageData) :
  maskCanvas s = Some m -> wellFormed m ->
  maskCanvas (invertMask s) =
    Some (mkImageData (width m) (height m) (invertPixels (data m))).
Proof.
  intros Em Hm.
  destruct (Z.le_gt_cases (width m) 0) as [Hw0|Hw];
    [|destruct (Z.le_gt_cases (height m) 0) as [Hh0|Hh]].
  - pose proof (invertPixels_nil_data m Hm (or_introl Hw0)) as Ed.
    unfold invertMask. rewrite Em.
    destruct (Z.leb_spec (width m) 0); [|lia]. cbn [orb]. rewrite Em.
    destruct m as [w h d]. cbn [width height data] in *. subst d. reflexivity.
  - pose proof (invertPixels_nil_data m Hm (or_intror Hh0)) as Ed.
    unfold invertMask. rewrite Em.
    destruct (Z.leb_spec (height m) 0); [|lia]. rewrite orb_true_r. rewrite Em.
    destruct m as [w h d]. cbn [width height data] in *. subst d. reflexivity.
  - assert (Hs : sized (width m) (height m) m) by (split; [exact Hm | split; reflexivity]).
    destruct (invertMask_sized (width m) (height m) Hw Hh s m Em Hs) as [-> _].
    destruct (commitHistory_rasters
                (setMask s (Some (mkImageData (width m) (height m) (invertPixels (data m))))))
      as (_ & -> & _).
    reflexivity.
Qed.

(** C7. [invertMask] replaces every pixel of the mask by the highlight tint
    (43, 108, 176) with alpha [255 - a]; calling it twice leaves a mask of
    the same size whose alpha channel is exactly the original one. *)
Theorem invertMask_twice_restores_alpha (s : Engine) (m : ImageData) :
  maskCanvas s = Some m -> wellFormed m ->
  Forall (fun v => 0 <= v <= 255) (data m) ->
  exists m1 m2,
    maskCanvas (invertMask s) = Some m1 /\
    maskCanvas (invertMask (invertMask s)) = Some m2 /\
    data m1 = invertPixels (data m) /\
    alphaChannel (data m1) = map (fun a => 255 - a) (alphaChannel (data m)) /\
    alphaChannel (data m2) = alphaChannel (data m) /\
    width m2 = width m /\ height m2 = height m.
Proof.
  intros Em Hm Hrange.
  pose proof (invertMask_mask s m Em Hm) as E1.
  set (m1 := mkImageData (width m) (height m) (invertPixels (data m))) in *.
  assert (Hm1 : wellFormed m1).
  { destruct Hm as (Hw & Hh & Hl). repeat split; cbn [m1 width height data]; try assumption.
    rewrite invertPixels_length. exact Hl. }
  pose proof (invertMask_mask (invertMask s) m1 E1 Hm1) as E2.
  destruct (alphaChannel_invert_twice (data m) Hrange) as [Ha1 Ha2].
  exists m1, (mkImageData (width m1) (height m1) (invertPixels (data m1))).
  repeat split; assumption.
Qed.

Example invertPixels_two_pixels :
  invertPixels [10; 20; 30; 0; 1; 2; 3; 200] = [43; 108; 176; 255; 43; 108; 176; 55].
Proof. reflexivity. Qed.

Lemma invertMask_twice_restores_alpha_witness :
  exists m1 m2,
    maskCanvas (invertMask demoEngine) = Some m1 /\
    maskCanvas (invertMask (invertMask demoEngine)) = Some m2 /\
    data m1 = invertPixels (concat (repeat [43; 108; 176; 0] 4)) /\
    alphaChannel (data m1) = [255; 255; 255; 255] /\
    alphaChannel (data m2) = [0; 0; 0; 0] /\
    width m2 = 2 /\ height m2 = 2.
Proof.
  apply (invertMask_twice_restores_alpha demoEngine
           (mkImageData 2 2 (concat (repeat [43; 108; 176; 0] 4)))).
  - reflexivity.
  - repeat split; cbn; lia.
  - repeat constructor; lia.
Defined.

End MaskFacts.

(** ** Resizing *)

Module ResizeFacts.
Import Canvas Engine Invariants CanvasFacts HistoryFacts UndoRedoFacts MaskFacts.
Local Open Scope Z_scope.

Lemma hasSize_false (nw nh : Z) (c : ImageData) :
  hasSize nw nh c = false <-> width c <> nw \/ height c <> nh.
Proof.
  unfold hasSize. rewrite andb_false_iff, !Z.eqb_neq. reflexivity.
Qed.

Lemma safeResize_flag (nw nh : Z) (c : ImageData) :
  snd (safeResize nw nh c) = negb (hasSize nw nh c).
Proof. unfold safeResize, hasSize. destruct (_ && _); reflexivity. Qed.

Lemma safeResize_same (nw nh : Z) (c : ImageData) :
  hasSize nw nh c = true -> fst (safeResize nw nh c) = c.
Proof. unfold safeResize, hasSize. intros ->. reflexivity. Qed.

Lemma safeResize_size (nw nh : Z) (c : ImageData) :
  width (fst (safeResize nw nh c)) = nw /\ height (fst (safeResize nw nh c)) = nh.
Proof.
  unfold safeResize.
  destruct (Z.eqb_spec (width c) nw) as [Ew|Ew];
    [destruct (Z.eqb_spec (height c) nh) as [Eh|Eh]|]; cbn [andb fst].
  - split; assumption.
  - destruct (_ && _); split; reflexivity.
  - destruct (_ && _); split; reflexivity.
Qed.

Lemma existsb_eq_on {A B} (f : A -> bool) (g : B -> bool) (l1 : list A) (l2 : list B) :
  (forall x, In x l1 -> f x = true -> exists y, In y l2 /\ g y = true) ->
  (forall y, In y l2 -> g y = true -> exists x, In x l1 /\ f x = true) ->
  existsb f l1 = existsb g l2.
Proof.
  intros H12 H21. apply Bool.eq_iff_eq_true. rewrite !existsb_exists. split.
  - intros (x & Hx & Hf). eauto.
  - intros (y & Hy & Hg). eauto.
Qed.

(** The flag [updateSize] accumulates is [changesSize]. *)
Lemma anyResized_changesSize (nw nh : Z) (s : Engine) :
  from_option snd false (safeResize nw nh <$> maskCanvas s)
  || existsb (fun kv => snd (snd kv)) (map_to_list (safeResize nw nh <$> layerCanvases s))
  = changesSize nw nh s.
Proof.
  unfold changesSize. f_equal.
  - destruct (maskCanvas s); [apply safeResize_flag | reflexivity].
  - apply existsb_eq_on.
    + intros [k [c f]] Hin Hf. cbn [snd] in Hf. subst f.
      apply list_elem_of_In, elem_of_map_to_list in Hin.
      rewrite lookup_fmap in Hin.
      destruct (layerCanvases s !! k) as [c0|] eqn:E0; [|discriminate].
      cbn in Hin. injection Hin as Hc.
      exists (k, c0). split.
      * apply list_elem_of_In, elem_of_map_to_list, E0.
      * cbn [snd]. rewrite <- safeResize_flag, Hc. reflexivity.
    + intros [k c0] Hin Hg. cbn [snd] in Hg.
      apply list_elem_of_In, elem_of_map_to_list in Hin.
      exists (k, safeResize nw nh c0). split.
      * apply list_elem_of_In, elem_of_map_to_list. rewrite lookup_fmap, Hin. reflexivity.
      * cbn [snd]. rewrite safeResize_flag. exact Hg.
Qed.

Lemma changesSize_true (nw nh : Z) (s : Engine) :
  changesSize nw nh s = true <-> someCanvasDiffers nw nh s.
Proof.
  unfold changesSize, someCanvasDiffers. rewrite orb_true_iff, existsb_exists. split.
  - intros [Hm|([k c] & Hin & Hc)].
    + left. destruct (maskCanvas s) as [m|]; [|discriminate].
      exists m. split; [reflexivity|]. apply hasSize_false, negb_true_iff, Hm.
    + right. exists k, c. split.
      * apply elem_of_map_to_list, list_elem_of_In, Hin.
      * apply hasSize_false, negb_true_iff, Hc.
  - intros [(m & Em & Hm)|(k & c & Ec & Hc)].
    + left. rewrite Em. apply negb_true_iff, hasSize_false, Hm.
    + right. exists (k, c). split.
      * apply list_elem_of_In, elem_of_map_to_list, Ec.
      * apply negb_true_iff, hasSize_false, Hc.
Qed.

Lemma changesSize_false (nw nh : Z) (s : Engine) :
  changesSize nw nh s = false ->
  layerCanvases (resizedEngine nw nh s) = layerCanvases s /\
  maskCanvas (resizedEngine nw nh s) = maskCanvas s.
Proof.
  unfold changesSize. intros [Hm Hl]%orb_false_iff. split.
  - cbn [resizedEngine layerCanvases]. apply map_eq. intros k.
    rewrite !lookup_fmap. destruct (layerCanvases s !! k) as [c|] eqn:Ec; [|reflexivity].
    cbn. f_equal. apply safeResize_same.
    destruct (hasSize nw nh c) eqn:Eh; [reflexivity|].
    assert (existsb (fun kv => negb (hasSize nw nh (snd kv)))
                    (map_to_list (layerCanvases s)) = true); [|congruence].
    apply existsb_exists. exists (k, c). split.
    + apply list_elem_of_In, elem_of_map_to_list, Ec.
    + cbn [snd]. rewrite Eh. reflexivity.
  - cbn [resizedEngine maskCanvas]. destruct (maskCanvas s) as [m|]; [|reflexivity].
    cbn in *. f_equal. apply safeResize_same. apply negb_false_iff, Hm.
Qed.

(** [updateSize] past its guard, by the cases of the source. *)
Lemma updateSize_cases (w h dpr : Z) (s : Engine) :
  0 < w * dpr -> 0 < h * dpr ->
  updateSize w h dpr s =
  if changesSize (w * dpr) (h * dpr) s
  then commitHistory (setHistory (resizedEngine (w * dpr) (h * dpr) s) [] (-1))
  else if (length (history s) =? 0)%nat
       then commitHistory (resizedEngine (w * dpr) (h * dpr) s)
       else resizedEngine (w * dpr) (h * dpr) s.
Proof.
  intros Hw Hh. unfold updateSize.
  destruct (Z.leb_spec (w * dpr) 0); [lia|].
  destruct (Z.leb_spec (h * dpr) 0); [lia|]. cbn [orb]. cbv zeta.
  rewrite anyResized_changesSize. reflexivity.
Qed.

(** [commitHistory] on an empty history: the snapshot, unless it alone is
    over the byte budget. *)
Lemma commitHistory_empty (s : Engine) (snap : HistoryState) :
  history s = [] -> historyIndex s = -1 -> snapshot s = Some snap ->
  if MAX_HISTORY_BYTES <? entryBytes snap
  then history (commitHistory s) = [] /\ historyIndex (commitHistory s) = -1
  else history (commitHistory s) = [snap] /\ historyIndex (commitHistory s) = 0.
Proof.
  intros Eh Ei Esnap. unfold snapshot in Esnap. unfold commitHistory.
  destruct (layerCanvases s !! activeLayerId s) as [c|]; [|discriminate].
  destruct (maskCanvas s) as [m|]; [|discriminate].
  destruct ((width c <=? 0) || (height c <=? 0)); [discriminate|].
  injection Esnap as Esnap. rewrite Esnap, Eh, Ei.
  change (-1 <? Z.of_nat (length (@nil HistoryState)) - 1) with false. cbv iota.
  change ([] ++ [snap]) with [snap]. change (-1 + 1) with 0.
  replace (historyBytes [snap]) with (entryBytes snap)
    by (rewrite historyBytes_cons; cbn; lia).
  cbn [evictBytes].
  destruct (MAX_HISTORY_BYTES <? entryBytes snap); split; reflexivity.
Qed.

Lemma updateSize_guard (w h dpr : Z) (s : Engine) :
  w * dpr <= 0 \/ h * dpr <= 0 -> updateSize w h dpr s = s.
Proof.
  intros Hz. unfold updateSize.
  destruct (Z.leb_spec (w * dpr) 0); [reflexivity|].
  destruct (Z.leb_spec (h * dpr) 0); [reflexivity | lia].
Qed.

(** The snapshot of a freshly resized engine holds two rasters of the new
    size. *)
Lemma snapshot_resized_bytes (nw nh : Z) (s : Engine) (snap : HistoryState) :
  0 < nw -> 0 < nh ->
  snapshot (setHistory (resizedEngine nw nh s) [] (-1)) = Some snap ->
  entryBytes snap = 8 * nw * nh.
Proof.
  intros Hw Hh. unfold snapshot.
  cbn [setHistory resizedEngine layerCanvases maskCanvas activeLayerId].
  rewrite !lookup_fmap.
  destruct (layerCanvases s !! activeLayerId s) as [c|]; [|discriminate].
  destruct (maskCanvas s) as [m|]; [|discriminate].
  cbn [fmap option_fmap option_map].
  destruct (safeResize_size nw nh c) as [-> ->].
  destruct (_ || _); [discriminate|]. intros [= <-].
  unfold entryBytes. cbn [painting mask].
  rewrite !getImageData_length by lia. lia.
Qed.

(** A resize to a size whose snapshot pair exceeds the byte budget leaves
    the history empty. *)
Lemma updateSize_over_budget (w h dpr : Z) (s : Engine) :
  0 < w * dpr -> 0 < h * dpr ->
  changesSize (w * dpr) (h * dpr) s = true ->
  MAX_HISTORY_BYTES < 8 * (w * dpr) * (h * dpr) ->
  history (updateSize w h dpr s) = [] /\ historyIndex (updateSize w h dpr s) = -1.
Proof.
  intros Hw Hh Hch Hbig. rewrite updateSize_cases, Hch by assumption.
  set (fresh := setHistory (resizedEngine (w * dpr) (h * dpr) s) [] (-1)).
  destruct (snapshot fresh) as [snap|] eqn:Esnap.
  - pose proof (commitHistory_empty fresh snap eq_refl eq_refl Esnap) as Hc.
    rewrite (snapshot_resized_bytes _ _ s snap Hw Hh Esnap) in Hc.
    destruct (Z.ltb_spec MAX_HISTORY_BYTES (8 * (w * dpr) * (h * dpr))); [exact Hc | lia].
  - rewrite commitHistory_no_snapshot by exact Esnap. split; reflexivity.
Qed.

(** C9, as the code has it. Past the guard on the new size, [updateSize]
    either finds that the mask or some layer canvas changes size, and then
    it forgets the whole history and calls [commitHistory] on the resized
    engine: the history afterwards is the one fresh snapshot of the resized
    state when [commitHistory] gets past its guards and the snapshot fits
    the byte budget, and is empty otherwise, so that [undo] has nothing to go
    back to; or it finds no such change, and then the layers, the mask and a
    non-empty history stay as they are, an empty history getting the baseline
    [commitHistory]. *)
Theorem updateSize_history (w h dpr : Z) (s : Engine) :
  0 < w * dpr -> 0 < h * dpr ->
  let s' := updateSize w h dpr s in
  let fresh := setHistory (resizedEngine (w * dpr) (h * dpr) s) [] (-1) in
  if changesSize (w * dpr) (h * dpr) s then
    s' = commitHistory fresh /\
    match snapshot fresh with
    | Some snap =>
        if MAX_HISTORY_BYTES <? entryBytes snap
        then history s' = [] /\ historyIndex s' = -1
        else history s' = [snap] /\ historyIndex s' = 0
    | None => history s' = [] /\ historyIndex s' = -1
    end /\
    undo s' = s'
  else
    layerCanvases s' = layerCanvases s /\ maskCanvas s' = maskCanvas s /\
    match history s with
    | [] => s' = commitHistory (resizedEngine (w * dpr) (h * dpr) s)
    | _ :: _ => history s' = history s /\ historyIndex s' = historyIndex s
    end.
Proof.
  intros Hw Hh s' fresh. subst s'. rewrite updateSize_cases by assumption.
  destruct (changesSize (w * dpr) (h * dpr) s) eqn:Hch.
  - split; [reflexivity|].
    assert (Hcases :
      match snapshot fresh with
      | Some snap =>
          if MAX_HISTORY_BYTES <? entryBytes snap
          then history (commitHistory fresh) = [] /\ historyIndex (commitHistory fresh) = -1
          else history (commitHistory fresh) = [snap] /\ historyIndex (commitHistory fresh) = 0
      | None => history (commitHistory fresh) = [] /\ historyIndex (commitHistory fresh) = -1
      end).
    { destruct (snapshot fresh) as [snap|] eqn:Esnap.
      - apply (commitHistory_empty fresh snap eq_refl eq_refl Esnap).
      - rewrite commitHistory_no_snapshot by exact Esnap. split; reflexivity. }
    split; [exact Hcases|].
    apply undo_at_oldest. change (historyIndex (commitHistory fresh) <= 0).
    destruct (snapshot fresh) as [snap|]; [destruct (_ <? _)|];
      destruct Hcases as [_ ->]; lia.
  - destruct (changesSize_false _ _ s Hch) as [El Em].
    destruct (history s) as [|e l] eqn:Eh; cbn [length Nat.eqb].
    + destruct (commitHistory_rasters (resizedEngine (w * dpr) (h * dpr) s)) as (-> & -> & _).
      repeat split; assumption.
    + repeat split; assumption.
Qed.

Example smallEngine_history :
  length (history smallEngine) = 1%nat /\ historyIndex smallEngine = 0 /\
  (width <$> maskCanvas smallEngine) = Some 2.
Proof. vm_compute. repeat split; reflexivity. Qed.

(** A resize to the size the engine already has keeps the history, a resize
    to another size replaces it. *)
Lemma updateSize_history_witness :
  history (updateSize 2 2 1 smallEngine) = history smallEngine /\
  length (history (updateSize 4 3 1 demoEngine)) = 1%nat /\
  undo (updateSize 4 3 1 demoEngine) = updateSize 4 3 1 demoEngine.
Proof.
  pose proof (updateSize_history 2 2 1 smallEngine ltac:(lia) ltac:(lia)) as Hsame.
  pose proof (updateSize_history 4 3 1 demoEngine ltac:(lia) ltac:(lia)) as Hnew.
  cbv zeta in Hsame, Hnew.
  change (changesSize (2 * 1) (2 * 1) smallEngine) with false in Hsame.
  change (changesSize (4 * 1) (3 * 1) demoEngine) with true in Hnew.
  cbv iota in Hsame, Hnew.
  destruct Hsame as (_ & _ & Hsame). destruct Hnew as (_ & Hnew & Hundo).
  split; [|split].
  - change (history smallEngine) with
      [mkHistoryState "layer-1" (blank 2 2) (blank 2 2)] in Hsame.
    cbv iota in Hsame. apply Hsame.
  - vm_compute. reflexivity.
  - exact Hundo.
Defined.

(** The claim as worded fails on a large canvas: resizing the 2 × 2 engine
    to 5000 × 4000 pixels changes the size of every canvas, the snapshot
    pair of the resized state takes 160 000 000 bytes, which is over the
    budget of 157 286 400, and [commitHistory] evicts it at once: the
    history is left empty, not with one fresh snapshot. *)
Lemma updateSize_huge_canvas_leaves_no_snapshot :
  changesSize (5000 * 1) (4000 * 1) smallEngine = true /\
  is_Some (snapshot (setHistory (resizedEngine (5000 * 1) (4000 * 1) smallEngine) [] (-1))) /\
  history (updateSize 5000 4000 1 smallEngine) = [] /\
  ~ (exists snap, history (updateSize 5000 4000 1 smallEngine) = [snap]).
Proof.
  assert (Hch : changesSize (5000 * 1) (4000 * 1) smallEngine = true)
    by (vm_compute; reflexivity).
  destruct (updateSize_over_budget 5000 4000 1 smallEngine) as [Hh _];
    [lia | lia | exact Hch | reflexivity |].
  split; [exact Hch|]. split; [|split; [exact Hh|]].
  - unfold snapshot.
    cbn [setHistory resizedEngine layerCanvases maskCanvas activeLayerId].
    rewrite !lookup_fmap.
    change (activeLayerId smallEngine) with "layer-1"%string.
    change (layerCanvases smallEngine !! "layer-1"%string) with (Some (blank 2 2)).
    change (maskCanvas smallEngine) with (Some (blank 2 2)).
    cbn [fmap option_fmap option_map].
    destruct (safeResize_size (5000 * 1) (4000 * 1) (blank 2 2)) as [-> ->].
    change ((5000 * 1 <=? 0) || (4000 * 1 <=? 0)) with false. cbv iota. eauto.
  - intros [snap Hs]. rewrite Hh in Hs. discriminate.
Qed.

End ResizeFacts.

(** ** Pattern stamping: the guards against oversized work *)

Module PatternFacts.
Import Canvas Engine Settings PatternTools Invariants.
Local Open Scope Q_scope.

Lemma Qltb_true (a b : Q) : a < b -> Qltb a b = true.
Proof.
  intros Hlt. unfold Qltb. destruct (Qle_bool b a) eqn:E; [|reflexivity].
  apply Qle_bool_iff in E. exfalso. apply (Qlt_not_le _ _ Hlt E).
Qed.

(** *** The estimate of the guard and the stamps of the loops *)

Lemma Qltb_false_le (a b : Q) : Qltb a b = false -> b <= a.
Proof.
  unfold Qltb. intros E. apply negb_false_iff in E. apply Qle_bool_iff, E.
Qed.

Lemma Qltb_true_lt (a b : Q) : Qltb a b = true -> a < b.
Proof.
  unfold Qltb. intros E. apply negb_true_iff in E.
  apply Qnot_le_lt. intros Hle. apply Qle_bool_iff in Hle. congruence.
Qed.

Lemma Qdiv_le_mult (a b c : Q) : 0 < b -> a / b <= c -> a <= c * b.
Proof.
  intros Hb Hle. assert (E : a == a / b * b) by (field; lra).
  rewrite E. apply Qmult_le_compat_r; [exact Hle | lra].
Qed.

Lemma Qmult_le_div (a b c : Q) : 0 < b -> c <= a / b -> c * b <= a.
Proof.
  intros Hb Hle. assert (E : a == a / b * b) by (field; lra).
  rewrite E. apply Qmult_le_compat_r; [exact Hle | lra].
Qed.

(** A loop with turns enough visits at least [(stop - g) / step] values. *)
Lemma gridValues_length (fuel : nat) (g stop step : Q) :
  0 < step ->
  stop - g <= inject_Z (Z.of_nat fuel) * step ->
  stop - g <= inject_Z (Z.of_nat (length (gridValues fuel g stop step))) * step.
Proof.
  intros Hstep. revert g. induction fuel as [|fuel IH]; intros g Hfuel.
  - exact Hfuel.
  - cbn [gridValues]. destruct (Qltb g stop) eqn:Eg.
    + cbn [length]. rewrite !Nat2Z.inj_succ in *. unfold Z.succ in *.
      rewrite inject_Z_plus in *.
      specialize (IH (g + step) ltac:(change (inject_Z 1) with 1 in Hfuel; lra)).
      change (inject_Z 1) with 1. lra.
    + apply Qltb_false_le in Eg. cbn [length]. change (inject_Z (Z.of_nat 0)) with 0. lra.
Qed.

Lemma gridFuel_enough (start stop step : Q) :
  0 < step -> stop - start <= inject_Z (Z.of_nat (gridFuel start stop step)) * step.
Proof.
  intros Hstep. unfold gridFuel.
  set (turns := Qceiling ((stop - start) / step)).
  assert (Hceil : (stop - start) / step <= inject_Z turns) by apply Qle_ceiling.
  assert (Hnat : inject_Z turns <= inject_Z (Z.of_nat (Z.to_nat turns)))
    by (rewrite <- Zle_Qle; lia).
  rewrite Nat2Z.inj_succ. unfold Z.succ. rewrite inject_Z_plus.
  change (inject_Z 1) with 1.
  pose proof (Qdiv_le_mult _ _ _ Hstep Hceil) as Hmul.
  nra.
Qed.

(** One grid loop of [drawPatternLasso]: from the grid line at or before
    [lo] up to [hi], it takes at least [(hi - lo) / step] turns. *)
Lemma grid_covers (lo hi step : Q) :
  0 < step ->
  let start := inject_Z (Qfloor (lo / step)) * step in
  (hi - lo) / step
  <= inject_Z (Z.of_nat (length (gridValues (gridFuel start hi step) start hi step))).
Proof.
  intros Hstep start.
  assert (Hstart : start <= lo).
  { subst start. apply Qmult_le_div; [exact Hstep | apply Qfloor_le]. }
  pose proof (gridValues_length (gridFuel start hi step) start hi step Hstep
                (gridFuel_enough start hi step Hstep)) as Hlen.
  apply Qle_shift_div_r; [exact Hstep|]. lra.
Qed.

Lemma flat_map_constant_length {A B} (f : A -> list B) (l : list A) (n : nat) :
  (forall a, length (f a) = n) -> length (flat_map f l) = (length l * n)%nat.
Proof.
  intros Hf. induction l as [|a l IH]; [reflexivity|].
  cbn [flat_map length]. rewrite length_app, Hf, IH. lia.
Qed.

Lemma boundsOf_ordered (p0 : Point2) (points : list Point2) :
  minX (boundsOf p0 points) <= maxX (boundsOf p0 points) /\
  minY (boundsOf p0 points) <= maxY (boundsOf p0 points).
Proof.
  unfold boundsOf.
  assert (Hgen : forall l b0,
            minX b0 <= maxX b0 /\ minY b0 <= maxY b0 ->
            let b :=
              fold_left
                (fun b p => mkBounds (Qmin (minX b) (px p)) (Qmax (maxX b) (px p))
                                     (Qmin (minY b) (py p)) (Qmax (maxY b) (py p)))
                l b0 in
            minX b <= maxX b /\ minY b <= maxY b).
  { induction l as [|p l IH]; intros b0 Hb0; [exact Hb0|].
    cbn [fold_left]. apply IH. cbn [minX maxX minY maxY]. destruct Hb0 as [Hx Hy].
    pose proof (Q.le_min_l (minX b0) (px p)). pose proof (Q.le_max_l (maxX b0) (px p)).
    pose proof (Q.le_min_l (minY b0) (py p)). pose proof (Q.le_max_l (maxY b0) (py p)).
    split; lra. }
  apply Hgen. cbn [minX maxX minY maxY]. split; lra.
Qed.

(** In exact arithmetic the loops stamp at least as many instances as the
    guard estimates: the estimate errs on the side of letting work pass. *)
Lemma lassoStamps_at_least (settings : BrushSettings) (p0 : Point2) (points : list Point2) :
  lassoTileCount settings p0 points
  <= inject_Z (Z.of_nat (length (lassoStamps settings p0 points))).
Proof.
  unfold lassoTileCount, lassoStamps. cbv zeta.
  destruct (boundsOf_ordered p0 points) as [Hbx Hby].
  set (b := boundsOf p0 points) in *.
  set (padding := Qmax 20 (50 * patternScale settings)).
  assert (Hpad : 20 <= padding) by apply Q.le_max_l.
  set (step := Qmax 15 (50 * patternScale settings) * 0.8).
  assert (Hstep : 0 < step).
  { subst step. pose proof (Q.le_max_l 15 (50 * patternScale settings)). lra. }
  pose proof (grid_covers (minX b - padding) (maxX b + padding) step Hstep) as Hx.
  pose proof (grid_covers (minY b - padding) (maxY b + padding) step Hstep) as Hy.
  cbv zeta in Hx, Hy.
  set (xs := gridValues _ _ (maxX b + padding) step) in *.
  set (ys := gridValues _ _ (maxY b + padding) step) in *.
  rewrite (flat_map_constant_length _ ys (length xs)) by (intros gy; apply length_map).
  rewrite Nat2Z.inj_mul, inject_Z_mult.
  assert (Hcols : 0 <= (maxX b + padding - (minX b - padding)) / step)
    by (apply Qle_shift_div_l; lra).
  assert (Hrows : 0 <= (maxY b + padding - (minY b - padding)) / step)
    by (apply Qle_shift_div_l; lra).
  set (cols := (maxX b + padding - (minX b - padding)) / step) in *.
  set (rows := (maxY b + padding - (minY b - padding)) / step) in *.
  set (nx := inject_Z (Z.of_nat (length xs))) in *.
  set (ny := inject_Z (Z.of_nat (length ys))) in *.
  nra.
Qed.



(** Within the limits both tools stamp and commit. *)
Example drawPatternLasso_small_triangle :
  let s := drawPatternLasso demoStampLasso demoSettings
             [mkPoint2 0 0; mkPoint2 100 0; mkPoint2 50 80] patternEngine in
  length (history s) = 2%nat /\
  layerCanvases s !! "layer-1"%string = Some (mkImageData 2 2 (repeat 77%Z 16)).
Proof. vm_compute. split; reflexivity. Qed.

Example drawPatternLine_short_line :
  let s := drawPatternLine hypotExact demoStampLine demoSettings 0 0 300 400 patternEngine in
  hypotExact 300 400 == 500 /\ lineSteps demoSettings 500 = 20%Z /\
  length (history s) = 2%nat /\
  layerCanvases s !! "layer-1"%string = Some (mkImageData 2 2 (repeat 88%Z 16)).
Proof. vm_compute. repeat split; reflexivity. Qed.

Example lassoTileCount_large :
  Qred (lassoTileCount demoSettings (mkPoint2 0 0)
          [mkPoint2 0 0; mkPoint2 3000 0; mkPoint2 0 3000]) == 24025 # 4.
Proof. vm_compute. reflexivity. Qed.


End PatternFacts.

(** ** Paint load *)

Module StrokeFacts.
Import Settings Stroke.
Local Open Scope Q_scope.

Lemma Qmax_0_range (v : Q) : v <= 1 -> 0 <= Qmax 0 v <= 1.
Proof. intros Hv. split; [apply Q.le_max_l | apply Q.max_lub; lra]. Qed.

Lemma Qmax_half_range (v : Q) : 0 <= v <= 1 -> 0 <= Qmax v 0.5 <= 1.
Proof.
  intros Hv. split; [|apply Q.max_lub; lra].
  apply Qle_trans with v; [lra | apply Q.le_max_l].
Qed.

Lemma Qmin_1_range (v : Q) : 0 <= v -> 0 <= Qmin 1 (v + 0.05) <= 1.
Proof. intros Hv. split; [apply Q.min_glb; lra | apply Q.le_min_l]. Qed.

Lemma stampBristle_range settings speedFactor smp load br :
  0 <= load <= 1 -> 0 <= fst (stampBristle settings speedFactor smp load br) <= 1.
Proof.
  intros Hl. unfold stampBristle. cbv zeta.
  destruct (_ && Qltb _ _); [exact Hl|].
  destruct (wetPixel smp) as [[[[er eg] eb] ea]|]; [|exact Hl].
  destruct (_ && _); [|exact Hl].
  destruct (negb (hasPaint br)); cbn [fst].
  - apply Qmax_half_range, Hl.
  - apply Qmin_1_range, Hl.
Qed.

Lemma stampBristle_dry settings speedFactor smp load br :
  wetMode settings = false -> fst (stampBristle settings speedFactor smp load br) = load.
Proof.
  intros Hdry. unfold stampBristle. cbv zeta. rewrite Hdry.
  destruct (_ && Qltb _ _); [reflexivity|].
  destruct (wetPixel smp) as [[[[er eg] eb] ea]|]; reflexivity.
Qed.

Lemma bristleLoop_range settings speedFactor samples bIndex load bs :
  0 <= load <= 1 ->
  0 <= fst (bristleLoop settings speedFactor samples bIndex load bs) <= 1.
Proof.
  revert bIndex load. induction bs as [|br rest IH]; intros bIndex load Hl; [exact Hl|].
  cbn [bristleLoop].
  pose proof (stampBristle_range settings speedFactor (samples bIndex) load br Hl) as H1.
  destruct (stampBristle _ _ _ load br) as [load1 br1]. cbn [fst] in H1.
  specialize (IH (S bIndex) load1 H1).
  destruct (bristleLoop _ _ _ (S bIndex) load1 rest) as [load2 rest']. exact IH.
Qed.

Lemma bristleLoop_dry settings speedFactor samples bIndex load bs :
  wetMode settings = false ->
  fst (bristleLoop settings speedFactor samples bIndex load bs) = load.
Proof.
  intros Hdry. revert bIndex load.
  induction bs as [|br rest IH]; intros bIndex load; [reflexivity|].
  cbn [bristleLoop].
  pose proof (stampBristle_dry settings speedFactor (samples bIndex) load br Hdry) as H1.
  destruct (stampBristle _ _ _ load br) as [load1 br1]. cbn [fst] in H1. subst load1.
  specialize (IH (S bIndex) load).
  destruct (bristleLoop _ _ _ (S bIndex) load rest) as [load2 rest']. exact IH.
Qed.

Lemma instanceLoop_range settings speedFactor samples count cIndex load bs :
  0 <= load <= 1 ->
  0 <= fst (instanceLoop settings speedFactor samples count cIndex load bs) <= 1.
Proof.
  revert cIndex load bs. induction count as [|count IH]; intros cIndex load bs Hl; [exact Hl|].
  cbn [instanceLoop].
  pose proof (bristleLoop_range settings speedFactor (samples cIndex) 0 load bs Hl) as H1.
  destruct (bristleLoop _ _ _ 0%nat load bs) as [load1 bs1]. apply IH, H1.
Qed.

Lemma instanceLoop_dry settings speedFactor samples count cIndex load bs :
  wetMode settings = false ->
  fst (instanceLoop settings speedFactor samples count cIndex load bs) = load.
Proof.
  intros Hdry. revert cIndex load bs.
  induction count as [|count IH]; intros cIndex load bs; [reflexivity|].
  cbn [instanceLoop].
  pose proof (bristleLoop_dry settings speedFactor (samples cIndex) 0 load bs Hdry) as H1.
  destruct (bristleLoop _ _ _ 0%nat load bs) as [load1 bs1]. cbn [fst] in H1. subst load1.
  apply IH.
Qed.

Lemma stepSizeOf_pos settings p1 p2 : 1.5 <= stepSizeOf settings p1 p2.
Proof.
  unfold stepSizeOf. cbv zeta.
  destruct (BrushType_eqb _ pastel2); [apply Q.le_max_l|].
  destruct (BrushType_eqb _ pastel); apply Q.le_max_l.
Qed.

Lemma depletion_nonneg settings speedFactor stepSize load :
  0 <= speedFactor -> 0 <= stepSize -> 0 <= depletion settings speedFactor stepSize load.
Proof.
  intros Hs Hz. unfold depletion. cbv zeta.
  apply Qmult_le_0_compat; [|exact Hz].
  apply Qmult_le_0_compat; [|lra].
  destruct (_ && negb _); [lra|].
  destruct (_ && Qltb _ _); [lra|].
  destruct (wetMode settings); lra.
Qed.

Lemma stepLoop_range settings speedFactor stepSize samples count iIndex load bs :
  0 <= speedFactor -> 0 <= stepSize -> 0 <= load <= 1 ->
  0 <= fst (stepLoop settings speedFactor stepSize samples count iIndex load bs) <= 1.
Proof.
  intros Hs Hz. revert iIndex load bs.
  induction count as [|count IH]; intros iIndex load bs Hl; [exact Hl|].
  cbn [stepLoop]. cbv zeta.
  pose proof (depletion_nonneg settings speedFactor stepSize load Hs Hz) as Hd.
  assert (H1 : 0 <= Qmax 0 (load - depletion settings speedFactor stepSize load) <= 1)
    by (apply Qmax_0_range; lra).
  pose proof (instanceLoop_range settings speedFactor (samples iIndex)
                (if isPastelType (brushType settings) then 2%nat else 1%nat) 0 _ bs H1) as H2.
  destruct (instanceLoop _ _ _ _ _ _ bs) as [load2 bs2]. apply IH, H2.
Qed.

Lemma stepLoop_dry settings speedFactor stepSize samples count iIndex load bs :
  wetMode settings = false ->
  0 <= speedFactor -> 0 <= stepSize -> 0 <= load ->
  0 <= fst (stepLoop settings speedFactor stepSize samples count iIndex load bs) <= load.
Proof.
  intros Hdry Hs Hz. revert iIndex load bs.
  induction count as [|count IH]; intros iIndex load bs Hl; [cbn; lra|].
  cbn [stepLoop]. cbv zeta.
  pose proof (depletion_nonneg settings speedFactor stepSize load Hs Hz) as Hd.
  assert (H1 : 0 <= Qmax 0 (load - depletion settings speedFactor stepSize load) <= load)
    by (split; [apply Q.le_max_l | apply Q.max_lub; lra]).
  pose proof (instanceLoop_dry settings speedFactor (samples iIndex)
                (if isPastelType (brushType settings) then 2%nat else 1%nat) 0
                (Qmax 0 (load - depletion settings speedFactor stepSize load)) bs Hdry) as H2.
  destruct (instanceLoop _ _ _ _ _ _ bs) as [load2 bs2]. cbn [fst] in H2. subst load2.
  destruct (IH (S iIndex) _ bs2 (proj1 H1)) as [Ha Hb]. split; [exact Ha | lra].
Qed.

(** *** Where a rise of the load comes from

    A pickup: a bristle lands on a pixel of the wet buffer whose alpha
    is above 20. *)

Lemma stampBristle_rise settings speedFactor smp load br :
  load < fst (stampBristle settings speedFactor smp load br) ->
  wetMode settings = true /\
  exists er eg eb ea, wetPixel smp = Some (er, eg, eb, ea) /\ (20 < ea)%Z.
Proof.
  unfold stampBristle. cbv zeta.
  destruct (_ && Qltb _ _); [cbn [fst]; lra|].
  destruct (wetPixel smp) as [[[[er eg] eb] ea]|]; [|cbn [fst]; lra].
  destruct (wetMode settings); cbn [andb]; [|cbn [fst]; lra].
  destruct (Z.ltb_spec 20 ea) as [Ha|Ha]; [|cbn [fst]; lra].
  intros _. split; [reflexivity|]. exists er, eg, eb, ea. split; [reflexivity | exact Ha].
Qed.

Lemma bristleLoop_length settings speedFactor samples bIndex load bs :
  List.length (snd (bristleLoop settings speedFactor samples bIndex load bs)) = List.length bs.
Proof.
  revert bIndex load. induction bs as [|br rest IH]; intros bIndex load; [reflexivity|].
  cbn [bristleLoop].
  destruct (stampBristle _ _ _ load br) as [load1 br1].
  specialize (IH (S bIndex) load1).
  destruct (bristleLoop _ _ _ (S bIndex) load1 rest) as [load2 rest'].
  cbn [snd List.length] in *. lia.
Qed.

Lemma bristleLoop_rise settings speedFactor samples bIndex load bs :
  load < fst (bristleLoop settings speedFactor samples bIndex load bs) ->
  wetMode settings = true /\
  exists (b : nat) er eg eb ea,
    (bIndex <= b < bIndex + List.length bs)%nat /\
    wetPixel (samples b) = Some (er, eg, eb, ea) /\ (20 < ea)%Z.
Proof.
  revert bIndex load. induction bs as [|br rest IH]; intros bIndex load; [cbn; lra|].
  cbn [bristleLoop].
  pose proof (stampBristle_rise settings speedFactor (samples bIndex) load br) as Hhere.
  destruct (stampBristle _ _ _ load br) as [load1 br1]. cbn [fst] in Hhere.
  specialize (IH (S bIndex) load1).
  destruct (bristleLoop _ _ _ (S bIndex) load1 rest) as [load2 rest']. cbn [fst] in *.
  intros Hrise. destruct (Qlt_le_dec load load1) as [Hlt|Hle].
  - destruct (Hhere Hlt) as (Hwet & er & eg & eb & ea & Hpx & Ha).
    split; [exact Hwet|]. exists bIndex, er, eg, eb, ea.
    cbn [List.length]. split; [lia|]. split; assumption.
  - destruct (IH ltac:(lra)) as (Hwet & b & er & eg & eb & ea & Hb & Hpx & Ha).
    split; [exact Hwet|]. exists b, er, eg, eb, ea.
    cbn [List.length]. split; [lia|]. split; assumption.
Qed.

Lemma instanceLoop_length settings speedFactor samples count cIndex load bs :
  List.length (snd (instanceLoop settings speedFactor samples count cIndex load bs))
  = List.length bs.
Proof.
  revert cIndex load bs. induction count as [|count IH]; intros cIndex load bs; [reflexivity|].
  cbn [instanceLoop].
  pose proof (bristleLoop_length settings speedFactor (samples cIndex) 0 load bs) as H1.
  destruct (bristleLoop _ _ _ 0%nat load bs) as [load1 bs1]. cbn [snd] in H1.
  rewrite IH. exact H1.
Qed.

Lemma instanceLoop_rise settings speedFactor samples count cIndex load bs :
  load < fst (instanceLoop settings speedFactor samples count cIndex load bs) ->
  wetMode settings = true /\
  exists (c b : nat) er eg eb ea,
    (cIndex <= c < cIndex + count)%nat /\ (b < List.length bs)%nat /\
    wetPixel (samples c b) = Some (er, eg, eb, ea) /\ (20 < ea)%Z.
Proof.
  revert cIndex load bs. induction count as [|count IH]; intros cIndex load bs; [cbn; lra|].
  cbn [instanceLoop].
  pose proof (bristleLoop_rise settings speedFactor (samples cIndex) 0 load bs) as Hhere.
  pose proof (bristleLoop_length settings speedFactor (samples cIndex) 0 load bs) as Hlen.
  destruct (bristleLoop _ _ _ 0%nat load bs) as [load1 bs1]. cbn [fst snd] in Hhere, Hlen.
  intros Hrise. destruct (Qlt_le_dec load load1) as [Hlt|Hle].
  - destruct (Hhere Hlt) as (Hwet & b & er & eg & eb & ea & Hb & Hpx & Ha).
    split; [exact Hwet|]. exists cIndex, b, er, eg, eb, ea.
    split; [lia|]. split; [lia|]. split; assumption.
  - destruct (IH (S cIndex) load1 bs1 ltac:(lra))
      as (Hwet & c & b & er & eg & eb & ea & Hc & Hb & Hpx & Ha).
    split; [exact Hwet|]. exists c, b, er, eg, eb, ea.
    split; [lia|]. split; [lia|]. split; assumption.
Qed.

Lemma stepLoop_rise settings speedFactor stepSize samples count iIndex load bs :
  0 <= speedFactor -> 0 <= stepSize -> 0 <= load <= 1 ->
  load < fst (stepLoop settings speedFactor stepSize samples count iIndex load bs) ->
  wetMode settings = true /\
  exists (i c b : nat) er eg eb ea,
    (c < (if isPastelType (brushType settings) then 2 else 1))%nat /\
    (b < List.length bs)%nat /\
    wetPixel (samples i c b) = Some (er, eg, eb, ea) /\ (20 < ea)%Z.
Proof.
  intros Hs Hz. revert iIndex load bs.
  induction count as [|count IH]; intros iIndex load bs Hl; [cbn; lra|].
  cbn [stepLoop]. cbv zeta.
  pose proof (depletion_nonneg settings speedFactor stepSize load Hs Hz) as Hd.
  set (load1 := Qmax 0 (load - depletion settings speedFactor stepSize load)).
  assert (H1 : 0 <= load1 <= load)
    by (subst load1; split; [apply Q.le_max_l | apply Q.max_lub; lra]).
  pose proof (instanceLoop_rise settings speedFactor (samples iIndex)
                (if isPastelType (brushType settings) then 2%nat else 1%nat) 0 load1 bs)
    as Hhere.
  pose proof (instanceLoop_range settings speedFactor (samples iIndex)
                (if isPastelType (brushType settings) then 2%nat else 1%nat) 0 load1 bs
                ltac:(lra)) as Hrange.
  pose proof (instanceLoop_length settings speedFactor (samples iIndex)
                (if isPastelType (brushType settings) then 2%nat else 1%nat) 0 load1 bs)
    as Hlen.
  destruct (instanceLoop _ _ _ _ _ _ bs) as [load2 bs2]. cbn [fst snd] in Hhere, Hrange, Hlen.
  intros Hrise. destruct (Qlt_le_dec load1 load2) as [Hlt|Hle].
  - destruct (Hhere Hlt) as (Hwet & c & b & er & eg & eb & ea & Hc & Hb & Hpx & Ha).
    split; [exact Hwet|]. exists iIndex, c, b, er, eg, eb, ea.
    split; [lia|]. split; [exact Hb|]. split; assumption.
  - destruct (IH (S iIndex) load2 bs2 Hrange ltac:(lra))
      as (Hwet & i & c & b & er & eg & eb & ea & Hc & Hb & Hpx & Ha).
    split; [exact Hwet|]. exists i, c, b, er, eg, eb, ea.
    split; [exact Hc|]. split; [lia|]. split; assumption.
Qed.

Section Geometry.

Variable Math_hypot : Q -> Q -> Q.
Hypothesis Math_hypot_nonneg : forall a b, 0 <= Math_hypot a b.

Lemma speedFactor_nonneg (dist : Q) : 0 <= dist -> 0 <= Qmin (dist / 15) 1.
Proof.
  intros Hd. apply Q.min_glb; [|lra].
  apply Qle_shift_div_l; lra.
Qed.

Lemma drawSegment_range settings ctx samples px py pp st :
  0 <= paintLoad st <= 1 ->
  0 <= paintLoad (drawSegment Math_hypot settings ctx samples px py pp st) <= 1.
Proof.
  intros Hl. unfold drawSegment. cbv zeta.
  destruct (_ || _); [exact Hl|].
  destruct (_ && hasMoved st); [exact Hl|].
  set (dist := Math_hypot _ _).
  set (stepSize := stepSizeOf _ _ _).
  pose proof (stepSizeOf_pos settings (pressure (lastPoint st)) pp).
  pose proof (stepLoop_range settings (Qmin (dist / 15) 1) stepSize samples
                (Z.to_nat (Qceiling (dist / stepSize) + 1)) 0 (paintLoad st) (bristles st)
                (speedFactor_nonneg dist (Math_hypot_nonneg _ _))
                ltac:(subst stepSize; lra) Hl) as H1.
  destruct (stepLoop _ _ _ _ _ _ _ _) as [load bs]. exact H1.
Qed.

Lemma drawSegment_dry settings ctx samples px py pp st :
  wetMode settings = false -> 0 <= paintLoad st ->
  paintLoad (drawSegment Math_hypot settings ctx samples px py pp st) <= paintLoad st.
Proof.
  intros Hdry Hl. unfold drawSegment. cbv zeta.
  destruct (_ || _); [lra|].
  destruct (_ && hasMoved st); [lra|].
  set (dist := Math_hypot _ _).
  set (stepSize := stepSizeOf _ _ _).
  pose proof (stepSizeOf_pos settings (pressure (lastPoint st)) pp).
  pose proof (stepLoop_dry settings (Qmin (dist / 15) 1) stepSize samples
                (Z.to_nat (Qceiling (dist / stepSize) + 1)) 0 (paintLoad st) (bristles st)
                Hdry (speedFactor_nonneg dist (Math_hypot_nonneg _ _))
                ltac:(subst stepSize; lra) Hl) as H1.
  destruct (stepLoop _ _ _ _ _ _ _ _) as [load bs]. apply H1.
Qed.

Lemma drawSegment_rise settings ctx samples px py pp st :
  0 <= paintLoad st <= 1 ->
  paintLoad st < paintLoad (drawSegment Math_hypot settings ctx samples px py pp st) ->
  wetMode settings = true /\
  exists (i c b : nat) er eg eb ea,
    (c < (if isPastelType (brushType settings) then 2 else 1))%nat /\
    (b < List.length (bristles st))%nat /\
    wetPixel (samples i c b) = Some (er, eg, eb, ea) /\ (20 < ea)%Z.
Proof.
  intros Hl. unfold drawSegment. cbv zeta.
  destruct (_ || _); [lra|].
  destruct (_ && hasMoved st); [lra|].
  set (dist := Math_hypot _ _).
  set (stepSize := stepSizeOf _ _ _).
  pose proof (stepSizeOf_pos settings (pressure (lastPoint st)) pp).
  pose proof (stepLoop_rise settings (Qmin (dist / 15) 1) stepSize samples
                (Z.to_nat (Qceiling (dist / stepSize) + 1)) 0 (paintLoad st) (bristles st)
                (speedFactor_nonneg dist (Math_hypot_nonneg _ _))
                ltac:(subst stepSize; lra) Hl) as H1.
  destruct (stepLoop _ _ _ _ _ _ _ _) as [load bs]. exact H1.
Qed.

Lemma startStroke_paintLoad settings px py pp st :
  paintLoad (startStroke settings px py pp st) =
  if autoClean settings then 1 else Qmax (paintLoad st) 0.5.
Proof. unfold startStroke. destruct (autoClean settings); reflexivity. Qed.

Lemma endStroke_paintLoad st : paintLoad (endStroke st) = paintLoad st.
Proof. unfold endStroke. destruct (isDrawing st); reflexivity. Qed.

Lemma strokeStep_range st o :
  0 <= paintLoad st <= 1 -> 0 <= paintLoad (strokeStep Math_hypot st o) <= 1.
Proof.
  intros Hl. destruct o; cbn [strokeStep].
  - rewrite startStroke_paintLoad. destruct (autoClean settings); [lra|].
    apply Qmax_half_range, Hl.
  - apply drawSegment_range, Hl.
  - rewrite endStroke_paintLoad. exact Hl.
  - exact Hl.
Qed.

Lemma runStroke_range ops st :
  0 <= paintLoad st <= 1 -> 0 <= paintLoad (runStroke Math_hypot ops st) <= 1.
Proof.
  revert st. induction ops as [|o ops IH]; intros st Hl; [exact Hl|].
  apply IH, strokeStep_range, Hl.
Qed.

(** C4. In every state a sequence of stroke operations can reach,
    [paintLoad] is within [0, 1]. From such a state a [drawSegment] in dry
    mode does not increase it; [startStroke] sets it to 1 with auto-clean and
    to [max paintLoad 0.5] without; and an operation that increases it is a
    [startStroke], or a [drawSegment] in wet mode during which a bristle of
    the brush landed on a pixel of the wet buffer with alpha above 20 (a
    pickup). *)
Theorem paintLoad_conservation (ops : list StrokeOp) :
  let st := runStroke Math_hypot ops initialStroke in
  0 <= paintLoad st <= 1 /\
  (forall settings ctx samples px py pp,
      wetMode settings = false ->
      paintLoad (drawSegment Math_hypot settings ctx samples px py pp st) <= paintLoad st) /\
  (forall settings px py pp,
      paintLoad (startStroke settings px py pp st) =
        (if autoClean settings then 1 else Qmax (paintLoad st) 0.5) /\
      0.5 <= paintLoad (startStroke settings px py pp st) <= 1) /\
  (forall o,
      paintLoad st < paintLoad (strokeStep Math_hypot st o) ->
      match o with
      | OpStartStroke _ _ _ _ => True
      | OpDrawSegment settings _ samples _ _ _ =>
          wetMode settings = true /\
          exists (i c b : nat) (er eg eb ea : Z),
            (c < (if isPastelType (brushType settings) then 2 else 1))%nat /\
            (b < List.length (bristles st))%nat /\
            wetPixel (samples i c b) = Some (er, eg, eb, ea) /\ (20 < ea)%Z
      | OpEndStroke | OpSetBristles _ => False
      end).
Proof.
  intros st.
  assert (Hst : 0 <= paintLoad st <= 1) by (apply runStroke_range; cbn; lra).
  split; [exact Hst|]. split; [|split].
  - intros settings ctx samples px py pp Hdry. apply drawSegment_dry; [exact Hdry | lra].
  - intros settings px py pp. split; [apply startStroke_paintLoad|].
    rewrite startStroke_paintLoad. destruct (autoClean settings); [lra|].
    split; [apply Q.le_max_r | apply Q.max_lub; lra].
  - intros o Hinc. destruct o; cbn [strokeStep] in Hinc.
    + exact I.
    + apply (drawSegment_rise settings hasContexts samples px py ppressure st Hst Hinc).
    + rewrite endStroke_paintLoad in Hinc. lra.
    + cbn [paintLoad] in Hinc. lra.
Qed.

End Geometry.

Lemma hypotExact_nonneg (a b : Q) : 0 <= PatternTools.hypotExact a b.
Proof.
  unfold PatternTools.hypotExact, PatternTools.sqrtExact, Qle. cbn [Qnum Qden].
  rewrite Z.mul_1_r. apply Z.sqrt_nonneg.
Qed.

Example demoStroke_paintLoad :
  paintLoad (runStroke PatternTools.hypotExact StrokeDemo.demoStrokeOps initialStroke)
  == 0.51808.
Proof. vm_compute. reflexivity. Qed.

Example wetSegment_raises_paintLoad :
  let st := mkStrokeState false (mkPoint 0 0 0.5) false 0.6 StrokeDemo.demoBristles in
  let st' := drawSegment PatternTools.hypotExact StrokeDemo.wetSettings true
               StrokeDemo.wetSamples 450 257 0.5
               (startStroke StrokeDemo.wetSettings 450 256 0.5 st) in
  paintLoad st' == 0.649616.
Proof. vm_compute. reflexivity. Qed.

Lemma paintLoad_conservation_witness :
  let st := runStroke PatternTools.hypotExact StrokeDemo.demoStrokeOps initialStroke in
  0 <= paintLoad st <= 1 /\
  paintLoad (drawSegment PatternTools.hypotExact StrokeDemo.drySettings true
               StrokeDemo.drySamples 50 256 0.5
               (startStroke StrokeDemo.wetSettings 450 256 0.5 st))
    <= paintLoad (startStroke StrokeDemo.wetSettings 450 256 0.5 st) /\
  0.5 <= paintLoad (startStroke StrokeDemo.wetSettings 450 256 0.5 st) <= 1.
Proof.
  intros st.
  destruct (paintLoad_conservation PatternTools.hypotExact hypotExact_nonneg
              StrokeDemo.demoStrokeOps) as (Hrange & _ & Hstart & _).
  destruct (paintLoad_conservation PatternTools.hypotExact hypotExact_nonneg
              (StrokeDemo.demoStrokeOps ++
               [OpStartStroke StrokeDemo.wetSettings 450 256 0.5]))
    as (_ & Hdry & _).
  split; [exact Hrange|]. split.
  - unfold runStroke in Hdry. rewrite fold_left_app in Hdry.
    apply (Hdry StrokeDemo.drySettings true StrokeDemo.drySamples). reflexivity.
  - apply Hstart.
Defined.

End StrokeFacts.

(** ** How many bristles [updateBristles] makes *)

Module BristleFacts.
Import Settings Stroke Bristles.
Local Open Scope Q_scope.

Lemma insertByDy_length (br : Bristle) (sorted : list Bristle) :
  List.length (insertByDy br sorted) = S (List.length sorted).
Proof.
  induction sorted as [|hd tl IH]; [reflexivity|].
  cbn [insertByDy]. destruct (Qltb _ _); cbn [List.length]; [reflexivity|].
  rewrite IH. reflexivity.
Qed.

Lemma sortByDy_length (bs : list Bristle) : List.length (sortByDy bs) = List.length bs.
Proof.
  unfold sortByDy.
  assert (Hgen : forall l acc,
            List.length (fold_left (fun sorted br => insertByDy br sorted) l acc)
            = (List.length l + List.length acc)%nat).
  { induction l as [|x l IH]; intros acc; [reflexivity|].
    cbn [fold_left List.length]. rewrite IH, insertByDy_length. lia. }
  rewrite Hgen. cbn [List.length]. lia.
Qed.

Example sortByDy_stable :
  map dx (sortByDy [mkBristle 1 0.3 1 1 0 0 0 0 (mkColorRGB 0 0 0) true;
                    mkBristle 2 0.1 1 1 0 0 0 0 (mkColorRGB 0 0 0) true;
                    mkBristle 3 0.3 1 1 0 0 0 0 (mkColorRGB 0 0 0) true])
  = [2; 1; 3].
Proof. reflexivity. Qed.

Section Generator.

Variable Math_random : nat -> Q.
Variables Math_cos Math_sin Math_sqrt : Q -> Q.
Variables Math_pow Math_hypot : Q -> Q -> Q.
Variable Math_PI : Q.
Variable randomSort : list Bristle -> Rand (list Bristle).

Local Abbreviation candidate := (candidate Math_random Math_cos Math_sin Math_pow Math_PI).
Local Abbreviation bristleCandidates :=
  (bristleCandidates Math_random Math_cos Math_sin Math_pow Math_PI).
Local Abbreviation updateBristles :=
  (updateBristles Math_random Math_cos Math_sin Math_sqrt Math_pow Math_hypot Math_PI
     randomSort).

(** Only the [fan2] body has a [continue]. *)
Lemma candidate_kept (type : BrushType) (i bristleCount : Z) (n : nat) :
  type <> fan2 -> is_Some (fst (candidate type i bristleCount n)).
Proof.
  intros Htype. destruct type; try congruence; cbn; eauto.
Qed.

(** A [fan2] candidate is dropped exactly when its offset [t] is more than
    0.2 away from the centre and the next draw is below 0.4. *)
Lemma candidate_fan2_culled (i bristleCount : Z) (n : nat) :
  fst (candidate fan2 i bristleCount n) = None <->
  0.2 < Qabs ((Math_random n - 0.5) * 2.5) /\ Math_random (S n) < 0.4.
Proof.
  cbn [Bristles.candidate]. unfold bind, ret, random.
  unfold Qltb.
  destruct (Qle_bool (Qabs ((Math_random n - 0.5) * 2.5)) 0.2) eqn:Ecentre; cbn [negb].
  - apply Qle_bool_iff in Ecentre. cbn [fst]. split; [discriminate|].
    intros [Hfar _]. exfalso. apply (Qlt_not_le _ _ Hfar Ecentre).
  - assert (Hfar : 0.2 < Qabs ((Math_random n - 0.5) * 2.5)).
    { apply Qnot_le_lt. intros Hle. apply Qle_bool_iff in Hle. congruence. }
    destruct (Qle_bool 0.4 (Math_random (S n))) eqn:Edraw; cbn [negb fst].
    + apply Qle_bool_iff in Edraw. split; [discriminate|].
      intros [_ Hlow]. exfalso. apply (Qlt_not_le _ _ Hlow Edraw).
    + split; [|reflexivity]. intros _. split; [exact Hfar|].
      apply Qnot_le_lt. intros Hle. apply Qle_bool_iff in Hle. congruence.
Qed.

Lemma pushBristle_runs baseColor startWithPaint geometry n :
  exists br,
    pushBristle Math_random baseColor startWithPaint geometry n = (br, (7 + n)%nat).
Proof. destruct geometry as [[[gx gy] gl] gt]. eexists. reflexivity. Qed.

Lemma bristleCandidates_length_le type baseColor startWithPaint bristleCount todo i n :
  (List.length (fst (bristleCandidates type baseColor startWithPaint bristleCount todo i n))
   <= todo)%nat.
Proof.
  revert i n. induction todo as [|todo IH]; intros i n; [cbn; lia|].
  cbn [Bristles.bristleCandidates]. unfold bind at 1.
  destruct (candidate type i bristleCount n) as [[geo|] n1].
  - unfold bind at 1.
    destruct (pushBristle_runs baseColor startWithPaint geo n1) as [br ->].
    unfold bind at 1, ret.
    specialize (IH (i + 1)%Z (7 + n1)%nat).
    destruct (bristleCandidates _ _ _ _ todo _ _) as [rest n2].
    cbn [fst List.length] in *. lia.
  - specialize (IH (i + 1)%Z n1). lia.
Qed.

Lemma bristleCandidates_length type baseColor startWithPaint bristleCount todo i n :
  type <> fan2 ->
  List.length (fst (bristleCandidates type baseColor startWithPaint bristleCount todo i n))
  = todo.
Proof.
  intros Htype. revert i n. induction todo as [|todo IH]; intros i n; [reflexivity|].
  cbn [Bristles.bristleCandidates]. unfold bind at 1.
  pose proof (candidate_kept type i bristleCount n Htype) as Hkept.
  destruct (candidate type i bristleCount n) as [[geo|] n1];
    [|destruct Hkept; discriminate].
  unfold bind at 1.
  destruct (pushBristle_runs baseColor startWithPaint geo n1) as [br ->].
  unfold bind at 1, ret.
  specialize (IH (i + 1)%Z (7 + n1)%nat).
  destruct (bristleCandidates _ _ _ _ todo _ _) as [rest n2].
  cbn [fst List.length] in *. lia.
Qed.

Lemma updateBristles_length_le settings type size n :
  isPastelType type = false ->
  (List.length (fst (updateBristles settings type size n))
   <= Z.to_nat (Qfloor (size * countMultiplier type)))%nat.
Proof.
  intros Hpastel. unfold Bristles.updateBristles. rewrite Hpastel. unfold bind, ret.
  pose proof (bristleCandidates_length_le type (colorOfHex (Settings.color settings))
                (negb (wetMode settings)) (Qfloor (size * countMultiplier type))
                (Z.to_nat (Qfloor (size * countMultiplier type))) 0%Z n) as Hle.
  destruct (bristleCandidates _ _ _ _ _ _ _) as [bs n']. cbn [fst] in *.
  rewrite sortByDy_length. exact Hle.
Qed.

Lemma updateBristles_length settings type size n :
  isPastelType type = false -> type <> fan2 ->
  List.length (fst (updateBristles settings type size n))
  = Z.to_nat (Qfloor (size * countMultiplier type)).
Proof.
  intros Hpastel Htype. unfold Bristles.updateBristles. rewrite Hpastel. unfold bind, ret.
  pose proof (bristleCandidates_length type (colorOfHex (Settings.color settings))
                (negb (wetMode settings)) (Qfloor (size * countMultiplier type))
                (Z.to_nat (Qfloor (size * countMultiplier type))) 0%Z n Htype) as Hlen.
  destruct (bristleCandidates _ _ _ _ _ _ _) as [bs n']. cbn [fst] in *.
  rewrite sortByDy_length. exact Hlen.
Qed.

(** C5, as the code has it. For a non-pastel type [updateBristles] runs
    [floor (size * multiplier)] candidates (multiplier 3.5 for [fan3], 1.5
    for the others) and every candidate becomes a bristle, except that under
    [fan2] a candidate whose offset is more than 0.2 away from the centre is
    dropped when the next draw is below 0.4; so the count is exactly
    [floor (size * multiplier)] for every type but [fan2], [fan3] included,
    and at most that for [fan2]. *)
Theorem updateBristles_count (settings : BrushSettings) (type : BrushType) (size : Q)
    (n : nat) :
  isPastelType type = false ->
  let made := List.length (fst (updateBristles settings type size n)) in
  let candidates := Z.to_nat (Qfloor (size * countMultiplier type)) in
  (made <= candidates)%nat /\
  (type <> fan2 -> made = candidates) /\
  (countMultiplier type = if BrushType_eqb type fan3 then 3.5 else 1.5) /\
  (forall i bristleCount k,
      fst (candidate fan2 i bristleCount k) = None <->
      0.2 < Qabs ((Math_random k - 0.5) * 2.5) /\ Math_random (S k) < 0.4).
Proof.
  intros Hpastel made candidates. subst made candidates.
  split; [|split; [|split]].
  - apply updateBristles_length_le, Hpastel.
  - intros Htype. apply updateBristles_length; assumption.
  - destruct type; reflexivity.
  - intros i bristleCount k. apply candidate_fan2_culled.
Qed.

End Generator.

Example fan3_size_10 : List.length (demoBristlesOf 0.5 fan3 10) = 35%nat.
Proof. vm_compute. reflexivity. Qed.

Example fan3_size_10_far_from_centre : List.length (demoBristlesOf 0 fan3 10) = 35%nat.
Proof. vm_compute. reflexivity. Qed.

Example fan2_size_10_centre : List.length (demoBristlesOf 0.5 fan2 10) = 15%nat.
Proof. vm_compute. reflexivity. Qed.

Example fan2_size_10_all_culled : List.length (demoBristlesOf 0 fan2 10) = 0%nat.
Proof. vm_compute. reflexivity. Qed.

Lemma updateBristles_count_witness :
  (List.length (demoBristlesOf 0 fan2 10) <= 15)%nat /\
  List.length (demoBristlesOf 0 fan3 10) = 35%nat.
Proof.
  split.
  - apply (updateBristles_count (constRandom 0) demoCos demoSin (fun v => v) demoPow
             PatternTools.hypotExact (355 # 113) demoSort
             (mkBrushSettings fan2 10 0.9 "#CC3333" false true true 1) fan2 10 0%nat).
    reflexivity.
  - apply (updateBristles_count (constRandom 0) demoCos demoSin (fun v => v) demoPow
             PatternTools.hypotExact (355 # 113) demoSort
             (mkBrushSettings fan3 10 0.9 "#CC3333" false true true 1) fan3 10 0%nat).
    + reflexivity.
    + discriminate.
Defined.

(** The claim as worded fails: whatever [Math.random] draws, the widest fan
    [fan3] never ends with fewer than [floor (size * 3.5)] bristles. *)
Lemma fan3_count_never_below_candidates :
  ~ exists (Math_random : nat -> Q) (Math_cos Math_sin Math_sqrt : Q -> Q)
           (Math_pow Math_hypot : Q -> Q -> Q) (Math_PI : Q)
           (randomSort : list Bristle -> Rand (list Bristle))
           (settings : BrushSettings) (size : Q) (n : nat),
      (List.length
         (fst (updateBristles Math_random Math_cos Math_sin Math_sqrt Math_pow Math_hypot
                 Math_PI randomSort settings fan3 size n))
       < Z.to_nat (Qfloor (size * 3.5)))%nat.
Proof.
  intros (rnd & cs & sn & sq & pw & hy & pi & srt & settings & size & n & Hless).
  rewrite (updateBristles_length rnd cs sn sq pw hy pi srt settings fan3 size n eq_refl)
    in Hless by discriminate.
  cbn [countMultiplier] in Hless. lia.
Qed.

End BristleFacts.

(** ** The height map of the paper *)

Module PaperTextureFacts.
Import Canvas CanvasFacts PaperTexture.
Local Open Scope Z_scope.
#[local] Set Warnings "-inexact-float".

(** What a [Uint8ClampedArray] holds is a byte. *)
Lemma toUint8Clamp_range (x : float) : 0 <= toUint8Clamp x <= 255.
Proof.
  unfold toUint8Clamp.
  destruct (Prim2SF x) as [[|]|[|]| |[|] mant e]; try lia.
  cbv zeta.
  destruct (Z.leb_spec 0 e) as [He|He].
  - assert (0 < 2 ^ e) by (apply Z.pow_pos_nonneg; lia). nia.
  - assert (Hp : 0 < 2 ^ (- e)) by (apply Z.pow_pos_nonneg; lia).
    pose proof (Z.div_pos (Z.pos mant) (2 ^ (- e)) ltac:(lia) Hp).
    destruct (_ <? _); [lia|]. destruct (_ <? _); [lia|]. destruct (Z.even _); lia.
Qed.

Section Sources.

Variable Math_pow : float -> float -> float.

Local Abbreviation physicsAlpha := (physicsAlpha Math_pow).
Local Abbreviation pixelLoop := (pixelLoop Math_pow).
Local Abbreviation spec_heightPixel := (spec_heightPixel Math_pow).

Lemma physicsAlpha_spec (R G B : Z) :
  [0; 0; 0; toUint8Clamp (physicsAlpha R G B)] = spec_heightPixel R G B.
Proof. reflexivity. Qed.

Lemma pixelLoop_length (d : list Z) :
  length (fst (pixelLoop d)) = length d /\ length (snd (pixelLoop d)) = length d.
Proof.
  induction d as [d IH] using (well_founded_induction (well_founded_ltof _ (@length Z))).
  destruct d as [|r [|g [|b [|a rest]]]]; try (split; reflexivity).
  cbn [PaperTexture.pixelLoop].
  destruct (IH rest) as [Hv Hh]; [unfold ltof; cbn [length]; lia|].
  destruct (pixelLoop rest) as [vRest hRest]. cbn [fst snd length] in *. lia.
Qed.

(** The [i]-th pixel the loop writes. *)
Lemma pixelLoop_pixel (i : nat) (d : list Z) :
  (4 * i + 3 < length d)%nat ->
  let h := snd (pixelLoop d) in
  let v := fst (pixelLoop d) in
  [nth (4 * i) h 0; nth (4 * i + 1) h 0; nth (4 * i + 2) h 0; nth (4 * i + 3) h 0]
  = [0; 0; 0;
     toUint8Clamp
       (physicsAlpha (nth (4 * i) d 0) (nth (4 * i + 1) d 0) (nth (4 * i + 2) d 0))] /\
  [nth (4 * i) v 0; nth (4 * i + 1) v 0; nth (4 * i + 2) v 0; nth (4 * i + 3) v 0]
  = [nth (4 * i) d 0; nth (4 * i + 1) d 0; nth (4 * i + 2) d 0; 255].
Proof.
  revert d. induction i as [|i IH]; intros d Hlen.
  - destruct d as [|r [|g [|b [|a rest]]]]; cbn [length] in Hlen; try lia.
    cbn [PaperTexture.pixelLoop]. destruct (pixelLoop rest) as [vRest hRest].
    split; reflexivity.
  - destruct d as [|r [|g [|b [|a rest]]]]; cbn [length] in Hlen; try lia.
    cbn [PaperTexture.pixelLoop].
    specialize (IH rest ltac:(lia)). cbv zeta in IH.
    destruct (pixelLoop rest) as [vRest hRest]. cbn [fst snd] in *.
    replace (4 * S i)%nat with (S (S (S (S (4 * i))))) by lia.
    cbn [Nat.add nth]. exact IH.
Qed.

Variable drawScaledOnWhite : ImageData -> Z -> Z -> ImageData.
Variable proceduralImage : Z -> Z -> ImageData.

Local Abbreviation processPaperTexture := (processPaperTexture Math_pow drawScaledOnWhite).
Local Abbreviation createNoiseTexture :=
  (createNoiseTexture Math_pow drawScaledOnWhite proceduralImage).

(** C6. For a tile of positive size the height map is a [width × height]
    raster, and each of its pixels is black with the alpha the
    specification derives, in the arithmetic of the program, from the bytes
    (R, G, B) of the same pixel of the source, the image scaled onto the
    white tile: luminance, rejection [1 - L], zero below 0.02, else cubed
    times 64, clamped to [0, 1], times 255, floored and stored as a byte of
    the alpha channel, which is within [0, 255] whatever [Math.pow] returns
    and is 0 where the rejection is below 0.02.
    [createNoiseTexture] goes through the very same function with the
    procedural image as its source. *)
Theorem processPaperTexture_heightMap (img : ImageData) (width height x y : Z) :
  0 < width -> 0 < height -> 0 <= x < width -> 0 <= y < height ->
  let source := getImageData (drawScaledOnWhite img width height) width height in
  let texture := processPaperTexture img width height in
  Canvas.width (heightMap texture) = width /\
  Canvas.height (heightMap texture) = height /\
  match pixelAt source x y with
  | [R; G; B; _] =>
      pixelAt (heightMap texture) x y = spec_heightPixel R G B /\
      Forall (fun byte => 0 <= byte <= 255) (spec_heightPixel R G B) /\
      ((1 - spec_luminance R G B <? 0.02)%float = true ->
       pixelAt (heightMap texture) x y = [0; 0; 0; 0])
  | _ => False
  end /\
  createNoiseTexture width height
  = processPaperTexture (proceduralImage width height) width height.
Proof.
  intros Hw Hh Hx Hy source texture.
  assert (Eguard : ((width <=? 0) || (height <=? 0)) = false).
  { destruct (Z.leb_spec width 0); [lia|]. destruct (Z.leb_spec height 0); [lia|].
    reflexivity. }
  assert (Hsrc : wellFormed source) by (apply getImageData_wellFormed; lia).
  assert (Hlen : length (data source) = (4 * Z.to_nat (width * height))%nat).
  { destruct Hsrc as (_ & _ & Hl). cbn [source getImageData Canvas.width Canvas.height] in Hl.
    lia. }
  assert (Hnoise :
    createNoiseTexture width height
    = processPaperTexture (proceduralImage width height) width height)
    by (unfold PaperTexture.createNoiseTexture; rewrite Eguard; reflexivity).
  split; [|split; [|split; [|exact Hnoise]]];
    subst texture; unfold PaperTexture.processPaperTexture; rewrite Eguard; cbv zeta;
    fold source.
  all: cycle 2.
  - pose proof (pixelLoop_length (data source)) as [Hlv Hlh].
    set (i := Z.to_nat (y * width + x)).
    assert (Hi : (4 * i + 3 < length (data source))%nat) by (subst i; nia).
    pose proof (pixelLoop_pixel i (data source) Hi) as [Hpix _].
    destruct (pixelLoop (data source)) as [vData hData]. cbn [fst snd heightMap] in *.
    assert (Hwf : wellFormed (mkImageData width height hData)).
    { repeat split; cbn [Canvas.width Canvas.height data]; lia. }
    rewrite (putImageData_same_size (mkImageData width height hData) (blank width height) Hwf)
      by reflexivity.
    assert (Ei : Z.of_nat i = y * width + x) by (subst i; nia).
    assert (Ex : x = Z.of_nat i mod width)
      by (rewrite Ei; apply Z.mod_unique with y; lia).
    assert (Ey : y = Z.of_nat i / width)
      by (rewrite Ei; apply Z.div_unique with x; lia).
    rewrite Ex, Ey.
    pose proof (pixelAt_row_major source i) as Psrc.
    pose proof (pixelAt_row_major (mkImageData width height hData) i) as Phm.
    change (Canvas.width source) with width in Psrc.
    change (Canvas.height source) with height in Psrc.
    cbn [Canvas.width Canvas.height data] in Phm.
    rewrite Psrc, Phm by nia.
    rewrite Hpix. split; [apply physicsAlpha_spec|]. split.
    + unfold PaperTexture.spec_heightPixel.
      repeat constructor; try lia; apply toUint8Clamp_range.
    + intros Hfaint. unfold PaperTexture.physicsAlpha. cbv zeta.
      unfold spec_luminance in Hfaint. rewrite Hfaint. vm_compute. reflexivity.
  - destruct (pixelLoop (data source)) as [vData hData]. reflexivity.
  - destruct (pixelLoop (data source)) as [vData hData]. reflexivity.
Qed.

End Sources.

(** With the cube computed by two multiplications: white paper and faint
    grain leave no pore, light grey a shallow one, mid grey the deepest;
    and at (179, 229, 29), where the luminance is 0.75 in exact arithmetic,
    the binary64 luminance is just above it and the alpha is 254. *)
Example physicsAlpha_white :
  toUint8Clamp (physicsAlpha cubeByProducts 255 255 255) = 0.
Proof. vm_compute. reflexivity. Qed.

Example physicsAlpha_faint_grain :
  toUint8Clamp (physicsAlpha cubeByProducts 251 251 251) = 0.
Proof. vm_compute. reflexivity. Qed.

Example physicsAlpha_light_grey :
  toUint8Clamp (physicsAlpha cubeByProducts 230 230 230) = 15.
Proof. vm_compute. reflexivity. Qed.

Example physicsAlpha_mid_grey :
  toUint8Clamp (physicsAlpha cubeByProducts 128 128 128) = 255.
Proof. vm_compute. reflexivity. Qed.

Example physicsAlpha_rounding :
  toUint8Clamp (physicsAlpha cubeByProducts 179 229 29) = 254.
Proof. vm_compute. reflexivity. Qed.

Lemma processPaperTexture_heightMap_witness :
  pixelAt (heightMap (processPaperTexture cubeByProducts demoScaled (blank 4 4) 2 1)) 1 0
  = [0; 0; 0; 255] /\
  createNoiseTexture cubeByProducts demoScaled demoProcedural 2 1
  = processPaperTexture cubeByProducts demoScaled (demoProcedural 2 1) 2 1.
Proof.
  destruct (processPaperTexture_heightMap cubeByProducts demoScaled demoProcedural
              (blank 4 4) 2 1 1 0) as (_ & _ & Hpixel & Hnoise); try lia.
  split; [exact (proj1 Hpixel) | exact Hnoise].
Defined.

End PaperTextureFacts.

(** ** Properties of the text forms of a colour *)

Module TextFacts.
Import Hex Text HexFacts.
Local Open Scope Z_scope.

Lemma decDigit_is_digit (d : Z) : 0 <= d < 10 -> isDigit (decDigit d) = true.
Proof.
  intros Hd.
  assert (Hc : d = 0 \/ d = 1 \/ d = 2 \/ d = 3 \/ d = 4 \/ d = 5 \/ d = 6 \/ d = 7 \/
               d = 8 \/ d = 9) by lia.
  repeat (destruct Hc as [->|Hc]; [reflexivity|]). subst d. reflexivity.
Qed.

Lemma decDigit_value (d : Z) : 0 <= d < 10 -> Z.of_N (N_of_ascii (decDigit d)) - 48 = d.
Proof.
  intros Hd.
  assert (Hc : d = 0 \/ d = 1 \/ d = 2 \/ d = 3 \/ d = 4 \/ d = 5 \/ d = 6 \/ d = 7 \/
               d = 8 \/ d = 9) by lia.
  repeat (destruct Hc as [->|Hc]; [reflexivity|]). subst d. reflexivity.
Qed.

Lemma Number10_snoc (l : list ascii) (ch : ascii) :
  Number10 (l ++ [ch]) = 10 * Number10 l + (Z.of_N (N_of_ascii ch) - 48).
Proof. unfold Number10. rewrite fold_left_app. reflexivity. Qed.

(** With enough fuel [decDigits] prints a non-empty numeral that reads back
    as the number. *)
Lemma decDigits_spec (fuel : nat) :
  forall n, 0 <= n < 2 ^ Z.of_nat (S fuel) ->
    decDigits (S fuel) n <> [] /\
    forallb isDigit (decDigits (S fuel) n) = true /\
    Number10 (decDigits (S fuel) n) = n.
Proof.
  induction fuel as [|fuel IH]; intros n Hn.
  - change (2 ^ Z.of_nat 1) with 2 in Hn.
    cbn [decDigits]. destruct (Z.ltb_spec n 10) as [Hlt|Hge]; [|lia].
    split; [discriminate|]. split.
    + cbn [forallb]. rewrite decDigit_is_digit by lia. reflexivity.
    + unfold Number10. cbn [fold_left]. rewrite decDigit_value by lia. lia.
  - remember (S fuel) as fuel1 eqn:Ef.
    cbn [decDigits]. destruct (Z.ltb_spec n 10) as [Hlt|Hge].
    + split; [discriminate|]. split.
      * cbn [forallb]. rewrite decDigit_is_digit by lia. reflexivity.
      * unfold Number10. cbn [fold_left]. rewrite decDigit_value by lia. lia.
    + rewrite Nat2Z.inj_succ, Z.pow_succ_r in Hn by lia.
      pose proof (Z.div_mod n 10 ltac:(lia)) as Ediv.
      pose proof (Z.mod_pos_bound n 10 ltac:(lia)) as Hmod.
      assert (Hpow : 0 < 2 ^ Z.of_nat fuel1) by (apply Z.pow_pos_nonneg; lia).
      assert (Hq : 0 <= n / 10 < 2 ^ Z.of_nat fuel1)
        by (split; [apply Z.div_pos; lia | apply Z.div_lt_upper_bound; lia]).
      destruct (IH (n / 10) Hq) as (Hne & Hall & Hval).
      split; [|split].
      * intros E. apply app_eq_nil in E. destruct E as [_ E]. discriminate.
      * rewrite forallb_app, Hall. cbn [forallb].
        rewrite decDigit_is_digit by lia. reflexivity.
      * rewrite Number10_snoc, Hval, decDigit_value by lia. lia.
Qed.

Lemma toString10_nonneg (n : Z) :
  0 <= n ->
  exists digits,
    toString10 n = string_of_list_ascii digits /\ digits <> [] /\
    forallb isDigit digits = true /\ Number10 digits = n.
Proof.
  intros Hn. unfold toString10. rewrite Z.abs_eq by lia.
  destruct (Z.ltb_spec n 0) as [?|_]; [lia|].
  eexists. split; [reflexivity|].
  apply decDigits_spec. split; [lia|].
  rewrite Nat2Z.inj_succ, Z2Nat.id by apply Z.log2_nonneg.
  destruct (Z.eq_dec n 0) as [->|Hne]; [reflexivity|].
  apply Z.log2_spec. lia.
Qed.

Lemma digitRuns_digits (d : list ascii) :
  forall cur rest, forallb isDigit d = true ->
    digitRuns cur (d ++ rest) = digitRuns (cur ++ d) rest.
Proof.
  induction d as [|ch d IH]; intros cur rest Hd.
  - rewrite app_nil_r. reflexivity.
  - cbn [forallb] in Hd. apply andb_prop in Hd. destruct Hd as [Hch Hd].
    cbn [app digitRuns]. rewrite Hch, IH by exact Hd.
    rewrite <- app_assoc. reflexivity.
Qed.

Lemma list_ascii_of_string_append (a b : string) :
  list_ascii_of_string (String.append a b) = list_ascii_of_string a ++ list_ascii_of_string b.
Proof.
  induction a as [|ch a IH]; [reflexivity|].
  change (ch :: list_ascii_of_string (String.append a b)
          = ch :: (list_ascii_of_string a ++ list_ascii_of_string b)).
  rewrite IH. reflexivity.
Qed.

Lemma digitRuns_skip (ch : ascii) (rest : list ascii) :
  isDigit ch = false -> digitRuns [] (ch :: rest) = digitRuns [] rest.
Proof. intros Hch. cbn [digitRuns]. rewrite Hch. reflexivity. Qed.

Lemma digitRuns_after_run (d : list ascii) (sep : ascii) (rest : list ascii) :
  d <> [] -> forallb isDigit d = true -> isDigit sep = false ->
  digitRuns [] (d ++ sep :: rest) = d :: digitRuns [] rest.
Proof.
  intros Hne Hd Hsep. rewrite digitRuns_digits by exact Hd.
  cbn [app digitRuns]. rewrite Hsep. destruct d; [contradiction|reflexivity].
Qed.

(** [parseColor] reads back what [rgbToString] printed: three non-negative
    integers below [2^53] survive the trip through the string
    ["rgb(r, g, b)"]. *)
Theorem parseColor_rgbToString (r g b : Z) :
  0 <= r < 2 ^ 53 -> 0 <= g < 2 ^ 53 -> 0 <= b < 2 ^ 53 ->
  parseColor (rgbToString (mkRGB r g b)) = mkRGB r g b.
Proof.
  intros Hr Hg Hb.
  destruct (toString10_nonneg r ltac:(lia)) as (dr & Er & Hner & Hdr & Hvr).
  destruct (toString10_nonneg g ltac:(lia)) as (dg & Eg & Hneg & Hdg & Hvg).
  destruct (toString10_nonneg b ltac:(lia)) as (db & Eb & Hneb & Hdb & Hvb).
  unfold rgbToString. cbn [Hex.r Hex.g Hex.b]. rewrite Er, Eg, Eb.
  assert (Elist :
    list_ascii_of_string
      (String.append "rgb("
         (String.append (string_of_list_ascii dr)
            (String.append ", "
               (String.append (string_of_list_ascii dg)
                  (String.append ", " (String.append (string_of_list_ascii db) ")"))))))
    = ["r"; "g"; "b"; "("]%char ++ dr ++ [","; " "]%char ++ dg ++ [","; " "]%char ++ db
      ++ [")"]%char).
  { rewrite !list_ascii_of_string_append, !list_ascii_of_string_of_list_ascii. reflexivity. }
  unfold parseColor.
  change (String.append "rgb(" ?s) with (String "r" (String.append "gb(" s)) at 1.
  cbv iota beta. rewrite Elist. cbn [app].
  rewrite !digitRuns_skip by reflexivity.
  rewrite (digitRuns_after_run dr) by (assumption || reflexivity).
  rewrite digitRuns_skip by reflexivity.
  rewrite (digitRuns_after_run dg) by (assumption || reflexivity).
  rewrite digitRuns_skip by reflexivity.
  rewrite (digitRuns_after_run db _ []) by (assumption || reflexivity).
  rewrite Hvr, Hvg, Hvb. reflexivity.
Qed.

Lemma parseColor_rgbToString_witness :
  parseColor (rgbToString (mkRGB 255 160 60)) = mkRGB 255 160 60.
Proof. apply (parseColor_rgbToString 255 160 60); lia. Defined.

Example rgbToString_warm : rgbToString (mkRGB 255 160 60) = "rgb(255, 160, 60)"%string.
Proof. reflexivity. Qed.

Example parseColor_rgba : parseColor "rgba(12, 0, 7, 0.5)" = mkRGB 12 0 7.
Proof. reflexivity. Qed.

Example parseColor_hex : parseColor "#CC3333" = mkRGB 204 51 51.
Proof. reflexivity. Qed.

Example parseColor_fraction : parseColor "rgb(12.5, 3, 4)" = mkRGB 12 5 3.
Proof. reflexivity. Qed.

(** *** Hex strings *)

Lemma hexVal_range (ch : ascii) : isHexDigit ch = true -> 0 <= hexVal ch < 16.
Proof.
  unfold isHexDigit, hexVal. cbv zeta.
  set (n := Z.of_N (N_of_ascii ch)).
  destruct (Z.leb_spec 48 n), (Z.leb_spec n 57), (Z.leb_spec 97 n), (Z.leb_spec n 102),
    (Z.leb_spec 65 n), (Z.leb_spec n 70); cbn [andb orb]; intros; try discriminate; lia.
Qed.

Lemma hexDigit_hexVal (ch : ascii) :
  isHexDigit ch = true -> hexDigit (hexVal ch) = toLowerCase ch.
Proof.
  destruct ch as [[] [] [] [] [] [] [] []]; intros Hh; try discriminate Hh; reflexivity.
Qed.

Lemma parseInt16_pair (c1 c2 : ascii) :
  isHexDigit c1 = true -> isHexDigit c2 = true ->
  let v := parseInt16 [c1; c2] in
  0 <= v <= 255 /\ v / 16 = hexVal c1 /\ v mod 16 = hexVal c2.
Proof.
  intros H1 H2. pose proof (hexVal_range c1 H1). pose proof (hexVal_range c2 H2).
  unfold parseInt16. cbn [fold_left]. cbv zeta.
  replace (16 * (16 * 0 + hexVal c1) + hexVal c2) with (16 * hexVal c1 + hexVal c2) by lia.
  split; [lia|]. split.
  - symmetry. apply Z.div_unique with (hexVal c2); lia.
  - symmetry. apply Z.mod_unique with (hexVal c1); lia.
Qed.

(** What [rgbToHex] prints for three bytes. *)
Lemma rgbToHex_digits (r g b : Z) :
  0 <= r <= 255 -> 0 <= g <= 255 -> 0 <= b <= 255 ->
  rgbToHex r g b =
  string_of_list_ascii
    ["#"%char; hexDigit (r / 16); hexDigit (r mod 16); hexDigit (g / 16);
     hexDigit (g mod 16); hexDigit (b / 16); hexDigit (b mod 16)].
Proof.
  intros Hr Hg Hb. unfold rgbToHex.
  rewrite shl_1_24, !shl_small by lia.
  rewrite toString16_packed by lia. reflexivity.
Qed.

(** [hexToRgb] never leaves the byte range, whatever the string. *)
Theorem hexToRgb_range (hex : string) :
  let c := hexToRgb hex in
  0 <= r c <= 255 /\ 0 <= g c <= 255 /\ 0 <= b c <= 255.
Proof.
  cbv zeta. unfold hexToRgb, hexRegexExec.
  destruct (list_ascii_of_string _) as [|c1 [|c2 [|c3 [|c4 [|c5 [|c6 [|c7 l]]]]]]];
    cbn [r g b]; try lia.
  destruct (forallb isHexDigit _) eqn:Hall; cbn [r g b]; [|lia].
  cbn [forallb] in Hall.
  repeat (apply andb_prop in Hall; destruct Hall as [? Hall]).
  pose proof (parseInt16_pair c1 c2 ltac:(assumption) ltac:(assumption)) as (? & _).
  pose proof (parseInt16_pair c3 c4 ltac:(assumption) ltac:(assumption)) as (? & _).
  pose proof (parseInt16_pair c5 c6 ltac:(assumption) ltac:(assumption)) as (? & _).
  lia.
Qed.

(** Printing what was parsed normalises a hex colour: whenever the string
    matches the pattern of [hexToRgb], [rgbToHex] of the parsed channels is
    ["#"] followed by the six digits in lower case. *)
Theorem rgbToHex_hexToRgb (hex : string) (g1 g2 g3 : list ascii) :
  hexRegexExec hex = Some (g1, g2, g3) ->
  let c := hexToRgb hex in
  rgbToHex (r c) (g c) (b c)
  = String "#" (string_of_list_ascii (map toLowerCase (g1 ++ g2 ++ g3))) /\
  (hex = string_of_list_ascii (g1 ++ g2 ++ g3) \/
   hex = String "#" (string_of_list_ascii (g1 ++ g2 ++ g3))).
Proof.
  intros Hexec. cbv zeta. unfold hexToRgb. rewrite Hexec.
  unfold hexRegexExec in Hexec.
  set (body := match hex with String "#" rest => rest | _ => hex end) in Hexec.
  assert (Hbody : hex = body \/ hex = String "#" body).
  { subst body. destruct hex as [|ch rest]; [left; reflexivity|].
    destruct (Ascii.ascii_dec ch "#") as [->|Hne]; [right; reflexivity|].
    left. destruct ch as [[] [] [] [] [] [] [] []]; try reflexivity. contradiction. }
  destruct (list_ascii_of_string body) as [|c1 [|c2 [|c3 [|c4 [|c5 [|c6 [|c7 l]]]]]]] eqn:El;
    try discriminate Hexec.
  destruct (forallb isHexDigit _) eqn:Hall; [|discriminate Hexec].
  injection Hexec as <- <- <-.
  cbn [forallb] in Hall.
  repeat (apply andb_prop in Hall; destruct Hall as [? Hall]).
  pose proof (parseInt16_pair c1 c2 ltac:(assumption) ltac:(assumption)) as (? & E1 & E2).
  pose proof (parseInt16_pair c3 c4 ltac:(assumption) ltac:(assumption)) as (? & E3 & E4).
  pose proof (parseInt16_pair c5 c6 ltac:(assumption) ltac:(assumption)) as (? & E5 & E6).
  cbn [r g b]. split.
  - rewrite rgbToHex_digits by assumption.
    rewrite E1, E2, E3, E4, E5, E6, !hexDigit_hexVal by assumption. reflexivity.
  - cbn [app]. rewrite <- El, string_of_list_ascii_of_string. exact Hbody.
Qed.

Lemma rgbToHex_hexToRgb_witness :
  let c := hexToRgb "CC33aF" in
  rgbToHex (r c) (g c) (b c)
  = String "#" (string_of_list_ascii (map toLowerCase (["C"; "C"] ++ ["3"; "3"] ++ ["a"; "F"])%char)) /\
  ("CC33aF"%string = string_of_list_ascii (["C"; "C"] ++ ["3"; "3"] ++ ["a"; "F"])%char \/
   "CC33aF"%string = String "#" (string_of_list_ascii (["C"; "C"] ++ ["3"; "3"] ++ ["a"; "F"])%char)).
Proof. apply (rgbToHex_hexToRgb "CC33aF" ["C"; "C"] ["3"; "3"] ["a"; "F"])%char. reflexivity. Defined.

Example rgbToHex_hexToRgb_upper :
  let c := hexToRgb "#CC33AF" in rgbToHex (r c) (g c) (b c) = "#cc33af"%string.
Proof. reflexivity. Qed.

End TextFacts.

(** ** Properties of the layer list and of colour picking *)

Module LayerFacts.
Import Canvas Engine Invariants Layers CanvasFacts HistoryFacts MaskFacts.
Local Open Scope Z_scope.

Lemma NoDup_map_filter {A B} (f : A -> B) (P : A -> bool) (l : list A) :
  NoDup (map f l) -> NoDup (map f (List.filter P l)).
Proof.
  induction l as [|a l IH]; intros Hnd; [constructor|].
  cbn [map] in Hnd. apply NoDup_cons in Hnd. destruct Hnd as [Hnotin Hnd].
  cbn [List.filter]. destruct (P a); [|apply IH, Hnd].
  cbn [map]. apply NoDup_cons. split; [|apply IH, Hnd].
  intros Hin. apply Hnotin.
  apply list_elem_of_In in Hin. apply list_elem_of_In.
  apply in_map_iff in Hin. destruct Hin as (x & Ex & Hx).
  apply filter_In in Hx. apply in_map_iff. exists x. tauto.
Qed.

Lemma last_In {A} (l : list A) (x : A) : last l = Some x -> In x l.
Proof.
  intros Hl. apply list_elem_of_In. apply last_Some in Hl. destruct Hl as [l' ->].
  apply list_elem_of_In, in_or_app. right. left. reflexivity.
Qed.

Lemma last_nonempty {A} (l : list A) : l <> [] -> is_Some (last l).
Proof. intros Hne. destruct (last l) eqn:E; [eauto|]. apply last_None in E. contradiction. Qed.

Lemma filter_other_nonempty (rid : string) (l : list Layer) :
  NoDup (map id l) -> (2 <= length l)%nat ->
  List.filter (fun x => negb (String.eqb (id x) rid)) l <> [].
Proof.
  intros Hnd Hlen. destruct l as [|a [|b l]]; cbn [length] in Hlen; try lia.
  cbn [map] in Hnd. apply NoDup_cons in Hnd. destruct Hnd as [Hab _].
  cbn [List.filter].
  destruct (String.eqb_spec (id a) rid) as [Ea|Ea]; cbn [negb]; [|discriminate].
  destruct (String.eqb_spec (id b) rid) as [Eb|Eb]; cbn [negb]; [|discriminate].
  exfalso. apply Hab. rewrite Ea, <- Eb. left.
Qed.

Lemma removeLayer_invariant (rid : string) (h : Hook) :
  layersInvariant h -> layersInvariant (removeLayer rid h).
Proof.
  intros (Hne & Hnd & Hact). unfold removeLayer, layersInvariant, layerIds in *. cbv zeta.
  destruct (Nat.leb_spec (length (layers h)) 1) as [Hle|Hgt];
    cbn [layers engine activeLayerId setLayers setActiveLayerId].
  { repeat split; assumption. }
  set (newLayers := List.filter _ (layers h)).
  assert (Hne' : newLayers <> []) by (apply filter_other_nonempty; [assumption|lia]).
  split; [exact Hne'|]. split; [apply NoDup_map_filter, Hnd|].
  destruct (String.eqb_spec (activeLayerId (engine h)) rid) as [Ea|Ea].
  - destruct (last_nonempty newLayers Hne') as [l El]. rewrite El.
    apply in_map, last_In, El.
  - apply in_map_iff in Hact. destruct Hact as (l & El & Hl).
    apply in_map_iff. exists l. split; [exact El|].
    apply filter_In. split; [exact Hl|].
    destruct (String.eqb_spec (id l) rid) as [E|E]; [congruence|reflexivity].
Qed.

Lemma map_id_toggle (f : Layer -> Layer) (l : list Layer) :
  (forall x, id (f x) = id x) -> map id (map f l) = map id l.
Proof. intros Hf. rewrite map_map. apply map_ext. exact Hf. Qed.

(** The layer operations keep the list well-formed: it is never empty, no
    id is listed twice (for [addLayer], as long as the id made from the
    clock is new) and the active id always names a listed layer, so that the
    effect that repairs a dangling active id has nothing to do. After
    [removeLayer] there is no canvas registered under the removed id, and
    the id is no longer listed unless it was the last layer. *)
Theorem layer_list_invariant (h : Hook) (rid tid : string) (now : Z) :
  layersInvariant h ->
  layersInvariant (removeLayer rid h) /\
  layerCanvases (engine (removeLayer rid h)) !! rid = None /\
  ((2 <= length (layers h))%nat -> ~ In rid (layerIds (removeLayer rid h))) /\
  (~ In (String.append "layer-" (Text.toString10 now)) (layerIds h) ->
   layersInvariant (addLayer now h)) /\
  layersInvariant (toggleLayerVisibility tid h) /\
  layersInvariant (toggleLayerGlow tid h) /\
  ensureActiveLayer h = h.
Proof.
  intros Hinv. split; [apply removeLayer_invariant, Hinv|].
  destruct Hinv as (Hne & Hnd & Hact). unfold layerIds in *.
  split; [|split; [|split; [|split; [|split]]]].
  - unfold removeLayer. cbv zeta.
    destruct (_ <=? _)%nat; cbn [engine layerCanvases setLayers setActiveLayerId];
      apply lookup_delete_eq.
  - intros Hlen Hin. unfold removeLayer in Hin. cbv zeta in Hin.
    destruct (Nat.leb_spec (length (layers h)) 1) as [Hle|Hgt]; [lia|].
    cbn [layers] in Hin. apply in_map_iff in Hin. destruct Hin as (l & El & Hl).
    apply filter_In in Hl. destruct Hl as [_ Hl].
    destruct (String.eqb_spec (id l) rid); [discriminate|contradiction].
  - intros Hfresh. unfold addLayer, layersInvariant, layerIds. cbv zeta.
    cbn [layers engine activeLayerId setActiveLayerId].
    split; [intros E; apply app_eq_nil in E; destruct E; discriminate|].
    rewrite map_app. cbn [map id]. split.
    + apply NoDup_app. split; [exact Hnd|]. split.
      * intros x Hx Hx'. apply list_elem_of_In in Hx.
        apply list_elem_of_In in Hx'. destruct Hx' as [<-|[]]. contradiction.
      * apply NoDup_singleton.
    + apply in_or_app. right. left. reflexivity.
  - unfold toggleLayerVisibility, layersInvariant, layerIds. cbn [layers engine].
    rewrite map_id_toggle by (intros x; destruct (String.eqb _ _); reflexivity).
    repeat split; try assumption.
    intros E. apply map_eq_nil in E. contradiction.
  - unfold toggleLayerGlow, layersInvariant, layerIds. cbn [layers engine].
    rewrite map_id_toggle by (intros x; destruct (String.eqb _ _); reflexivity).
    repeat split; try assumption.
    intros E. apply map_eq_nil in E. contradiction.
  - unfold ensureActiveLayer.
    assert (Hex : existsb (fun l => String.eqb (id l) (activeLayerId (engine h))) (layers h)
                  = true).
    { apply existsb_exists. apply in_map_iff in Hact. destruct Hact as (l & El & Hl).
      exists l. split; [exact Hl|]. apply String.eqb_eq, El. }
    rewrite Hex. reflexivity.
Qed.

Lemma initialHook_invariant : layersInvariant initialHook.
Proof.
  unfold layersInvariant, layerIds. cbn. split; [discriminate|]. split.
  - apply NoDup_singleton.
  - left. reflexivity.
Qed.

Lemma layer_list_invariant_witness :
  layersInvariant (removeLayer "layer-1" initialHook) /\
  layerCanvases (engine (removeLayer "layer-1" initialHook)) !! "layer-1"%string = None /\
  ((2 <= length (layers initialHook))%nat ->
   ~ In "layer-1"%string (layerIds (removeLayer "layer-1" initialHook))) /\
  (~ In (String.append "layer-" (Text.toString10 1700000000000)) (layerIds initialHook) ->
   layersInvariant (addLayer 1700000000000 initialHook)) /\
  layersInvariant (toggleLayerVisibility "layer-1" initialHook) /\
  layersInvariant (toggleLayerGlow "layer-1" initialHook) /\
  ensureActiveLayer initialHook = initialHook.
Proof.
  apply (layer_list_invariant initialHook "layer-1" "layer-1" 1700000000000).
  unfold layersInvariant, layerIds. cbn. split; [discriminate|]. split.
  - apply NoDup_singleton.
  - left. reflexivity.
Defined.

Example addLayer_names :
  layers (addLayer 1700000000000 initialHook)
  = [mkLayer "layer-1" "Layer 1" true false;
     mkLayer "layer-1700000000000" "Layer 2" true false].
Proof. reflexivity. Qed.

(** Removing the only layer: the layer stays listed and active, but its
    canvas is no longer registered, so nothing can be painted, cleared or
    committed until [init] registers a canvas again. *)
Theorem removeLayer_last_layer (l : Layer) (h : Hook) (paint : nat -> list Z -> Z) :
  layers h = [l] -> activeLayerId (engine h) = id l ->
  let h' := removeLayer (id l) h in
  layers h' = [l] /\
  activeLayerId (engine h') = id l /\
  layerCanvases (engine h') !! id l = None /\
  paintActiveLayer paint (engine h') = engine h' /\
  clear (engine h') = engine h' /\
  commitHistory (engine h') = engine h'.
Proof.
  intros Hl Ha. cbv zeta. unfold removeLayer. cbv zeta. rewrite Hl. cbn [length Nat.leb].
  cbn [layers engine].
  assert (Hnone : layerCanvases (setLayers (engine h) (delete (id l) (layerCanvases (engine h))))
                  !! id l = None) by apply lookup_delete_eq.
  split; [reflexivity|]. split; [exact Ha|]. split; [exact Hnone|].
  unfold paintActiveLayer, clear, commitHistory.
  cbn [activeLayerId setLayers layerCanvases] in *. rewrite Ha, Hnone.
  repeat split; reflexivity.
Qed.

Lemma removeLayer_last_layer_witness :
  let h := mkHook [mkLayer "layer-1" "Layer 1" true false] smallEngine in
  let h' := removeLayer "layer-1" h in
  layers h' = [mkLayer "layer-1" "Layer 1" true false] /\
  activeLayerId (engine h') = "layer-1"%string /\
  layerCanvases (engine h') !! "layer-1"%string = None /\
  paintActiveLayer (fun _ _ => 7) (engine h') = engine h' /\
  clear (engine h') = engine h' /\
  commitHistory (engine h') = engine h'.
Proof.
  apply (removeLayer_last_layer (mkLayer "layer-1" "Layer 1" true false)
           (mkHook [mkLayer "layer-1" "Layer 1" true false] smallEngine) (fun _ _ => 7));
    reflexivity.
Defined.

(** *** [pickColor] *)

Lemma pixelAt_quad (c : ImageData) (x y : Z) :
  exists r g b a, pixelAt c x y = [r; g; b; a].
Proof. unfold pixelAt. destruct (_ && _); eauto. Qed.

Lemma pickLayer_seenThrough (px py : Z) (s : Engine) (above rest : list Layer) :
  Forall (seenThrough px py s) above ->
  pickLayer (above ++ rest) px py s = pickLayer rest px py s.
Proof.
  induction 1 as [|l above Hl _ IH]; [reflexivity|].
  cbn [app pickLayer]. destruct Hl as [Hv|[Hn|(c & Ec & Hw & Ha)]].
  - rewrite Hv. exact IH.
  - rewrite Hn. destruct (negb (visible l)); exact IH.
  - rewrite Ec. destruct (negb (visible l)); [exact IH|].
    destruct (Z.eqb_spec (width c) 0) as [|_]; [contradiction|].
    destruct (pixelAt_quad c px py) as (r & g & b & a & E). rewrite E in *.
    cbn [nth] in Ha. destruct (Z.ltb_spec 0 a); [lia|exact IH].
Qed.

(** [pickColor] returns the colour of the topmost visible layer that is not
    fully transparent at the point, as the hex string of the pixel's R, G
    and B: layers above it that are hidden, unregistered or transparent
    there are looked through, and neither the layers below, nor the sky, nor
    the canvas colour matter. *)
Theorem pickColor_topmost_layer (skyEnabled : bool) (sampleSkyRGB : Q -> Q -> option Hex.RGB)
    (canvasColor : string) (pixelRatio : Z) (x y : Q) (h : Hook)
    (below above : list Layer) (layer : Layer) (c : ImageData) (r g b a : Z) :
  let px := Qfloor (x * inject_Z pixelRatio) in
  let py := Qfloor (y * inject_Z pixelRatio) in
  layers h = below ++ layer :: above ->
  Forall (seenThrough px py (engine h)) above ->
  visible layer = true ->
  layerCanvases (engine h) !! id layer = Some c -> width c <> 0 ->
  pixelAt c px py = [r; g; b; a] -> 0 < a ->
  pickColor skyEnabled sampleSkyRGB canvasColor pixelRatio x y h
  = Some (Hex.rgbToHex r g b).
Proof.
  intros px py Hl Habove Hv Ec Hw Epx Ha. unfold pickColor. fold px py.
  rewrite Hl, rev_app_distr. cbn [rev]. rewrite <- app_assoc.
  rewrite pickLayer_seenThrough by (apply Forall_rev, Habove).
  cbn [app pickLayer]. rewrite Hv, Ec. cbn [negb].
  destruct (Z.eqb_spec (width c) 0) as [|_]; [contradiction|].
  rewrite Epx. destruct (Z.ltb_spec 0 a); [reflexivity|lia].
Qed.

(** Where every layer is looked through, [pickColor] gives the colour of
    the sky when the sky is enabled and has one at the point, and the
    canvas colour otherwise. *)
Theorem pickColor_no_paint (skyEnabled : bool) (sampleSkyRGB : Q -> Q -> option Hex.RGB)
    (canvasColor : string) (pixelRatio : Z) (x y : Q) (h : Hook) :
  Forall (seenThrough (Qfloor (x * inject_Z pixelRatio)) (Qfloor (y * inject_Z pixelRatio))
            (engine h)) (layers h) ->
  pickColor skyEnabled sampleSkyRGB canvasColor pixelRatio x y h
  = if skyEnabled then
      match sampleSkyRGB x y with
      | Some sky => Some (Hex.rgbToHex (Hex.r sky) (Hex.g sky) (Hex.b sky))
      | None => Some canvasColor
      end
    else Some canvasColor.
Proof.
  intros Hall. unfold pickColor.
  rewrite <- (app_nil_r (rev (layers h))).
  rewrite pickLayer_seenThrough by (apply Forall_rev, Hall).
  reflexivity.
Qed.

Example pickColor_upper_layer :
  pickColor false (fun _ _ => None) "#f5f5f0" 1 0.5 1.2 (demoHook true) = Some "#c8c8c8"%string.
Proof. vm_compute. reflexivity. Qed.

Example pickColor_upper_hidden :
  pickColor false (fun _ _ => None) "#f5f5f0" 1 0.5 1.2 (demoHook false) = Some "#090909"%string.
Proof. vm_compute. reflexivity. Qed.

Example pickColor_outside :
  pickColor false (fun _ _ => None) "#f5f5f0" 1 7 7 (demoHook true) = Some "#f5f5f0"%string.
Proof. vm_compute. reflexivity. Qed.

Lemma pickColor_topmost_layer_witness :
  pickColor false (fun _ _ => None) "#f5f5f0" 1 0.5 1.2 (demoHook false)
  = Some (Hex.rgbToHex 9 9 9).
Proof.
  apply (pickColor_topmost_layer false (fun _ _ => None) "#f5f5f0" 1 0.5 1.2 (demoHook false)
           [] [mkLayer "layer-2" "Layer 2" false false]
           (mkLayer "layer-1" "Layer 1" true false)
           (mkImageData 2 2 (repeat 9 16)) 9 9 9 9).
  - reflexivity.
  - constructor; [left; reflexivity | constructor].
  - reflexivity.
  - vm_compute. reflexivity.
  - cbn. lia.
  - vm_compute. reflexivity.
  - lia.
Defined.

Lemma pickColor_no_paint_witness :
  pickColor false (fun _ _ => None) "#f5f5f0" 1 7 7 (demoHook false)
  = Some "#f5f5f0"%string.
Proof.
  apply (pickColor_no_paint false (fun _ _ => None) "#f5f5f0" 1 7 7 (demoHook false)).
  constructor; [|constructor; [left; reflexivity | constructor]].
  right. right. exists (mkImageData 2 2 (repeat 9 16)).
  split; [vm_compute; reflexivity|]. split; [cbn; lia|]. vm_compute. discriminate.
Defined.

End LayerFacts.

(** ** Further properties of the engine: which canvases exist, what a
    resize keeps, what [undo] shows *)

Module EngineFacts.
Import Canvas Engine Invariants Layers CanvasFacts HistoryFacts UndoRedoFacts MaskFacts
       ResizeFacts.
Local Open Scope Z_scope.

(** *** Which layers have a canvas *)

Lemma commitHistory_registered (s : Engine) (id : string) :
  layerCanvases (commitHistory s) !! id = layerCanvases s !! id.
Proof. destruct (commitHistory_rasters s) as (-> & _). reflexivity. Qed.

Lemma restore_registered (e : option HistoryState) (s : Engine) (id : string) :
  is_Some (layerCanvases (restore e s) !! id) <-> is_Some (layerCanvases s !! id).
Proof.
  unfold restore. destruct e as [e|]; [|reflexivity].
  cbn [layerCanvases setMask setLayers].
  destruct (layerCanvases s !! layerId e) as [c|] eqn:Ec; [|reflexivity].
  rewrite lookup_insert_is_Some'. split; [|tauto].
  intros [<-|H]; [rewrite Ec; eauto | exact H].
Qed.

Lemma updateSize_registered (w h dpr : Z) (s : Engine) (id : string) :
  is_Some (layerCanvases (updateSize w h dpr s) !! id) <-> is_Some (layerCanvases s !! id).
Proof.
  unfold updateSize. cbv zeta. destruct (_ || _); [reflexivity|].
  destruct (_ || _); [|destruct (_ =? _)%nat]; rewrite ?commitHistory_registered;
    cbn [layerCanvases setHistory]; rewrite !lookup_fmap, !fmap_is_Some; reflexivity.
Qed.

Lemma step_registered (s : Engine) (o : Op) (id : string) :
  isNotInit o = true ->
  (is_Some (layerCanvases (step s o) !! id) <-> is_Some (layerCanvases s !! id)).
Proof.
  intros Ho. destruct o as [aid|paint|paint| | | |w h dpr|]; try discriminate Ho;
    cbn [step].
  - reflexivity.
  - unfold paintActiveLayer.
    destruct (layerCanvases s !! activeLayerId s) as [c|] eqn:Ec; [|reflexivity].
    rewrite commitHistory_registered. cbn [layerCanvases setLayers].
    rewrite lookup_insert_is_Some'. split; [|tauto].
    intros [<-|H]; [rewrite Ec; eauto | exact H].
  - unfold paintMask. destruct (maskCanvas s); [|reflexivity].
    rewrite commitHistory_registered. reflexivity.
  - unfold invertMask. destruct (maskCanvas s); [|reflexivity].
    destruct (_ || _); [reflexivity|]. rewrite commitHistory_registered. reflexivity.
  - unfold undo. destruct (_ || _); [reflexivity|].
    etransitivity; [apply restore_registered|reflexivity].
  - unfold redo. destruct (_ || _); [reflexivity|].
    etransitivity; [apply restore_registered|reflexivity].
  - apply updateSize_registered.
Qed.

(** Only [init] registers a layer canvas (and only [removeLayer] deletes
    one): whatever else the engine does (painting, mask edits, [undo],
    [redo], resizing), a layer has a canvas afterwards exactly when it had
    one before. In particular [undo] never brings back the canvas of a
    removed layer. *)
Theorem run_keeps_registered_layers (ops : list Op) (s : Engine) (id : string) :
  forallb isNotInit ops = true ->
  (is_Some (layerCanvases (run ops s) !! id) <-> is_Some (layerCanvases s !! id)).
Proof.
  revert s. induction ops as [|o ops IH]; intros s Hops; [reflexivity|].
  cbn [forallb] in Hops. apply andb_prop in Hops. destruct Hops as [Ho Hops].
  unfold run. cbn [fold_left]. fold (run ops (step s o)).
  rewrite (IH _ Hops). apply step_registered, Ho.
Qed.

Lemma run_keeps_registered_layers_witness :
  is_Some (layerCanvases
             (run [OpUndo; OpUndo; OpRedo; OpPaint (fun _ _ => 3); OpResize 3 3 1]
                  (engine (removeLayer "layer-2" (demoHook true)))) !! "layer-2"%string)
  <-> is_Some (layerCanvases (engine (removeLayer "layer-2" (demoHook true)))
               !! "layer-2"%string).
Proof.
  apply (run_keeps_registered_layers
           [OpUndo; OpUndo; OpRedo; OpPaint (fun _ _ => 3); OpResize 3 3 1]
           (engine (removeLayer "layer-2" (demoHook true))) "layer-2").
  reflexivity.
Defined.

Example undo_after_removeLayer :
  layerCanvases (undo (engine (removeLayer "layer-2" (demoHook true)))) !! "layer-2"%string
  = None.
Proof. vm_compute. reflexivity. Qed.

(** *** What a resize keeps *)

Lemma nth_flat_map_quad {A} (f : A -> list Z) (l : list A) (i j : nat) (a : A) :
  (forall x, length (f x) = 4%nat) -> l !! i = Some a -> (j < 4)%nat ->
  nth (4 * i + j) (flat_map f l) 0 = nth j (f a) 0.
Proof.
  intros Hf. revert i. induction l as [|x l IH]; intros i Hi Hj; [discriminate|].
  cbn [flat_map]. destruct i as [|i].
  - injection Hi as ->. rewrite app_nth1 by (rewrite Hf; lia). f_equal.
  - rewrite app_nth2 by (rewrite Hf; lia). rewrite Hf.
    replace (4 * S i + j - 4)%nat with (4 * i + j)%nat by lia.
    apply IH; assumption.
Qed.

Lemma quad_eta (l : list Z) :
  length l = 4%nat -> [nth 0 l 0; nth 1 l 0; nth 2 l 0; nth 3 l 0] = l.
Proof. destruct l as [|a [|b [|c [|d [|e l]]]]]; intros E; try discriminate E. reflexivity. Qed.

(** A raster given pixel by pixel. *)
Lemma pixelAt_flat_map (W H x y : Z) (f : Z -> list Z) :
  (forall i, length (f i) = 4%nat) -> 0 <= x < W -> 0 <= y < H ->
  pixelAt (mkImageData W H (flat_map f (seqZ 0 (W * H)))) x y = f (y * W + x).
Proof.
  intros Hf Hx Hy. unfold pixelAt. cbn [width height data].
  destruct (Z.leb_spec 0 x); [|lia]. destruct (Z.ltb_spec x W); [|lia].
  destruct (Z.leb_spec 0 y); [|lia]. destruct (Z.ltb_spec y H); [|lia].
  cbn [andb]. unfold byteAt.
  assert (Hyw : 0 <= y * W <= (H - 1) * W) by nia.
  set (k := y * W + x).
  assert (Hk : 0 <= k < W * H) by (subst k; lia).
  assert (Hin : seqZ 0 (W * H) !! Z.to_nat k = Some k).
  { rewrite lookup_seqZ_lt by lia. f_equal. lia. }
  replace (Z.to_nat (4 * k)) with (4 * Z.to_nat k + 0)%nat by lia.
  replace (Z.to_nat (4 * k + 1)) with (4 * Z.to_nat k + 1)%nat by lia.
  replace (Z.to_nat (4 * k + 2)) with (4 * Z.to_nat k + 2)%nat by lia.
  replace (Z.to_nat (4 * k + 3)) with (4 * Z.to_nat k + 3)%nat by lia.
  rewrite !(nth_flat_map_quad f _ _ _ k) by (assumption || lia).
  apply quad_eta, Hf.
Qed.

Lemma pixelAt_blank (w h x y : Z) : pixelAt (blank w h) x y = [0; 0; 0; 0].
Proof.
  unfold pixelAt, blank, byteAt. cbn [width height data].
  destruct (_ && _); [|reflexivity]. rewrite !nth_repeat. reflexivity.
Qed.

Lemma pixelAt_putImageData (img c : ImageData) (x y : Z) :
  0 <= x < width c -> 0 <= y < height c ->
  pixelAt (putImageData img c) x y
  = if (x <? width img) && (y <? height img) then pixelAt img x y else pixelAt c x y.
Proof.
  intros Hx Hy. unfold putImageData.
  rewrite pixelAt_flat_map; try assumption.
  - cbv beta zeta.
    replace ((y * width c + x) mod width c) with x
      by (rewrite Z.add_comm, Z.mod_add by lia; symmetry; apply Z.mod_small; lia).
    replace ((y * width c + x) / width c) with y
      by (rewrite Z.add_comm, Z.div_add by lia; rewrite Z.div_small by lia; lia).
    reflexivity.
  - intros i. cbv beta zeta. destruct (_ && _); apply pixelAt_length.
Qed.

(** [safeResize] neither scales nor moves anything: inside the new
    rectangle a pixel that the old canvas had keeps its four bytes, every
    other pixel is transparent black. *)
Lemma safeResize_pixels (nw nh : Z) (c : ImageData) (x y : Z) :
  0 <= x < nw -> 0 <= y < nh ->
  let c' := fst (safeResize nw nh c) in
  width c' = nw /\ height c' = nh /\
  pixelAt c' x y
  = if (x <? width c) && (y <? height c) then pixelAt c x y else [0; 0; 0; 0].
Proof.
  intros Hx Hy. cbv zeta. unfold safeResize.
  destruct (Z.eqb_spec (width c) nw) as [Ew|Ew];
    [destruct (Z.eqb_spec (height c) nh) as [Eh|Eh]|]; cbn [andb fst].
  - split; [exact Ew|]. split; [exact Eh|].
    destruct (Z.ltb_spec x (width c)); [|lia]. destruct (Z.ltb_spec y (height c)); [|lia].
    reflexivity.
  - destruct ((0 <? width c) && (0 <? height c)) eqn:Epos.
    + split; [reflexivity|]. split; [reflexivity|].
      rewrite pixelAt_putImageData by (cbn [blank width height]; lia).
      rewrite pixelAt_blank. reflexivity.
    + split; [reflexivity|]. split; [reflexivity|]. rewrite pixelAt_blank.
      destruct (Z.ltb_spec 0 (width c)), (Z.ltb_spec 0 (height c)); try discriminate Epos;
        destruct (Z.ltb_spec x (width c)), (Z.ltb_spec y (height c)); try lia; reflexivity.
  - destruct ((0 <? width c) && (0 <? height c)) eqn:Epos.
    + split; [reflexivity|]. split; [reflexivity|].
      rewrite pixelAt_putImageData by (cbn [blank width height]; lia).
      rewrite pixelAt_blank. reflexivity.
    + split; [reflexivity|]. split; [reflexivity|]. rewrite pixelAt_blank.
      destruct (Z.ltb_spec 0 (width c)), (Z.ltb_spec 0 (height c)); try discriminate Epos;
        destruct (Z.ltb_spec x (width c)), (Z.ltb_spec y (height c)); try lia; reflexivity.
Qed.

Lemma updateSize_layers (w h dpr : Z) (s : Engine) :
  0 < w * dpr -> 0 < h * dpr ->
  layerCanvases (updateSize w h dpr s)
  = (fun c => fst (safeResize (w * dpr) (h * dpr) c)) <$> layerCanvases s /\
  maskCanvas (updateSize w h dpr s)
  = (fun c => fst (safeResize (w * dpr) (h * dpr) c)) <$> maskCanvas s.
Proof.
  intros Hw Hh. rewrite updateSize_cases by assumption.
  assert (Hl : layerCanvases (resizedEngine (w * dpr) (h * dpr) s)
               = (fun c => fst (safeResize (w * dpr) (h * dpr) c)) <$> layerCanvases s).
  { cbn [resizedEngine layerCanvases]. rewrite <- map_fmap_compose. reflexivity. }
  assert (Hm : maskCanvas (resizedEngine (w * dpr) (h * dpr) s)
               = (fun c => fst (safeResize (w * dpr) (h * dpr) c)) <$> maskCanvas s).
  { cbn [resizedEngine maskCanvas]. destruct (maskCanvas s); reflexivity. }
  destruct (changesSize _ _ s); [|destruct (_ =? _)%nat].
  - destruct (commitHistory_rasters
                (setHistory (resizedEngine (w * dpr) (h * dpr) s) [] (-1))) as (-> & -> & _).
    split; assumption.
  - destruct (commitHistory_rasters (resizedEngine (w * dpr) (h * dpr) s)) as (-> & -> & _).
    split; assumption.
  - split; assumption.
Qed.

(** [updateSize] keeps the painting where it is: every layer canvas and the
    mask get the new pixel size, and inside it each pixel the old canvas had
    keeps its bytes, while the pixels the old canvas did not have are
    transparent black. Nothing is scaled; what lies outside the new size is
    cut off. *)
Theorem updateSize_keeps_pixels (w h dpr : Z) (s : Engine) (x y : Z) :
  0 < w * dpr -> 0 < h * dpr -> 0 <= x < w * dpr -> 0 <= y < h * dpr ->
  let s' := updateSize w h dpr s in
  (forall id c, layerCanvases s !! id = Some c ->
     exists c', layerCanvases s' !! id = Some c' /\
       width c' = w * dpr /\ height c' = h * dpr /\
       pixelAt c' x y
       = if (x <? width c) && (y <? height c) then pixelAt c x y else [0; 0; 0; 0]) /\
  (forall m, maskCanvas s = Some m ->
     exists m', maskCanvas s' = Some m' /\
       width m' = w * dpr /\ height m' = h * dpr /\
       pixelAt m' x y
       = if (x <? width m) && (y <? height m) then pixelAt m x y else [0; 0; 0; 0]).
Proof.
  intros Hw Hh Hx Hy s'. subst s'.
  destruct (updateSize_layers w h dpr s Hw Hh) as [-> ->]. split.
  - intros id c Ec. rewrite lookup_fmap, Ec. cbn [fmap option_fmap option_map].
    eexists. split; [reflexivity|]. apply safeResize_pixels; assumption.
  - intros m Em. rewrite Em. cbn [fmap option_fmap option_map].
    eexists. split; [reflexivity|]. apply safeResize_pixels; assumption.
Qed.

Lemma updateSize_keeps_pixels_witness :
  let s' := updateSize 3 1 1 demoEngine in
  (forall id c, layerCanvases demoEngine !! id = Some c ->
     exists c', layerCanvases s' !! id = Some c' /\
       width c' = 3 * 1 /\ height c' = 1 * 1 /\
       pixelAt c' 1 0
       = if (1 <? width c) && (0 <? height c) then pixelAt c 1 0 else [0; 0; 0; 0]) /\
  (forall m, maskCanvas demoEngine = Some m ->
     exists m', maskCanvas s' = Some m' /\
       width m' = 3 * 1 /\ height m' = 1 * 1 /\
       pixelAt m' 1 0
       = if (1 <? width m) && (0 <? height m) then pixelAt m 1 0 else [0; 0; 0; 0]).
Proof. apply (updateSize_keeps_pixels 3 1 1 demoEngine 1 0); lia. Defined.

Example updateSize_crops_and_pads :
  layerCanvases (updateSize 3 1 1 (run [OpPaint (fun i _ => Z.of_nat i + 1)] smallEngine))
    !! "layer-1"%string
  = Some (mkImageData 3 1 [1; 2; 3; 4; 5; 6; 7; 8; 0; 0; 0; 0]).
Proof. vm_compute. reflexivity. Qed.

(** *** A resize met by [init] *)

Lemma fold_insert_lookup_In (canvases : list (string * ImageData))
    (m0 : gmap string ImageData) (id : string) (c : ImageData) :
  NoDup (map fst canvases) -> In (id, c) canvases ->
  fold_left (fun m kv => <[fst kv := snd kv]> m) canvases m0 !! id = Some c.
Proof.
  revert m0. induction canvases as [|[k v] l IH]; intros m0 Hnd Hin; [destruct Hin|].
  cbn [map fst] in Hnd. apply NoDup_cons in Hnd. destruct Hnd as [Hk Hnd].
  cbn [fold_left fst snd]. destruct Hin as [E|Hin].
  - injection E as -> ->.
    assert (Hkeep : forall (l' : list (string * ImageData)) (m : gmap string ImageData),
              ~ In id (map fst l') -> m !! id = Some c ->
              fold_left (fun m kv => <[fst kv := snd kv]> m) l' m !! id = Some c).
    { induction l' as [|[k' v'] l' IHl]; intros m Hnot Hm; [exact Hm|].
      cbn [fold_left fst snd]. apply IHl.
      - intros H. apply Hnot. right. exact H.
      - rewrite lookup_insert_ne; [exact Hm|].
        intros ->. apply Hnot. left. reflexivity. }
    apply Hkeep; [|apply lookup_insert_eq].
    intros H. apply Hk, list_elem_of_In, H.
  - apply IH; assumption.
Qed.

(** [init] forgets the undo history as soon as one of the canvases it
    registers has not the size of the document, for instance the canvas of
    a layer that was just added, which a browser creates 300 × 150 pixels
    large: afterwards the history holds at most the one snapshot taken after
    the resize, and [undo] and [redo] have nothing to go to. *)
Theorem init_resize_forgets_history (canvases : list (string * ImageData))
    (maskC : ImageData) (w h dpr : Z) (s : Engine) (id : string) (c : ImageData) :
  0 < w * dpr -> 0 < h * dpr ->
  NoDup (map fst canvases) -> In (id, c) canvases ->
  width c <> w * dpr \/ height c <> h * dpr ->
  let s' := init canvases maskC w h dpr s in
  (length (history s') <= 1)%nat /\ historyIndex s' <= 0 /\
  Forall (fun e => width (painting e) = w * dpr /\ height (painting e) = h * dpr) (history s') /\
  undo s' = s' /\ redo s' = s'.
Proof.
  intros Hw Hh Hnd Hin Hsize s'. subst s'. unfold init.
  set (s0 := mkEngine _ _ _ _ _ _ _ _).
  rewrite updateSize_cases by assumption.
  assert (Hch : changesSize (w * dpr) (h * dpr) s0 = true).
  { apply changesSize_true. right. exists id, c. split; [|exact Hsize].
    subst s0. cbn [layerCanvases]. apply fold_insert_lookup_In; assumption. }
  rewrite Hch.
  set (fresh := setHistory (resizedEngine (w * dpr) (h * dpr) s0) [] (-1)).
  assert (Hcases :
    (history (commitHistory fresh) = [] /\ historyIndex (commitHistory fresh) = -1) \/
    (exists snap, snapshot fresh = Some snap /\
       history (commitHistory fresh) = [snap] /\ historyIndex (commitHistory fresh) = 0)).
  { destruct (snapshot fresh) as [snap|] eqn:Esnap.
    - pose proof (commitHistory_empty fresh snap eq_refl eq_refl Esnap) as Hc.
      destruct (MAX_HISTORY_BYTES <? entryBytes snap); [left; exact Hc|].
      right. exists snap. split; [reflexivity|exact Hc].
    - left. rewrite commitHistory_no_snapshot by exact Esnap. split; reflexivity. }
  destruct Hcases as [[Eh Ei]|(snap & Esnap & Eh & Ei)]; rewrite ?Eh, ?Ei.
  - cbn [length]. split; [lia|]. split; [lia|]. split; [constructor|]. split.
    + apply undo_at_oldest. rewrite Ei. lia.
    + apply redo_at_newest. rewrite Eh, Ei. cbn [length]. lia.
  - cbn [length]. split; [lia|]. split; [lia|]. split.
    + constructor; [|constructor].
      unfold snapshot in Esnap.
      destruct (layerCanvases fresh !! activeLayerId fresh) as [ac|] eqn:Eac;
        [|discriminate Esnap].
      destruct (maskCanvas fresh) as [mc|]; [|discriminate Esnap].
      destruct (_ || _); [discriminate Esnap|]. injection Esnap as <-.
      cbn [painting getImageData width height].
      subst fresh. cbn [layerCanvases setHistory resizedEngine] in Eac.
      rewrite !lookup_fmap in Eac.
      destruct (layerCanvases s0 !! activeLayerId _) as [c0|]; [|discriminate Eac].
      cbn [fmap option_fmap option_map] in Eac. injection Eac as <-.
      destruct (safeResize_size (w * dpr) (h * dpr) c0) as [-> ->]. split; reflexivity.
    + split.
      * apply undo_at_oldest. rewrite Ei. lia.
      * apply redo_at_newest. rewrite Eh, Ei. cbn [length]. lia.
Qed.

Lemma init_resize_forgets_history_witness :
  let s' := init [("layer-1"%string, blank 2 2); ("layer-3"%string, blank 3 2)]
                 (blank 2 2) 2 2 1 demoEngine in
  (length (history s') <= 1)%nat /\ historyIndex s' <= 0 /\
  Forall (fun e => width (painting e) = 2 * 1 /\ height (painting e) = 2 * 1) (history s') /\
  undo s' = s' /\ redo s' = s'.
Proof.
  apply (init_resize_forgets_history
           [("layer-1"%string, blank 2 2); ("layer-3"%string, blank 3 2)]
           (blank 2 2) 2 2 1 demoEngine "layer-3" (blank 3 2)).
  - lia.
  - lia.
  - cbn. apply NoDup_cons. split; [|apply NoDup_singleton].
    intros H. apply list_elem_of_singleton in H. discriminate H.
  - right. left. reflexivity.
  - left. cbn. lia.
Defined.

Example init_with_added_layer :
  let s' := init [("layer-1"%string, mkImageData 2 2 (repeat 9 16));
                  ("layer-2"%string, mkImageData 2 2 (repeat 200 16));
                  ("layer-3"%string, blank 3 2)]
                 (mkImageData 2 2 (repeat 0 16)) 2 2 1 demoEngine in
  length (history demoEngine) = 6%nat /\ length (history s') = 1%nat /\
  layerCanvases s' !! "layer-2"%string = Some (mkImageData 2 2 (repeat 200 16)).
Proof. vm_compute. repeat split; reflexivity. Qed.

End EngineFacts.

(** ** What [undo] shows, and masks cleared and inverted *)

Module UndoFacts.
Import Canvas Engine Invariants Layers CanvasFacts HistoryFacts UndoRedoFacts MaskFacts.
Local Open Scope Z_scope.

Section Sized.

Variables W H : Z.

(** On a committed state with something to undo, [undo] moves the index
    back by one, writes the painting of the entry it arrives at into the
    layer of that entry and its mask into the mask canvas, and leaves
    everything else alone. *)
Lemma undo_committed (s : Engine) :
  committed W H s -> 0 < historyIndex s ->
  exists prev top,
    previous (history s) = Some prev /\ newest (history s) = Some top /\
    layerCanvases s !! layerId top = Some (painting top) /\
    undo s =
      setMask (setLayers (setHistory s (history s) (historyIndex s - 1))
                 (<[layerId prev := painting prev]> (layerCanvases s)))
              (Some (mask prev)).
Proof.
  intros ((Hlayers & (m & Em & Hm) & _ & Hhist & Hidx) & Hrec & Hprev) Hgt.
  assert (is_Some (history s !! Z.to_nat (historyIndex s - 1))) as [prev Eprev]
    by (apply lookup_lt_is_Some_2; lia).
  assert (is_Some (history s !! Z.to_nat (historyIndex s))) as [top Etop]
    by (apply lookup_lt_is_Some_2; lia).
  assert (Hnew : newest (history s) = Some top).
  { unfold newest, entryAt. rewrite <- Hidx.
    destruct (Z.ltb_spec (historyIndex s) 0); [lia | exact Etop]. }
  assert (Hprv : previous (history s) = Some prev).
  { unfold previous, entryAt.
    replace (Z.of_nat (length (history s)) - 2) with (historyIndex s - 1) by lia.
    destruct (Z.ltb_spec (historyIndex s - 1) 0); [lia | exact Eprev]. }
  destruct (Hrec top Hnew) as [Htl Htm].
  pose proof (proj1 (Forall_lookup _ _) Hhist _ _ Eprev) as [Hpp Hpm].
  pose proof (proj1 (Forall_lookup _ _) Hhist _ _ Etop) as [Htp Htk].
  assert (exists c, layerCanvases s !! layerId prev = Some c /\ sized W H c) as (c & Ec & Hc).
  { destruct (Hprev prev top Hprv Hnew) as [E|E].
    - rewrite E. exists (painting top). split; assumption.
    - exists (painting prev). split; assumption. }
  exists prev, top. split; [exact Hprv|]. split; [exact Hnew|]. split; [exact Htl|].
  unfold undo. destruct (Z.leb_spec (historyIndex s) 0); [lia|].
  rewrite Em. cbn [orb negb]. rewrite bool_decide_eq_true_2 by eauto. cbn [negb].
  unfold entryAt at 1. destruct (Z.ltb_spec (historyIndex s - 1) 0); [lia|].
  rewrite Eprev.
  rewrite (restore_sized W H prev c m)
    by (cbn [layerCanvases maskCanvas setHistory]; assumption).
  reflexivity.
Qed.

End Sized.

(** After [init] and any sequence of committed operations, an [undo] that
    has an entry to go back to shows exactly what that entry recorded: its
    painting on its layer and its mask on the mask canvas. The index moves
    back by one, the history itself is untouched, and no other layer
    changes. *)
Theorem undo_shows_previous_snapshot (canvases : list (string * ImageData))
    (maskC : ImageData) (lw lh dpr : Z) (ops : list Op) :
  0 < lw * dpr -> 0 < lh * dpr ->
  Forall (fun kv => wellFormed (snd kv)) canvases -> wellFormed maskC ->
  In "layer-1"%string (map fst canvases) ->
  forallb (isCommitOp (map fst canvases)) ops = true ->
  let s := run ops (init canvases maskC lw lh dpr initialEngine) in
  0 < historyIndex s ->
  exists prev,
    previous (history s) = Some prev /\
    historyIndex (undo s) = historyIndex s - 1 /\
    history (undo s) = history s /\
    layerCanvases (undo s) !! layerId prev = Some (painting prev) /\
    maskCanvas (undo s) = Some (mask prev) /\
    (forall id, id <> layerId prev -> layerCanvases (undo s) !! id = layerCanvases s !! id).
Proof.
  intros Hw Hh Hcs Hm Hactive Hops s Hidx.
  destruct (init_committed canvases maskC lw lh dpr Hw Hh Hcs Hm Hactive) as [Hinit Hids].
  destruct (run_committed (lw * dpr) (lh * dpr) Hw Hh (map fst canvases) ops _ Hids Hops Hinit)
    as [Hrun _].
  destruct (undo_committed (lw * dpr) (lh * dpr) s Hrun Hidx)
    as (prev & top & Hprv & _ & _ & ->).
  exists prev. cbn [historyIndex history layerCanvases maskCanvas setMask setLayers setHistory].
  split; [exact Hprv|]. split; [reflexivity|]. split; [reflexivity|].
  split; [apply lookup_insert_eq|]. split; [reflexivity|].
  intros id Hid. apply lookup_insert_ne. congruence.
Qed.

(** The snapshots are per layer, and so is [undo]: when the newest entry
    was committed on another layer than the entry before it, [undo] steps
    back in the history but the newest stroke stays on its layer, exactly as
    painted. *)
Theorem undo_keeps_stroke_on_other_layer (canvases : list (string * ImageData))
    (maskC : ImageData) (lw lh dpr : Z) (ops : list Op) (prev top : HistoryState) :
  0 < lw * dpr -> 0 < lh * dpr ->
  Forall (fun kv => wellFormed (snd kv)) canvases -> wellFormed maskC ->
  In "layer-1"%string (map fst canvases) ->
  forallb (isCommitOp (map fst canvases)) ops = true ->
  let s := run ops (init canvases maskC lw lh dpr initialEngine) in
  previous (history s) = Some prev -> newest (history s) = Some top ->
  layerId top <> layerId prev ->
  historyIndex (undo s) = historyIndex s - 1 /\
  layerCanvases s !! layerId top = Some (painting top) /\
  layerCanvases (undo s) !! layerId top = Some (painting top).
Proof.
  intros Hw Hh Hcs Hm Hactive Hops s Hprev Htop Hne.
  destruct (init_committed canvases maskC lw lh dpr Hw Hh Hcs Hm Hactive) as [Hinit Hids].
  destruct (run_committed (lw * dpr) (lh * dpr) Hw Hh (map fst canvases) ops _ Hids Hops Hinit)
    as [Hrun _].
  assert (Hidx : 0 < historyIndex s).
  { destruct Hrun as ((_ & _ & _ & _ & Hi) & _). fold s in Hi. rewrite Hi.
    unfold previous, entryAt in Hprev.
    destruct (Z.ltb_spec (Z.of_nat (length (history s)) - 2) 0); [discriminate Hprev|lia]. }
  destruct (undo_committed (lw * dpr) (lh * dpr) s Hrun Hidx)
    as (prev' & top' & Hprv' & Htop' & Hshown & ->).
  assert (prev' = prev) by congruence. assert (top' = top) by congruence. subst prev' top'.
  cbn [historyIndex layerCanvases setMask setLayers setHistory].
  split; [reflexivity|]. split; [exact Hshown|].
  rewrite lookup_insert_ne by congruence. exact Hshown.
Qed.

Lemma undo_shows_previous_snapshot_witness :
  exists prev,
    previous (history demoEngine) = Some prev /\
    historyIndex (undo demoEngine) = historyIndex demoEngine - 1 /\
    history (undo demoEngine) = history demoEngine /\
    layerCanvases (undo demoEngine) !! layerId prev = Some (painting prev) /\
    maskCanvas (undo demoEngine) = Some (mask prev) /\
    (forall id, id <> layerId prev ->
       layerCanvases (undo demoEngine) !! id = layerCanvases demoEngine !! id).
Proof.
  apply (undo_shows_previous_snapshot demoCanvases demoMask 2 2 1 demoOps).
  - lia.
  - lia.
  - repeat constructor; cbn; lia.
  - repeat constructor; cbn; lia.
  - left. reflexivity.
  - reflexivity.
  - vm_compute. reflexivity.
Defined.

Lemma undo_keeps_stroke_on_other_layer_witness :
  historyIndex (undo demoEngine) = historyIndex demoEngine - 1 /\
  layerCanvases demoEngine !! layerId demoNewest = Some (painting demoNewest) /\
  layerCanvases (undo demoEngine) !! layerId demoNewest = Some (painting demoNewest).
Proof.
  apply (undo_keeps_stroke_on_other_layer demoCanvases demoMask 2 2 1 demoOps
           demoPrevious demoNewest).
  - lia.
  - lia.
  - repeat constructor; cbn; lia.
  - repeat constructor; cbn; lia.
  - left. reflexivity.
  - reflexivity.
  - vm_compute. reflexivity.
  - vm_compute. reflexivity.
  - discriminate.
Defined.

(** *** [clearMask], then [invertMask] *)

Lemma invertPixels_clear (n : nat) :
  invertPixels (repeat 0 (4 * n)) = flat_map (fun _ => [43; 108; 176; 255]) (seq 0 n).
Proof.
  assert (Hgen : forall start, invertPixels (repeat 0 (4 * n))
                 = flat_map (fun _ : nat => [43; 108; 176; 255]) (seq start n)).
  { induction n as [|n IH]; intros start; [reflexivity|].
    replace (4 * S n)%nat with (S (S (S (S (4 * n))))) by lia.
    cbn [repeat invertPixels seq flat_map app]. rewrite (IH (S start)). reflexivity. }
  apply Hgen.
Qed.

Lemma clearCanvas_data (c : ImageData) :
  data (clearCanvas c) = repeat 0 (length (data c)).
Proof.
  unfold clearCanvas, redraw. cbn [data].
  generalize 0%nat. induction (length (data c)) as [|n IH]; intros start; [reflexivity|].
  cbn [seq map repeat]. rewrite IH. reflexivity.
Qed.

(** Inverting a cleared mask masks the whole canvas: after [clearMask] and
    [invertMask] every pixel of the mask is the mask blue (43, 108, 176) at
    full alpha. *)
Theorem invertMask_after_clearMask (s : Engine) (m : ImageData) :
  maskCanvas s = Some m -> wellFormed m -> 0 < width m -> 0 < height m ->
  maskCanvas (invertMask (clearMask s))
  = Some (mkImageData (width m) (height m)
            (flat_map (fun _ => [43; 108; 176; 255])
                      (seq 0 (Z.to_nat (width m * height m))))).
Proof.
  intros Em (Hw & Hh & Hlen) Hwp Hhp. unfold clearMask. rewrite Em.
  set (s1 := commitHistory _).
  assert (Em1 : maskCanvas s1 = Some (clearCanvas m)).
  { subst s1. destruct (commitHistory_rasters (setMask s (Some (clearCanvas m))))
      as (_ & -> & _). reflexivity. }
  assert (Hwf : wellFormed (clearCanvas m)).
  { apply redraw_wellFormed. repeat split; assumption. }
  rewrite (invertMask_mask s1 (clearCanvas m) Em1 Hwf).
  rewrite clearCanvas_data.
  replace (length (data m)) with (4 * Z.to_nat (width m * height m))%nat by lia.
  rewrite invertPixels_clear. reflexivity.
Qed.

Lemma invertMask_after_clearMask_witness :
  maskCanvas (invertMask (clearMask demoEngine))
  = Some (mkImageData (width (mkImageData 2 2 demoMaskData))
                      (height (mkImageData 2 2 demoMaskData))
            (flat_map (fun _ => [43; 108; 176; 255])
               (seq 0 (Z.to_nat (width (mkImageData 2 2 demoMaskData)
                                 * height (mkImageData 2 2 demoMaskData)))))).
Proof.
  apply (invertMask_after_clearMask demoEngine (mkImageData 2 2 demoMaskData)).
  - vm_compute. reflexivity.
  - repeat split; cbn; lia.
  - cbn. lia.
  - cbn. lia.
Defined.

End UndoFacts.

(** ** Properties of the mask and fill tools *)

Module SelectionFacts.
Import Canvas Engine Settings PatternTools SelectionTools Invariants PatternFacts.
Local Open Scope Q_scope.

Lemma Qltb_false (a b : Q) : b <= a -> Qltb a b = false.
Proof.
  intros H. unfold Qltb. apply negb_false_iff. apply Qle_bool_iff. exact H.
Qed.

(** The bounding box stays inside any interval that holds all the points. *)
Lemma boundsOf_within_x (lo hi : Q) (points : list Point2) :
  forall b0, lo <= minX b0 -> maxX b0 <= hi -> minX b0 <= maxX b0 ->
    (forall p, In p points -> lo <= px p <= hi) ->
    let b := fold_left
      (fun b p => mkBounds (Qmin (minX b) (px p)) (Qmax (maxX b) (px p))
                           (Qmin (minY b) (py p)) (Qmax (maxY b) (py p))) points b0 in
    lo <= minX b /\ maxX b <= hi /\ minX b <= maxX b.
Proof.
  induction points as [|p points IH]; intros b0 Hlo Hhi Hle Hall; [cbn; tauto|].
  cbn [fold_left]. apply IH.
  - cbn [minX]. apply Q.min_glb; [exact Hlo|]. apply Hall. left. reflexivity.
  - cbn [maxX]. apply Q.max_lub; [exact Hhi|]. apply Hall. left. reflexivity.
  - cbn [minX maxX].
    pose proof (Q.le_min_l (minX b0) (px p)). pose proof (Q.le_max_l (maxX b0) (px p)). lra.
  - intros q Hq. apply Hall. right. exact Hq.
Qed.

Lemma boundsOf_within_y (lo hi : Q) (points : list Point2) :
  forall b0, lo <= minY b0 -> maxY b0 <= hi -> minY b0 <= maxY b0 ->
    (forall p, In p points -> lo <= py p <= hi) ->
    let b := fold_left
      (fun b p => mkBounds (Qmin (minX b) (px p)) (Qmax (maxX b) (px p))
                           (Qmin (minY b) (py p)) (Qmax (maxY b) (py p))) points b0 in
    lo <= minY b /\ maxY b <= hi /\ minY b <= maxY b.
Proof.
  induction points as [|p points IH]; intros b0 Hlo Hhi Hle Hall; [cbn; tauto|].
  cbn [fold_left]. apply IH.
  - cbn [minY]. apply Q.min_glb; [exact Hlo|]. apply Hall. left. reflexivity.
  - cbn [maxY]. apply Q.max_lub; [exact Hhi|]. apply Hall. left. reflexivity.
  - cbn [minY maxY].
    pose proof (Q.le_min_l (minY b0) (py p)). pose proof (Q.le_max_l (maxY b0) (py p)). lra.
  - intros q Hq. apply Hall. right. exact Hq.
Qed.

Lemma narrow_box_x (dpr lo hi : Q) (p0 : Point2) (points : list Point2) :
  0 <= dpr -> In p0 points -> (forall p, In p points -> lo <= px p <= hi) ->
  (hi - lo) * dpr < 1 ->
  Qltb ((maxX (boundsOf p0 points) - minX (boundsOf p0 points)) * dpr) 1 = true.
Proof.
  intros Hd Hp0 Hall Hnarrow. apply Qltb_true.
  pose proof (Hall p0 Hp0) as H0.
  destruct (boundsOf_within_x lo hi points (mkBounds (px p0) (px p0) (py p0) (py p0)))
    as (Hlo & Hhi & Hle); cbn [minX maxX]; try lra; try exact Hall.
  fold (boundsOf p0 points) in Hlo, Hhi, Hle.
  set (b := boundsOf p0 points) in *. nra.
Qed.

Lemma narrow_box_y (dpr lo hi : Q) (p0 : Point2) (points : list Point2) :
  0 <= dpr -> In p0 points -> (forall p, In p points -> lo <= py p <= hi) ->
  (hi - lo) * dpr < 1 ->
  Qltb ((maxY (boundsOf p0 points) - minY (boundsOf p0 points)) * dpr) 1 = true.
Proof.
  intros Hd Hp0 Hall Hnarrow. apply Qltb_true.
  pose proof (Hall p0 Hp0) as H0.
  destruct (boundsOf_within_y lo hi points (mkBounds (px p0) (px p0) (py p0) (py p0)))
    as (Hlo & Hhi & Hle); cbn [minY maxY]; try lra; try exact Hall.
  fold (boundsOf p0 points) in Hlo, Hhi, Hle.
  set (b := boundsOf p0 points) in *. nra.
Qed.

Section Rasteriser.

Variable Math_hypot : Q -> Q -> Q.
Variable maskLasso : BrushSettings -> list Point2 -> nat -> list Z -> Z.
Variable maskTape : BrushSettings -> Q -> Q -> Q -> Q -> nat -> list Z -> Z.
Variable fillLasso : BrushSettings -> list Point2 -> Engine -> nat -> list Z -> Z.
Variable fillRect : BrushSettings -> Point2 -> Point2 -> Engine -> nat -> list Z -> Z.
Variable fillGradBlend : BrushSettings -> list Point2 -> Engine -> nat -> list Z -> Z.
Variable fillStipple : BrushSettings -> list Point2 -> Engine -> nat -> list Z -> Z.

Local Abbreviation drawLasso := (drawLasso maskLasso).
Local Abbreviation drawTape := (drawTape Math_hypot maskTape).
Local Abbreviation drawLassoFill := (drawLassoFill fillLasso).
Local Abbreviation drawRectLassoFill := (drawRectLassoFill fillRect).
Local Abbreviation drawGradBlendLasso := (drawGradBlendLasso fillGradBlend).
Local Abbreviation drawStippleLasso := (drawStippleLasso fillStipple).

Lemma few_points_cases (points : list Point2) :
  (length points < 3)%nat ->
  points = [] \/ (exists p, points = [p]) \/ (exists p q, points = [p; q]).
Proof.
  destruct points as [|p [|q [|r l]]]; cbn [length]; intros Hl; eauto; lia.
Qed.


End Rasteriser.


Example drawLassoFill_vertical_line :
  drawLassoFill demoFill demoSettings 1
    [mkPoint2 1 0; mkPoint2 1 1; mkPoint2 1 2] demoEngine = demoEngine.
Proof. vm_compute. reflexivity. Qed.

Example drawLassoFill_triangle :
  let s := drawLassoFill demoFill demoSettings 1
             [mkPoint2 0 0; mkPoint2 2 0; mkPoint2 0 2] demoEngine in
  length (history s) = 7%nat /\
  layerCanvases s !! "layer-1"%string = Some (mkImageData 2 2 (repeat 120%Z 16)).
Proof. vm_compute. split; reflexivity. Qed.

(** [drawStippleLasso] has no such test: on a lasso without area it still
    commits an entry. *)
Example drawStippleLasso_vertical_line :
  length (history
            (drawStippleLasso (fun _ _ _ i old => nth i old 0%Z) demoSettings
               [mkPoint2 1 0; mkPoint2 1 1; mkPoint2 1 2] demoEngine)) = 7%nat.
Proof. vm_compute. reflexivity. Qed.

End SelectionFacts.

(** ** The visual texture of the paper *)

Module PaperFacts.
Import Canvas CanvasFacts PaperTexture PaperTextureFacts PaperDemo.
Local Open Scope Z_scope.

Section Sources.

Variable Math_pow : float -> float -> float.
Variable drawScaledOnWhite : ImageData -> Z -> Z -> ImageData.

(** The visual texture keeps the colours of the image scaled onto the tile,
    byte for byte, and is fully opaque; for a tile without area both
    textures are single transparent pixels. The hypothesis says what the
    code has set up before it draws: the visual canvas has the size of the
    tile. *)
Theorem processPaperTexture_visual (img : ImageData) (width height x y : Z) :
  (forall w h, (0 < w)%Z -> (0 < h)%Z ->
     wellFormed (drawScaledOnWhite img w h) /\
     Canvas.width (drawScaledOnWhite img w h) = w /\
     Canvas.height (drawScaledOnWhite img w h) = h) ->
  let texture := processPaperTexture Math_pow drawScaledOnWhite img width height in
  ((0 < width)%Z -> (0 < height)%Z -> (0 <= x < width)%Z -> (0 <= y < height)%Z ->
   Canvas.width (visual texture) = width /\
   Canvas.height (visual texture) = height /\
   match pixelAt (drawScaledOnWhite img width height) x y with
   | [R; G; B; _] => pixelAt (visual texture) x y = [R; G; B; 255%Z]
   | _ => False
   end) /\
  ((width <= 0)%Z \/ (height <= 0)%Z ->
   visual texture = mkImageData 1 1 [0; 0; 0; 0]%Z /\
   heightMap texture = mkImageData 1 1 [0; 0; 0; 0]%Z).
Proof.
  intros Hsrc texture. split.
  - intros Hw Hh Hx Hy.
    destruct (Hsrc width height Hw Hh) as (Hwf & Ew & Eh).
    assert (Eguard : ((width <=? 0) || (height <=? 0))%Z = false).
    { destruct (Z.leb_spec width 0); [lia|]. destruct (Z.leb_spec height 0); [lia|].
      reflexivity. }
    subst texture. unfold processPaperTexture. rewrite Eguard. cbv zeta.
    set (canvas := drawScaledOnWhite img width height) in *.
    pose proof (getImageData_full canvas Hwf) as Efull. rewrite Ew, Eh in Efull.
    rewrite Efull.
    assert (Hlen : length (data canvas) = (4 * Z.to_nat (width * height))%nat).
    { destruct Hwf as (_ & _ & Hl). rewrite Ew, Eh in Hl. lia. }
    pose proof (pixelLoop_length Math_pow (data canvas)) as [Hlv Hlh].
    set (i := Z.to_nat (y * width + x)).
    assert (Hi : (4 * i + 3 < length (data canvas))%nat) by (subst i; nia).
    pose proof (pixelLoop_pixel Math_pow i (data canvas) Hi) as [_ Hpix].
    destruct (pixelLoop Math_pow (data canvas)) as [vData hData]. cbn [fst snd visual] in *.
    assert (Hwfv : wellFormed (mkImageData width height vData)).
    { repeat split; cbn [Canvas.width Canvas.height data]; lia. }
    rewrite (putImageData_same_size (mkImageData width height vData) canvas Hwfv)
      by (cbn [Canvas.width Canvas.height]; congruence).
    cbn [Canvas.width Canvas.height].
    split; [reflexivity|]. split; [reflexivity|].
    assert (Ei : Z.of_nat i = (y * width + x)%Z) by (subst i; nia).
    assert (Ex : x = (Z.of_nat i mod width)%Z)
      by (rewrite Ei; apply Z.mod_unique with y; lia).
    assert (Ey : y = (Z.of_nat i / width)%Z)
      by (rewrite Ei; apply Z.div_unique with x; lia).
    rewrite Ex, Ey.
    pose proof (pixelAt_row_major canvas i) as Psrc.
    pose proof (pixelAt_row_major (mkImageData width height vData) i) as Pv.
    rewrite Ew, Eh in Psrc. cbn [Canvas.width Canvas.height data] in Pv.
    rewrite Psrc, Pv by nia. exact Hpix.
  - intros Hdegenerate.
    assert (Eguard : ((width <=? 0) || (height <=? 0))%Z = true).
    { destruct Hdegenerate.
      - destruct (Z.leb_spec width 0); [reflexivity|lia].
      - destruct (Z.leb_spec height 0); [apply orb_true_r|lia]. }
    subst texture. unfold processPaperTexture. rewrite Eguard. split; reflexivity.
Qed.

End Sources.

Lemma processPaperTexture_visual_witness :
  let texture := processPaperTexture cubeByProducts demoScaledGrey (blank 4 4) 2 1 in
  ((0 < 2)%Z -> (0 < 1)%Z -> (0 <= 1 < 2)%Z -> (0 <= 0 < 1)%Z ->
   Canvas.width (visual texture) = 2%Z /\
   Canvas.height (visual texture) = 1%Z /\
   match pixelAt (demoScaledGrey (blank 4 4) 2 1) 1 0 with
   | [R; G; B; _] => pixelAt (visual texture) 1 0 = [R; G; B; 255%Z]
   | _ => False
   end) /\
  ((2 <= 0)%Z \/ (1 <= 0)%Z ->
   visual texture = mkImageData 1 1 [0; 0; 0; 0]%Z /\
   heightMap texture = mkImageData 1 1 [0; 0; 0; 0]%Z).
Proof.
  apply (processPaperTexture_visual cubeByProducts demoScaledGrey (blank 4 4) 2 1 1 0).
  intros w h Hw Hh. unfold demoScaledGrey. split; [|split; reflexivity].
  repeat split; cbn [Canvas.width Canvas.height data]; try lia.
  rewrite repeat_length. lia.
Defined.

Example processPaperTexture_keeps_colour :
  visual (processPaperTexture cubeByProducts demoScaled (blank 4 4) 2 1)
  = mkImageData 2 1 [255; 255; 255; 255; 128; 128; 128; 255]%Z.
Proof. vm_compute. reflexivity. Qed.

End PaperFacts.

(** ** The gamut of the in-place pigment mixer *)

Module MixFacts.
Import Settings Stroke StrokeFacts.
Local Open Scope Q_scope.

Lemma Qltb_cases (a b : Q) : (Qltb a b = true /\ a < b) \/ (Qltb a b = false /\ b <= a).
Proof.
  unfold Qltb. destruct (Qle_bool b a) eqn:E; cbn [negb].
  - right. split; [reflexivity|]. apply Qle_bool_iff, E.
  - left. split; [reflexivity|]. apply Qnot_le_lt. intros H.
    apply Qle_bool_iff in H. congruence.
Qed.

(** One channel of the CMYK conversion the mixer inlines: for [k <= c <= 1]
    and [k < 1] the corrected channel is in [0, 1]. *)
Lemma channel_range (c k : Q) :
  k <= c -> c <= 1 -> k < 1 -> 0 <= (c - k) / (1 - k) <= 1.
Proof.
  intros Hkc Hc Hk. split.
  - apply Qle_shift_div_l; lra.
  - apply Qle_shift_div_r; lra.
Qed.

Lemma Qmin3_le (a b c : Q) :
  Qmin a (Qmin b c) <= a /\ Qmin a (Qmin b c) <= b /\ Qmin a (Qmin b c) <= c.
Proof.
  pose proof (Q.le_min_l a (Qmin b c)). pose proof (Q.le_min_r a (Qmin b c)).
  pose proof (Q.le_min_l b c). pose proof (Q.le_min_r b c).
  repeat split; lra.
Qed.

Lemma Qmin3_glb (lo a b c : Q) : lo <= a -> lo <= b -> lo <= c -> lo <= Qmin a (Qmin b c).
Proof. intros. apply Q.min_glb; [assumption|]. apply Q.min_glb; assumption. Qed.

(** The interpolated channel and the colour it gives. *)
Lemma mixed_range (x1 x2 k1 k2 t : Q) :
  0 <= x1 <= 1 -> 0 <= x2 <= 1 -> 0 <= k1 <= 1 -> 0 <= k2 <= 1 -> 0 <= t <= 1 ->
  0 <= 255 * (1 - (x1 + (x2 - x1) * t)) * (1 - (k1 + (k2 - k1) * t)) <= 255.
Proof.
  intros H1 H2 H3 H4 Ht.
  set (x := x1 + (x2 - x1) * t). set (k := k1 + (k2 - k1) * t).
  assert (Hx : 0 <= x <= 1) by (subst x; nra).
  assert (Hk : 0 <= k <= 1) by (subst k; nra).
  nra.
Qed.

Lemma cmyk_of_byte (v : Q) : 0 <= v <= 255 -> 0 <= 1 - v / 255 <= 1.
Proof.
  intros Hv. unfold Qdiv. change (/ 255) with (1 # 255). lra.
Qed.

(** Mixing two colours with channels in [0, 255] by a factor in [0, 1]
    gives channels in [0, 255]. *)
Lemma mixPigmentsFloatInPlace_gamut (target source : ColorRGB) (t : Q) :
  0 <= r target <= 255 -> 0 <= g target <= 255 -> 0 <= b target <= 255 ->
  0 <= r source <= 255 -> 0 <= g source <= 255 -> 0 <= b source <= 255 ->
  0 <= t <= 1 ->
  StrokeInvariants.inGamut (mixPigmentsFloatInPlace target source t).
Proof.
  intros Hr1 Hg1 Hb1 Hr2 Hg2 Hb2 Ht.
  pose proof (cmyk_of_byte _ Hr1) as Hc1. pose proof (cmyk_of_byte _ Hg1) as Hm1.
  pose proof (cmyk_of_byte _ Hb1) as Hy1. pose proof (cmyk_of_byte _ Hr2) as Hc2.
  pose proof (cmyk_of_byte _ Hg2) as Hm2. pose proof (cmyk_of_byte _ Hb2) as Hy2.
  unfold StrokeInvariants.inGamut, mixPigmentsFloatInPlace. cbv zeta.
  set (c1 := 1 - r target / 255) in *. set (m1 := 1 - g target / 255) in *.
  set (y1 := 1 - b target / 255) in *. set (c2 := 1 - r source / 255) in *.
  set (m2 := 1 - g source / 255) in *. set (y2 := 1 - b source / 255) in *.
  set (k1 := Qmin c1 (Qmin m1 y1)). set (k2 := Qmin c2 (Qmin m2 y2)).
  destruct (Qmin3_le c1 m1 y1) as (Hk1c & Hk1m & Hk1y). fold k1 in Hk1c, Hk1m, Hk1y.
  destruct (Qmin3_le c2 m2 y2) as (Hk2c & Hk2m & Hk2y). fold k2 in Hk2c, Hk2m, Hk2y.
  assert (Hk1 : 0 <= k1) by (apply Qmin3_glb; lra).
  assert (Hk2 : 0 <= k2) by (apply Qmin3_glb; lra).
  destruct (Qltb_cases k1 1) as [[-> Hlt1]|[-> Hge1]];
    destruct (Qltb_cases k2 1) as [[-> Hlt2]|[-> Hge2]]; cbn [r g b].
  - pose proof (channel_range c1 k1 Hk1c ltac:(lra) Hlt1).
    pose proof (channel_range m1 k1 Hk1m ltac:(lra) Hlt1).
    pose proof (channel_range y1 k1 Hk1y ltac:(lra) Hlt1).
    pose proof (channel_range c2 k2 Hk2c ltac:(lra) Hlt2).
    pose proof (channel_range m2 k2 Hk2m ltac:(lra) Hlt2).
    pose proof (channel_range y2 k2 Hk2y ltac:(lra) Hlt2).
    repeat split; apply mixed_range; lra.
  - pose proof (channel_range c1 k1 Hk1c ltac:(lra) Hlt1).
    pose proof (channel_range m1 k1 Hk1m ltac:(lra) Hlt1).
    pose proof (channel_range y1 k1 Hk1y ltac:(lra) Hlt1).
    repeat split; apply mixed_range; lra.
  - pose proof (channel_range c2 k2 Hk2c ltac:(lra) Hlt2).
    pose proof (channel_range m2 k2 Hk2m ltac:(lra) Hlt2).
    pose proof (channel_range y2 k2 Hk2y ltac:(lra) Hlt2).
    repeat split; apply mixed_range; lra.
  - repeat split; apply mixed_range; lra.
Qed.

End MixFacts.

(** ** What a stroke does to the bristles *)

Module StrokeBristleFacts.
Import Settings Stroke StrokeInvariants StrokeDemo StrokeFacts.
Local Open Scope Q_scope.

Lemma keepsBristle_refl (br : Bristle) : keepsBristle br br.
Proof. unfold keepsBristle, sameShape. tauto. Qed.

Lemma keepsBristle_trans (a b c : Bristle) :
  keepsBristle a b -> keepsBristle b c -> keepsBristle a c.
Proof.
  unfold keepsBristle, sameShape.
  intros ((?&?&?&?&?&?&?&?) & Hg1 & Hp1) ((?&?&?&?&?&?&?&?) & Hg2 & Hp2).
  repeat split; try congruence; try tauto; apply Hg2, Hg1; assumption.
Qed.

Lemma Forall2_keepsBristle_refl (bs : list Bristle) : Forall2 keepsBristle bs bs.
Proof. induction bs; constructor; [apply keepsBristle_refl | assumption]. Qed.

Lemma Forall2_keepsBristle_trans (l1 l2 l3 : list Bristle) :
  Forall2 keepsBristle l1 l2 -> Forall2 keepsBristle l2 l3 -> Forall2 keepsBristle l1 l3.
Proof.
  intros H12. revert l3. induction H12 as [|a b l1 l2 Hab _ IH]; intros l3 H23.
  - inversion H23. constructor.
  - inversion H23 as [|b' c l2' l3' Hbc Hrest]; subst. constructor.
    + eapply keepsBristle_trans; eassumption.
    + apply IH, Hrest.
Qed.

Lemma inject_Z_byte (v : Z) : (0 <= v <= 255)%Z -> 0 <= inject_Z v <= 255.
Proof.
  intros [H0 H1]. split.
  - change 0 with (inject_Z 0). rewrite <- Zle_Qle. exact H0.
  - change 255 with (inject_Z 255). rewrite <- Zle_Qle. exact H1.
Qed.

Lemma stampBristle_keeps settings speedFactor smp load br :
  byteSample smp -> keepsBristle br (snd (stampBristle settings speedFactor smp load br)).
Proof.
  intros Hs. unfold stampBristle. cbv zeta.
  destruct (_ && Qltb _ _); [apply keepsBristle_refl|].
  unfold byteSample in Hs.
  destruct (wetPixel smp) as [[[[er eg] eb] ea]|]; [|apply keepsBristle_refl].
  destruct (_ && _); [|apply keepsBristle_refl].
  destruct Hs as (Hr & Hg & Hb).
  apply inject_Z_byte in Hr, Hg, Hb.
  destruct (hasPaint br) eqn:Ep; cbn [negb snd].
  - unfold keepsBristle, sameShape. cbn [dx dy length thickness tempBias hueBias feather
      drySensitivity color hasPaint].
    repeat split; try reflexivity; try assumption;
      destruct H as (Hbr & Hbg & Hbb);
      apply (MixFacts.mixPigmentsFloatInPlace_gamut (color br)
               (mkColorRGB (inject_Z er) (inject_Z eg) (inject_Z eb)) 0.1);
      cbn [r g b]; try assumption; lra.
  - unfold keepsBristle, sameShape, inGamut. cbn [dx dy length thickness tempBias hueBias
      feather drySensitivity color hasPaint r g b].
    repeat split; try reflexivity; try tauto.
Qed.

Lemma stampBristle_dry_bristle settings speedFactor smp load br :
  wetMode settings = false -> snd (stampBristle settings speedFactor smp load br) = br.
Proof.
  intros Hdry. unfold stampBristle. cbv zeta. rewrite Hdry.
  destruct (_ && Qltb _ _); [reflexivity|].
  destruct (wetPixel smp) as [[[[er eg] eb] ea]|]; reflexivity.
Qed.

Lemma bristleLoop_keeps settings speedFactor samples bIndex load bs :
  (forall b, byteSample (samples b)) ->
  Forall2 keepsBristle bs (snd (bristleLoop settings speedFactor samples bIndex load bs)).
Proof.
  intros Hs. revert bIndex load.
  induction bs as [|br rest IH]; intros bIndex load; [constructor|].
  cbn [bristleLoop].
  pose proof (stampBristle_keeps settings speedFactor (samples bIndex) load br (Hs bIndex)) as H1.
  destruct (stampBristle _ _ _ load br) as [load1 br1]. cbn [snd] in H1.
  specialize (IH (S bIndex) load1).
  destruct (bristleLoop _ _ _ (S bIndex) load1 rest) as [load2 rest']. cbn [snd] in *.
  constructor; assumption.
Qed.

Lemma bristleLoop_dry_bristles settings speedFactor samples bIndex load bs :
  wetMode settings = false ->
  snd (bristleLoop settings speedFactor samples bIndex load bs) = bs.
Proof.
  intros Hdry. revert bIndex load.
  induction bs as [|br rest IH]; intros bIndex load; [reflexivity|].
  cbn [bristleLoop].
  pose proof (stampBristle_dry_bristle settings speedFactor (samples bIndex) load br Hdry) as H1.
  destruct (stampBristle _ _ _ load br) as [load1 br1]. cbn [snd] in H1. subst br1.
  specialize (IH (S bIndex) load1).
  destruct (bristleLoop _ _ _ (S bIndex) load1 rest) as [load2 rest']. cbn [snd] in *.
  congruence.
Qed.

Lemma instanceLoop_keeps settings speedFactor samples count cIndex load bs :
  (forall c b, byteSample (samples c b)) ->
  Forall2 keepsBristle bs (snd (instanceLoop settings speedFactor samples count cIndex load bs)).
Proof.
  intros Hs. revert cIndex load bs.
  induction count as [|count IH]; intros cIndex load bs;
    [apply Forall2_keepsBristle_refl|].
  cbn [instanceLoop].
  pose proof (bristleLoop_keeps settings speedFactor (samples cIndex) 0 load bs (Hs cIndex)) as H1.
  destruct (bristleLoop _ _ _ 0%nat load bs) as [load1 bs1]. cbn [snd] in H1.
  eapply Forall2_keepsBristle_trans; [exact H1 | apply IH].
Qed.

Lemma instanceLoop_dry_bristles settings speedFactor samples count cIndex load bs :
  wetMode settings = false ->
  snd (instanceLoop settings speedFactor samples count cIndex load bs) = bs.
Proof.
  intros Hdry. revert cIndex load bs.
  induction count as [|count IH]; intros cIndex load bs; [reflexivity|].
  cbn [instanceLoop].
  pose proof (bristleLoop_dry_bristles settings speedFactor (samples cIndex) 0 load bs Hdry) as H1.
  destruct (bristleLoop _ _ _ 0%nat load bs) as [load1 bs1]. cbn [snd] in H1. subst bs1.
  apply IH.
Qed.

Lemma stepLoop_keeps settings speedFactor stepSize samples count iIndex load bs :
  (forall i c b, byteSample (samples i c b)) ->
  Forall2 keepsBristle bs
    (snd (stepLoop settings speedFactor stepSize samples count iIndex load bs)).
Proof.
  intros Hs. revert iIndex load bs.
  induction count as [|count IH]; intros iIndex load bs;
    [apply Forall2_keepsBristle_refl|].
  cbn [stepLoop]. cbv zeta.
  pose proof (instanceLoop_keeps settings speedFactor (samples iIndex)
                (if isPastelType (brushType settings) then 2%nat else 1%nat) 0
                (Qmax 0 (load - depletion settings speedFactor stepSize load)) bs
                (Hs iIndex)) as H1.
  destruct (instanceLoop _ _ _ _ _ _ bs) as [load2 bs2]. cbn [snd] in H1.
  eapply Forall2_keepsBristle_trans; [exact H1 | apply IH].
Qed.

Lemma depletion_dry_pastel settings speedFactor stepSize load :
  wetMode settings = false -> isPastelType (brushType settings) = true ->
  depletion settings speedFactor stepSize load == 0.
Proof.
  intros Hdry Hp. unfold depletion. cbv zeta. rewrite Hdry, Hp. cbn [andb negb]. lra.
Qed.

Lemma stepLoop_dry_state settings speedFactor stepSize samples count iIndex load bs :
  wetMode settings = false -> 0 <= load ->
  snd (stepLoop settings speedFactor stepSize samples count iIndex load bs) = bs /\
  (isPastelType (brushType settings) = true ->
   fst (stepLoop settings speedFactor stepSize samples count iIndex load bs) == load).
Proof.
  intros Hdry. revert iIndex load bs.
  induction count as [|count IH]; intros iIndex load bs Hl;
    [split; [reflexivity | intros _; reflexivity]|].
  cbn [stepLoop]. cbv zeta.
  set (load1 := Qmax 0 (load - depletion settings speedFactor stepSize load)).
  pose proof (instanceLoop_dry_bristles settings speedFactor (samples iIndex)
                (if isPastelType (brushType settings) then 2%nat else 1%nat) 0
                load1 bs Hdry) as Hb.
  pose proof (instanceLoop_dry settings speedFactor (samples iIndex)
                (if isPastelType (brushType settings) then 2%nat else 1%nat) 0
                load1 bs Hdry) as Hf.
  destruct (instanceLoop _ _ _ _ _ _ bs) as [load2 bs2]. cbn [fst snd] in Hb, Hf.
  subst load2 bs2.
  assert (H1 : 0 <= load1) by apply Q.le_max_l.
  destruct (IH (S iIndex) load1 bs H1) as [Ebs Eload]. split; [exact Ebs|].
  intros Hp. rewrite (Eload Hp). subst load1.
  rewrite (depletion_dry_pastel settings speedFactor stepSize load Hdry Hp).
  rewrite Q.max_r by lra. lra.
Qed.

Section Geometry.

Variable Math_hypot : Q -> Q -> Q.

(** A segment of a stroke re-colours bristles and nothing else. Over a wet
    buffer of bytes, [drawSegment] leaves as many bristles as it found, each
    with its geometry, dry sensitivity and biases; a bristle that has paint
    keeps paint; and pigments that were colours (channels in [0, 255]) are
    colours afterwards. *)
Theorem drawSegment_keeps_bristles (settings : BrushSettings) (ctx : bool)
    (samples : nat -> nat -> nat -> Sample) (px py pp : Q) (st : StrokeState) :
  (forall i c b, byteSample (samples i c b)) ->
  Forall (fun br => inGamut (color br)) (bristles st) ->
  let st' := drawSegment Math_hypot settings ctx samples px py pp st in
  Forall2 (fun old new =>
             sameShape old new /\ inGamut (color new) /\
             (hasPaint old = true -> hasPaint new = true))
          (bristles st) (bristles st').
Proof.
  intros Hs Hg st'.
  assert (Hk : Forall2 keepsBristle (bristles st) (bristles st')).
  { subst st'. unfold drawSegment. cbv zeta.
    destruct (_ || _); [apply Forall2_keepsBristle_refl|].
    destruct (_ && hasMoved st); [apply Forall2_keepsBristle_refl|].
    match goal with
    | |- context [stepLoop ?a ?b ?c ?d ?e ?f ?g ?h] =>
        pose proof (stepLoop_keeps a b c d e f g h Hs) as H1;
        destruct (stepLoop a b c d e f g h) as [load bs]
    end.
    exact H1. }
  clear -Hk Hg. induction Hk as [|old new l l' Hon _ IH]; [constructor|].
  inversion Hg as [|? ? Hold Hrest]; subst.
  destruct Hon as (Hshape & Hgamut & Hpaint).
  constructor; [|apply IH, Hrest].
  split; [exact Hshape|]. split; [apply Hgamut, Hold | exact Hpaint].
Qed.

(** In dry mode a segment does not touch the bristles at all, and a pastel
    does not run dry: its [paintLoad] is after the segment what it was
    before. *)
Theorem drawSegment_dry_mode (settings : BrushSettings) (ctx : bool)
    (samples : nat -> nat -> nat -> Sample) (px py pp : Q) (st : StrokeState) :
  wetMode settings = false ->
  0 <= paintLoad st ->
  let st' := drawSegment Math_hypot settings ctx samples px py pp st in
  bristles st' = bristles st /\
  (isPastelType (brushType settings) = true -> paintLoad st' == paintLoad st).
Proof.
  intros Hdry Hl st'. subst st'. unfold drawSegment. cbv zeta.
  destruct (_ || _); [split; [reflexivity | intros _; reflexivity]|].
  destruct (_ && hasMoved st); [split; [reflexivity | intros _; reflexivity]|].
  match goal with
  | |- context [stepLoop ?a ?b ?c ?d ?e ?f ?g ?h] =>
      pose proof (stepLoop_dry_state a b c d e f g h Hdry Hl) as H1;
      destruct (stepLoop a b c d e f g h) as [load bs]
  end.
  exact H1.
Qed.

End Geometry.

(** A wet round brush over an opaque blue pixel: the first bristle takes up
    a tenth of the blue, the second one is left as it was. *)
Example wetSegment_recolours_first_bristle :
  map (fun br => (color br, hasPaint br))
      (bristles (drawSegment PatternTools.hypotExact wetSettings true wetSamples 51 256 0.5
                   (strokeUnderWay 1 demoBristles))) =
  map (fun br => (color br, hasPaint br))
      [mkBristle (-0.2) 0 1 1 0 0 0 0.9
         (mixPigmentsFloatInPlace (mkColorRGB 204 51 51) (mkColorRGB 0 0 255) 0.1) true;
       mkBristle 0.1 0.05 1 0.8 0.1 0 0 0.4 (mkColorRGB 204 51 51) true].
Proof. vm_compute. reflexivity. Qed.

Lemma drawSegment_keeps_bristles_witness :
  let st := strokeUnderWay 1 demoBristles in
  let st' := drawSegment PatternTools.hypotExact wetSettings true wetSamples 450 256 0.5 st in
  Forall2 (fun old new =>
             sameShape old new /\ inGamut (color new) /\
             (hasPaint old = true -> hasPaint new = true))
          (bristles st) (bristles st').
Proof.
  apply (drawSegment_keeps_bristles PatternTools.hypotExact wetSettings true wetSamples
           450 256 0.5 (strokeUnderWay 1 demoBristles)).
  - intros [|i] [|c] [|b]; unfold byteSample; cbn; try exact I; lia.
  - repeat constructor; cbn; lra.
Defined.

Lemma drawSegment_dry_mode_witness :
  let st := strokeUnderWay (1 # 2) demoBristles in
  let st' := drawSegment PatternTools.hypotExact pastelSettings true drySamples 450 256 0.5 st in
  bristles st' = bristles st /\
  (isPastelType (brushType pastelSettings) = true -> paintLoad st' == paintLoad st).
Proof.
  apply (drawSegment_dry_mode PatternTools.hypotExact pastelSettings true drySamples
           450 256 0.5 (strokeUnderWay (1 # 2) demoBristles)).
  - reflexivity.
  - cbn. lra.
Defined.

End StrokeBristleFacts.

(** ** The pigment and the order of new bristles *)

Module BristleOrderFacts.
Import Settings Stroke Bristles BristleInvariants.
Local Open Scope Q_scope.

Lemma Qltb_total (a b : Q) : (Qltb a b = true /\ a < b) \/ (Qltb a b = false /\ b <= a).
Proof.
  unfold Qltb. destruct (Qle_bool b a) eqn:E; cbn [negb].
  - right. split; [reflexivity|]. apply Qle_bool_iff, E.
  - left. split; [reflexivity|]. apply Qnot_le_lt. intros H.
    apply Qle_bool_iff in H. congruence.
Qed.

Lemma insertByDy_Forall (P : Bristle -> Prop) (br : Bristle) (sorted : list Bristle) :
  P br -> Forall P sorted -> Forall P (insertByDy br sorted).
Proof.
  intros Hbr. induction sorted as [|hd tl IH]; intros Hl; cbn [insertByDy].
  - constructor; [exact Hbr | constructor].
  - destruct (Qltb _ _); [constructor; assumption|].
    inversion Hl; subst. constructor; [assumption | apply IH; assumption].
Qed.

Lemma insertByDy_ascending (br : Bristle) (sorted : list Bristle) :
  ascendingDy sorted -> ascendingDy (insertByDy br sorted).
Proof.
  induction sorted as [|hd tl IH]; intros Hs; cbn [insertByDy].
  - cbn. split; [constructor | exact I].
  - destruct Hs as [Hhd Htl].
    destruct (Qltb_total (dy br) (dy hd)) as [[-> Hlt]|[-> Hge]].
    + cbn [ascendingDy]. split; [|split; assumption].
      constructor; [lra|].
      eapply Forall_impl; [exact Hhd|]. cbn. intros other Ho. lra.
    + cbn [ascendingDy]. split; [|apply IH, Htl].
      apply insertByDy_Forall; assumption.
Qed.

Lemma sortByDy_facts (P : Bristle -> Prop) (bs : list Bristle) :
  Forall P bs -> Forall P (sortByDy bs) /\ ascendingDy (sortByDy bs).
Proof.
  unfold sortByDy.
  assert (Hgen : forall l acc,
            Forall P l -> Forall P acc -> ascendingDy acc ->
            Forall P (fold_left (fun sorted br => insertByDy br sorted) l acc) /\
            ascendingDy (fold_left (fun sorted br => insertByDy br sorted) l acc)).
  { induction l as [|x l IH]; intros acc Hl Hacc Hasc; [split; assumption|].
    inversion Hl; subst. cbn [fold_left]. apply IH; [assumption| |].
    - apply insertByDy_Forall; assumption.
    - apply insertByDy_ascending, Hasc. }
  intros Hbs. apply Hgen; [exact Hbs | constructor | exact I].
Qed.

Section Generator.

Variable Math_random : nat -> Q.
Variables Math_cos Math_sin Math_sqrt : Q -> Q.
Variables Math_pow Math_hypot : Q -> Q -> Q.
Variable Math_PI : Q.
Variable randomSort : list Bristle -> Rand (list Bristle).

Local Abbreviation candidate := (candidate Math_random Math_cos Math_sin Math_pow Math_PI).
Local Abbreviation bristleCandidates :=
  (bristleCandidates Math_random Math_cos Math_sin Math_pow Math_PI).
Local Abbreviation pastelParticles :=
  (pastelParticles Math_random Math_cos Math_sin Math_sqrt Math_hypot Math_PI).
Local Abbreviation updateBristles :=
  (updateBristles Math_random Math_cos Math_sin Math_sqrt Math_pow Math_hypot Math_PI
     randomSort).

Lemma pushBristle_pigment baseColor startWithPaint geometry n :
  color (fst (pushBristle Math_random baseColor startWithPaint geometry n)) = baseColor /\
  hasPaint (fst (pushBristle Math_random baseColor startWithPaint geometry n)) = startWithPaint.
Proof. destruct geometry as [[[gx gy] gl] gt]. split; reflexivity. Qed.

Lemma bristleCandidates_pigment type baseColor startWithPaint bristleCount todo i n :
  Forall (fun br => color br = baseColor /\ hasPaint br = startWithPaint)
         (fst (bristleCandidates type baseColor startWithPaint bristleCount todo i n)).
Proof.
  revert i n. induction todo as [|todo IH]; intros i n; [constructor|].
  cbn [Bristles.bristleCandidates]. unfold bind at 1.
  destruct (candidate type i bristleCount n) as [[geo|] n1]; [|apply IH].
  unfold bind at 1.
  pose proof (pushBristle_pigment baseColor startWithPaint geo n1) as Hbr.
  destruct (pushBristle _ _ _ geo n1) as [br n2]. cbn [fst] in Hbr.
  unfold bind at 1, ret.
  specialize (IH (i + 1)%Z n2).
  destruct (bristleCandidates _ _ _ _ todo _ _) as [rest n3].
  cbn [fst] in *. constructor; assumption.
Qed.

Lemma pastelParticles_facts baseColor voids todo n :
  Forall (fun br => color br = baseColor /\ hasPaint br = true /\
                    length br = 0.1 /\ feather br = 0)
         (fst (pastelParticles baseColor voids todo n)) /\
  (List.length (fst (pastelParticles baseColor voids todo n)) <= todo)%nat.
Proof.
  revert n. induction todo as [|todo IH]; intros n; [split; [constructor | cbn; lia]|].
  cbn [Bristles.pastelParticles]. unfold bind, random, ret. cbv beta iota zeta.
  destruct (existsb _ voids).
  - destruct (IH (S (S n))) as [Hf Hl]. split; [exact Hf | lia].
  - destruct (IH (S (S (S (S (S (S n))))))) as [Hf Hl].
    destruct (pastelParticles baseColor voids todo _) as [rest n'].
    cbn [fst List.length] in *. split; [|lia].
    constructor; [repeat split | exact Hf].
Qed.

(** Every bristle [updateBristles] makes carries the brush colour. A pastel
    particle always starts with paint, the bristle of another brush only in
    dry mode. The bristles of a brush come out in ascending [dy]; pastel
    particles are at most 60, of length 0.1 and without feather (the sort
    under the random comparator only rearranges them). *)
Theorem updateBristles_pigment (settings : BrushSettings) (type : BrushType) (size : Q)
    (n : nat) :
  (forall l k, Permutation (fst (randomSort l k)) l) ->
  let bs := fst (updateBristles settings type size n) in
  Forall (fun br => color br = colorOfHex (Settings.color settings) /\
                    hasPaint br = (isPastelType type || negb (wetMode settings))) bs /\
  (isPastelType type = false -> ascendingDy bs) /\
  (isPastelType type = true ->
   (List.length bs <= 60)%nat /\
   Forall (fun br => length br = 0.1 /\ feather br = 0) bs).
Proof.
  intros Hperm bs. subst bs. unfold Bristles.updateBristles. cbv zeta.
  destruct (isPastelType type) eqn:Ep; cbn [orb].
  - unfold bind, random. cbv beta iota.
    destruct (pastelVoids _ _ _) as [voids n1].
    destruct (pastelParticles_facts (colorOfHex (Settings.color settings)) voids 60 n1)
      as [Hf Hl].
    destruct (pastelParticles _ voids 60 n1) as [made n2]. cbn [fst] in Hf, Hl.
    specialize (Hperm made n2).
    split; [|split; [discriminate|]].
    + rewrite Hperm. eapply Forall_impl; [exact Hf|]. cbn. tauto.
    + intros _. split.
      * rewrite Hperm. exact Hl.
      * rewrite Hperm. eapply Forall_impl; [exact Hf|]. cbn. tauto.
  - unfold bind, ret.
    pose proof (bristleCandidates_pigment type (colorOfHex (Settings.color settings))
                  (negb (wetMode settings)) (Qfloor (size * countMultiplier type))
                  (Z.to_nat (Qfloor (size * countMultiplier type))) 0%Z n) as Hf.
    destruct (bristleCandidates _ _ _ _ _ _ _) as [made n']. cbn [fst] in *.
    destruct (sortByDy_facts _ made Hf) as [Hf' Hasc].
    split; [exact Hf'|]. split; [intros _; exact Hasc | discriminate].
Qed.

End Generator.

Example pastel_in_wet_mode_has_paint :
  List.length (pastelBristlesOf 0.5 40) = 60%nat /\
  forallb hasPaint (pastelBristlesOf 0.5 40) = true.
Proof. vm_compute. split; reflexivity. Qed.

Lemma updateBristles_pigment_witness :
  let settings := mkBrushSettings pastel 40 0.9 "#CC3333" true true true 1 in
  let bs := pastelBristlesOf 0.5 40 in
  Forall (fun br => color br = colorOfHex (Settings.color settings) /\
                    hasPaint br = (isPastelType pastel || negb (wetMode settings))) bs /\
  (isPastelType pastel = false -> ascendingDy bs) /\
  (isPastelType pastel = true ->
   (List.length bs <= 60)%nat /\
   Forall (fun br => length br = 0.1 /\ feather br = 0) bs).
Proof.
  apply (updateBristles_pigment (constRandom 0.5) demoCos demoSin (fun v => v) demoPow
           PatternTools.hypotExact (355 # 113) reversingSort
           (mkBrushSettings pastel 40 0.9 "#CC3333" true true true 1) pastel 40 0%nat).
  intros l k. cbn [reversingSort fst]. symmetry. apply Permutation_rev.
Defined.

End BristleOrderFacts.

(** ** The end points of the additive interpolation *)

Module LerpFacts.
Import Color.
Local Open Scope float_scope.

Lemma forallb_bytes (f : Z -> bool) (v : Z) :
  forallb f (seqZ 0 256) = true -> (0 <= v <= 255)%Z -> f v = true.
Proof.
  intros Hall Hv. rewrite forallb_forall in Hall. apply Hall.
  apply list_elem_of_In, elem_of_seqZ. lia.
Qed.

(** Adding no part, or all, of the difference of two bytes is exact in
    binary64. *)
Lemma lerp_bytes_sweep :
  forallb (fun a => forallb (fun b =>
    Leibniz.eqb (float_of_Z a + (float_of_Z b - float_of_Z a) * 0) (float_of_Z a) &&
    Leibniz.eqb (float_of_Z a + (float_of_Z b - float_of_Z a) * 1) (float_of_Z b))
    (seqZ 0 256)) (seqZ 0 256) = true.
Proof. vm_compute. reflexivity. Qed.

Lemma Math_round_bytes_sweep :
  forallb (fun a => Leibniz.eqb (Math_round (float_of_Z a)) (float_of_Z a)) (seqZ 0 256) = true.
Proof. vm_compute. reflexivity. Qed.

Lemma lerp_channel (a b : Z) :
  (0 <= a <= 255)%Z -> (0 <= b <= 255)%Z ->
  Math_round (float_of_Z a + (float_of_Z b - float_of_Z a) * 0) = float_of_Z a /\
  Math_round (float_of_Z a + (float_of_Z b - float_of_Z a) * 1) = float_of_Z b.
Proof.
  intros Ha Hb.
  pose proof (forallb_bytes _ a lerp_bytes_sweep Ha) as Hrow. cbv beta in Hrow.
  pose proof (forallb_bytes _ b Hrow Hb) as Hab. cbv beta in Hab.
  apply andb_prop in Hab. destruct Hab as [E0 E1].
  apply FloatAxioms.Leibniz.eqb_spec in E0, E1. rewrite E0, E1.
  pose proof (forallb_bytes _ a Math_round_bytes_sweep Ha) as Ra.
  pose proof (forallb_bytes _ b Math_round_bytes_sweep Hb) as Rb. cbv beta in Ra, Rb.
  apply FloatAxioms.Leibniz.eqb_spec in Ra, Rb. split; assumption.
Qed.

(** [lerpColor] ends where it should: between two colours whose channels
    are bytes it returns the first one at [t = 0] and the second one at
    [t = 1], bit for bit, in the binary64 arithmetic of JavaScript. *)
Theorem lerpColor_endpoints (r1 g1 b1 r2 g2 b2 : Z) :
  (0 <= r1 <= 255)%Z -> (0 <= g1 <= 255)%Z -> (0 <= b1 <= 255)%Z ->
  (0 <= r2 <= 255)%Z -> (0 <= g2 <= 255)%Z -> (0 <= b2 <= 255)%Z ->
  let c1 := mkRGB (float_of_Z r1) (float_of_Z g1) (float_of_Z b1) in
  let c2 := mkRGB (float_of_Z r2) (float_of_Z g2) (float_of_Z b2) in
  lerpColor c1 c2 0 = c1 /\ lerpColor c1 c2 1 = c2.
Proof.
  intros Hr1 Hg1 Hb1 Hr2 Hg2 Hb2 c1 c2. subst c1 c2. unfold lerpColor. cbn [r g b].
  destruct (lerp_channel r1 r2 Hr1 Hr2) as [-> ->].
  destruct (lerp_channel g1 g2 Hg1 Hg2) as [-> ->].
  destruct (lerp_channel b1 b2 Hb1 Hb2) as [-> ->].
  split; reflexivity.
Qed.

Lemma lerpColor_endpoints_witness :
  let c1 := mkRGB (float_of_Z 0) (float_of_Z 255) (float_of_Z 255) in
  let c2 := mkRGB (float_of_Z 255) (float_of_Z 255) (float_of_Z 0) in
  lerpColor c1 c2 0 = c1 /\ lerpColor c1 c2 1 = c2.
Proof. apply (lerpColor_endpoints 0 255 255 255 255 0); lia. Defined.

End LerpFacts.
